(** * Market-data collector: a shallow embedding of [app.py]

    The development follows the source file top-down: the text helpers the
    program relies on ([str.replace], [str.split], [str.find], slicing), the
    dynamically typed values it manipulates, the rate-limited client, the
    hashname builder, the listing-id and order-book fetchers and the batch
    loop of [process_all_skins].

    Python [str] values are modelled as [string], the sequence of UTF-8 bytes
    of the text.  Searching and replacing ASCII patterns on the UTF-8 bytes
    agrees with doing it on code points.

    Clock readings and delays are rationals.  Builtins whose result is a
    matter of the interpreter ([int], [float], [eval], true division,
    [repr]) and everything outside the process (the marketplace, the clock,
    the random generator, the input file) are parameters.  The retry of a
    rejected request is a recursive call that need not end, so the functions
    that send requests take a number of calls to follow, [fuel], and answer
    [Diverge] when it is spent. *)

From Stdlib Require Import List String Ascii Bool Arith ZArith QArith Lia Lqa.
From Stdlib Require Import Qround DecimalString.
Import ListNotations.

Open Scope string_scope.

(* ================================================================== *)
(** ** Text helpers *)

Module Text.

(** The double-quote character, which the response labels contain. *)
Definition dq : string := String (ascii_of_nat 34) EmptyString.

(** [s.replace(old, new)] for a non-empty [old]: occurrences are replaced
    left to right and do not overlap.  [skip] counts the characters of the
    occurrence being replaced that are still to be dropped. *)
Fixpoint replace_from (old new : string) (skip : nat) (s : string) : string :=
  match s with
  | EmptyString => EmptyString
  | String c s' =>
      match skip with
      | S k => replace_from old new k s'
      | O =>
          if prefix old s
          then new ++ replace_from old new (String.length old - 1) s'
          else String c (replace_from old new 0 s')
      end
  end.

Definition replace (old new s : string) : string := replace_from old new 0 s.

(** [s.split(sep)] for a non-empty [sep].  [cur] is the piece being read,
    most recent character first. *)
Fixpoint rev_string (acc s : string) : string :=
  match s with
  | EmptyString => acc
  | String c s' => rev_string (String c acc) s'
  end.

Fixpoint split_from (sep : string) (skip : nat) (cur : string) (s : string)
  : list string :=
  match s with
  | EmptyString => [rev_string EmptyString cur]
  | String c s' =>
      match skip with
      | S k => split_from sep k cur s'
      | O =>
          if prefix sep s
          then rev_string EmptyString cur
               :: split_from sep (String.length sep - 1) EmptyString s'
          else split_from sep 0 (String c cur) s'
      end
  end.

Definition split (sep s : string) : list string :=
  split_from sep 0 EmptyString s.

(** [s.find(sub, start)] for [start >= 0]: the lowest index at or after
    [start] where [sub] occurs, or [-1]. *)
Definition find (sub s : string) (start : Z) : Z :=
  match index (Z.to_nat start) sub s with
  | Some i => Z.of_nat i
  | None => (-1)%Z
  end.

(** [s[a:b]] for indices [a, b >= 0]. *)
Definition slice (s : string) (a b : Z) : string :=
  substring (Z.to_nat a) (Z.to_nat b - Z.to_nat a) s.

Definition len (s : string) : Z := Z.of_nat (String.length s).

(** [str(n)] for an integer. *)
Definition str_of_int (z : Z) : string := NilZero.string_of_int (Z.to_int z).

End Text.

(* ================================================================== *)
(** ** Values, exceptions and the Python runtime *)

(** The values the program handles.  [PFloat q] stands for the float whose
    value is [q]; rounding is not modelled.  [PObj t] stands for an object
    of any other class [t] (for instance [Ellipsis] or a builtin function):
    hashable, but neither iterable, subscriptable, convertible by [float]
    nor serialisable by [json.dump].  A text is kept as the bytes of its
    UTF-8 encoding; a lone surrogate, which [json.load] accepts, as the
    three bytes that encode its code point (ED, A0..BF, and one more). *)
#[local] Set Warnings "-register-all".
Inductive pyval : Type :=
| PNone
| PBool (b : bool)
| PInt (z : Z)
| PFloat (q : Q)
| PStr (s : string)
| PList (l : list pyval)
| PDict (d : list (string * pyval))
| PObj (tyname : string).

(** A [dict] keeps its keys in insertion order. *)
Definition dict : Type := list (string * pyval).

Inductive exc_class : Type :=
| HTTPError (status : option Z)   (* an [httpx.HTTPError] that has the attribute
                                     [response]: its status, when it is not None *)
| RequestError (name : string)    (* an [httpx.HTTPError] of class [name] that has
                                     no attribute [response] *)
| IndexError
| KeyError
| TypeError
| ValueError
| AttributeError
| SyntaxError
| RecursionError
| UnicodeEncodeError
| FileNotFoundError
| JSONDecodeError
| OtherException.

(** A raised exception of class [Exception]: its class and [str(e)].  What
    is raised outside that class is an outcome of its own, [Escape]
    below. *)
Record exc : Type := mkExc { exc_cls : exc_class; exc_str : string }.

Inductive result (A : Type) : Type :=
| Ok (a : A)
| Err (e : exc).
Arguments Ok {A} a.
Arguments Err {A} e.

Definition rbind {A B} (r : result A) (k : A -> result B) : result B :=
  match r with
  | Ok a => k a
  | Err e => Err e
  end.

Declare Scope result_scope.
Delimit Scope result_scope with result.
Notation "x <- r ;; k" := (rbind r (fun x => k))
  (at level 61, r at next level, right associativity) : result_scope.

(* ================================================================== *)
(** ** The state of the process and the computations on it *)

Inductive log_entry : Type :=
| RateLimitHit
| GraphParseFailed (e : exc)
| VolumeFailed (e : exc)
| SkippingNoName (i total : nat)
| ErrorProcessing (i total : nat) (name : pyval) (e : exc)
| InputNotFound
| InputNotJSON
| Unexpected (e : exc).

Inductive event : Type :=
| Dispatch (t : Q) (url : string)   (* a request leaves at clock time [t] *)
| Sleep (d : Q)                     (* [time.sleep(d)] *)
| Log (l : log_entry)               (* a warning or an error of the logger *)
| Closed.                           (* [client.close()] *)

(** A [RateLimitedClient] together with the clock and the history of what
    the process did, most recent event first. *)
Record machine : Type := mkMachine {
  min_delay : Q;
  max_delay : Q;
  last_request_time : Q;
  clock : Q;
  dispatched : nat;
  drawn : nat;
  slept : nat;
  trace : list event
}.

Definition set_last_request_time (m : machine) (t : Q) : machine :=
  mkMachine (min_delay m) (max_delay m) t (clock m)
            (dispatched m) (drawn m) (slept m) (trace m).

Definition emit (ev : event) (m : machine) : machine :=
  mkMachine (min_delay m) (max_delay m) (last_request_time m) (clock m)
            (dispatched m) (drawn m) (slept m) (ev :: trace m).

(** [RateLimitedClient(min_delay, max_delay)]. *)
Definition new_client (m : machine) (min_d max_d : Q) : machine :=
  mkMachine min_d max_d 0 (clock m) (dispatched m) (drawn m) (slept m) (trace m).

(** How a computation ends.  [Raise e]: an exception of class [Exception]
    leaves it.  [Escape status]: an exception that is not of class
    [Exception] leaves it ([SystemExit], [KeyboardInterrupt]); no
    [except Exception] clause catches it, and the script ends with exit
    status [status] when it gets to the top.  [Diverge]: it never comes
    back. *)
Inductive outcome (A : Type) : Type :=
| Ret (a : A)
| Raise (e : exc)
| Escape (status : Z)
| Diverge.
Arguments Ret {A} a.
Arguments Raise {A} e.
Arguments Escape {A} status.
Arguments Diverge {A}.

Definition M (S A : Type) : Type := S -> outcome A * S.

Definition ret {S A} (a : A) : M S A := fun s => (Ret a, s).

Definition bind {S A B} (c : M S A) (k : A -> M S B) : M S B :=
  fun s =>
    match c s with
    | (Ret a, s') => k a s'
    | (Raise e, s') => (Raise e, s')
    | (Escape status, s') => (Escape status, s')
    | (Diverge, s') => (Diverge, s')
    end.

(** A pure step that may raise. *)
Definition lift {S A} (r : result A) : M S A :=
  fun s =>
    match r with
    | Ok a => (Ret a, s)
    | Err e => (Raise e, s)
    end.

(** [try: c  except Exception as e: h e]. *)
Definition try_except {S A} (c : M S A) (h : exc -> M S A) : M S A :=
  fun s =>
    match c s with
    | (Raise e, s') => h e s'
    | r => r
    end.

(** [try: c  finally: f]: [f] runs however [c] is left; a run that never
    leaves [c] never reaches it. *)
Definition try_finally {S A} (c : M S A) (f : S -> S) : M S A :=
  fun s =>
    match c s with
    | (Diverge, s') => (Diverge, s')
    | (r, s') => (r, f s')
    end.

Definition modify {S} (f : S -> S) : M S unit := fun s => (Ret tt, f s).

Declare Scope run_scope.
Delimit Scope run_scope with run.
Notation "x <- c ;; k" := (bind c (fun x => k))
  (at level 61, c at next level, right associativity) : run_scope.
Notation "c ;;; k" := (bind c (fun _ => k))
  (at level 61, right associativity) : run_scope.

(** What a text given to [eval] inside [item_data] can reach without more
    than a call: the dictionary [data] that is being filled and the client,
    and with the client the requests, the sleeps and the log of the
    process. *)
Record scope : Type := mkScope { scope_data : dict; scope_client : machine }.

(** The builtins whose results depend on the interpreter rather than on
    this program; the development is parametric in them. *)
Record builtins : Type := mkBuiltins {
  py_int : string -> result Z;            (* int(text) *)
  py_float : pyval -> result pyval;       (* float(x) *)
  py_eval : string -> M scope pyval;      (* eval(text) inside [item_data]: the
                                             text is run as an expression with
                                             [data] and [client] in scope, and may
                                             change them, raise anything, or not
                                             come back *)
  py_truediv : Z -> Z -> result pyval;    (* a / b on integers *)
  py_repr : pyval -> string;              (* repr(x) *)
  py_encode_error : string -> string      (* str(e) of the UnicodeEncodeError that
                                             writing this text as UTF-8 raises *)
}.

Module Py.

Definition type_name (v : pyval) : string :=
  match v with
  | PNone => "NoneType"
  | PBool _ => "bool"
  | PInt _ => "int"
  | PFloat _ => "float"
  | PStr _ => "str"
  | PList _ => "list"
  | PDict _ => "dict"
  | PObj t => t
  end.

Definition raise {A} (c : exc_class) (msg : string) : result A :=
  Err (mkExc c msg).

(** [d.get(k)] as an option. *)
Fixpoint lookup (d : dict) (k : string) : option pyval :=
  match d with
  | [] => None
  | (k', v) :: d' => if String.eqb k' k then Some v else lookup d' k
  end.

(** [d[k] = v]: an existing key keeps its position. *)
Fixpoint dict_set (d : dict) (k : string) (v : pyval) : dict :=
  match d with
  | [] => [(k, v)]
  | (k', v') :: d' =>
      if String.eqb k' k then (k', v) :: d' else (k', v') :: dict_set d' k v
  end.

Definition is_str (k : string) (v : pyval) : bool :=
  match v with
  | PStr s => String.eqb s k
  | _ => false
  end.

(** Whether [sub] occurs in [s]. *)
Definition substring_of (sub s : string) : bool :=
  match index 0 sub s with
  | Some _ => true
  | None => false
  end.

(** [k in x] for a string [k]. *)
Definition contains (x : pyval) (k : string) : result bool :=
  match x with
  | PDict d => Ok (match lookup d k with Some _ => true | None => false end)
  | PList l => Ok (existsb (is_str k) l)
  | PStr s => Ok (substring_of k s)
  | _ => raise TypeError ("argument of type '" ++ type_name x ++ "' is not iterable")
  end.

(** [x[k]] for a string [k]. *)
Definition getitem_key (B : builtins) (x : pyval) (k : string) : result pyval :=
  match x with
  | PDict d =>
      match lookup d k with
      | Some v => Ok v
      | None => raise KeyError (py_repr B (PStr k))
      end
  | PList _ => raise TypeError "list indices must be integers or slices, not str"
  | PStr _ => raise TypeError "string indices must be integers, not 'str'"
  | _ => raise TypeError ("'" ++ type_name x ++ "' object is not subscriptable")
  end.

(** [x.get(k, default)]. *)
Definition get (x : pyval) (k : string) (default : pyval) : result pyval :=
  match x with
  | PDict d =>
      Ok (match lookup d k with Some v => v | None => default end)
  | _ => raise AttributeError
           ("'" ++ type_name x ++ "' object has no attribute 'get'")
  end.

(** [x[k] = v] for a string [k]: the updated object. *)
Definition setitem_key (x : pyval) (k : string) (v : pyval) : result pyval :=
  match x with
  | PDict d => Ok (PDict (dict_set d k v))
  | PList _ => raise TypeError "list indices must be integers or slices, not str"
  | _ => raise TypeError
           ("'" ++ type_name x ++ "' object does not support item assignment")
  end.

(** [x.split(sep)]. *)
Definition split (x : pyval) (sep : string) : result (list string) :=
  match x with
  | PStr s => Ok (Text.split sep s)
  | _ => raise AttributeError
           ("'" ++ type_name x ++ "' object has no attribute 'split'")
  end.

(** [l[i]] on a list of pieces. *)
Definition list_index {A} (l : list A) (i : nat) : result A :=
  match nth_error l i with
  | Some a => Ok a
  | None => raise IndexError "list index out of range"
  end.

(** The characters of a text, one per byte: exact on ASCII text. *)
Fixpoint chars (s : string) : list pyval :=
  match s with
  | EmptyString => []
  | String c s' => PStr (String c EmptyString) :: chars s'
  end.

(** The items [for x in v] goes through. *)
Definition iter (v : pyval) : result (list pyval) :=
  match v with
  | PList l => Ok l
  | PDict d => Ok (map (fun kv => PStr (fst kv)) d)
  | PStr s => Ok (chars s)
  | _ => raise TypeError ("'" ++ type_name v ++ "' object is not iterable")
  end.

(** [len(v)]. *)
Definition len (v : pyval) : result nat :=
  match v with
  | PList l => Ok (List.length l)
  | PDict d => Ok (List.length d)
  | PStr s => Ok (String.length s)
  | _ => raise TypeError ("object of type '" ++ type_name v ++ "' has no len()")
  end.

(** [v[i]] for a literal index [i >= 0]. *)
Definition getitem (B : builtins) (v : pyval) (i : nat) : result pyval :=
  match v with
  | PList l =>
      match nth_error l i with
      | Some a => Ok a
      | None => raise IndexError "list index out of range"
      end
  | PStr s =>
      match String.get i s with
      | Some c => Ok (PStr (String c EmptyString))
      | None => raise IndexError "string index out of range"
      end
  | PDict _ => raise KeyError (py_repr B (PInt (Z.of_nat i)))
  | _ => raise TypeError ("'" ++ type_name v ++ "' object is not subscriptable")
  end.

(** The integer a value is equal to as a [dict] key, if any: [1], [True]
    and [1.0] are the same key. *)
Definition as_int_key (v : pyval) : option Z :=
  match v with
  | PInt z => Some z
  | PBool b => Some (if b then 1 else 0)%Z
  | PFloat q =>
      if Qeq_bool q (inject_Z (Qfloor q)) then Some (Qfloor q) else None
  | _ => None
  end.

Definition hashable (v : pyval) : bool :=
  match v with
  | PList _ | PDict _ => false
  | _ => true
  end.

(** What [json.dump] refuses: the class of the first object it cannot
    serialise, if any. *)
Fixpoint unserializable (v : pyval) : option string :=
  match v with
  | PObj t => Some t
  | PList l =>
      (fix go (l : list pyval) : option string :=
         match l with
         | [] => None
         | x :: l' =>
             match unserializable x with
             | Some t => Some t
             | None => go l'
             end
         end) l
  | PDict d =>
      (fix go (d : list (string * pyval)) : option string :=
         match d with
         | [] => None
         | (_, x) :: d' =>
             match unserializable x with
             | Some t => Some t
             | None => go d'
             end
         end) d
  | _ => None
  end.

End Py.

(* ================================================================== *)
(** ** [get_hashname] *)

Definition float_conditions : list (Z * string) :=
  [ (0%Z, "%20%28Factory%20New%29");
    (1%Z, "%20%28Minimal%20Wear%29");
    (2%Z, "%20%28Field-Tested%29");
    (3%Z, "%20%28Well-Worn%29");
    (4%Z, "%20%28Battle-Scarred%29") ].

Fixpoint assoc_Z (l : list (Z * string)) (k : Z) : option string :=
  match l with
  | [] => None
  | (k', v) :: l' => if Z.eqb k' k then Some v else assoc_Z l' k
  end.

(** [float_conditions[wear]]. *)
Definition float_conditions_getitem (B : builtins) (wear : pyval) : result string :=
  if Py.hashable wear then
    match Py.as_int_key wear with
    | Some z =>
        match assoc_Z float_conditions z with
        | Some suffix => Ok suffix
        | None => Py.raise KeyError (py_repr B wear)
        end
    | None => Py.raise KeyError (py_repr B wear)
    end
  else Py.raise TypeError ("unhashable type: '" ++ Py.type_name wear ++ "'").

(** [stat == 1]. *)
Definition eq_one (stat : pyval) : bool :=
  match Py.as_int_key stat with
  | Some z => Z.eqb z 1
  | None => false
  end.

Definition stattrak_prefix : string := "StatTrak™%20".

Definition get_hashname (B : builtins) (item skin : string) (wear stat : pyval)
  : result string :=
  let item := Text.replace " " "%20" item in
  let skin := Text.replace " " "%20" skin in
  (wear <- float_conditions_getitem B wear ;;
   let item := if eq_one stat then stattrak_prefix ++ item else item in
   Ok (item ++ "%20%7C%20" ++ skin ++ wear))%result.

(* ================================================================== *)
(** ** The environment and the rate-limited client *)

Record response : Type := mkResponse { status_code : Z; text : string }.

(** What [self.client.get(url)] does: return a response or raise. *)
Inductive transport_outcome : Type :=
| Respond (r : response)
| Fail (e : exc).

(** Where the call stack of the interpreter runs out in the first frame of
    [get] that does not fit on it together with the calls it makes: at a
    call made before the request, so that the frame does nothing that shows,
    or at the call of the logger in the handler, after the request was sent
    and rejected.  [msg] is [str(e)] of the [RecursionError].  (A
    [RecursionError] raised inside [self.client.get] is one of the failures
    of the transport.) *)
Inductive overflow : Type :=
| AtCall (msg : string)
| AtWarning (msg : string).

(** Everything outside the program.  Requests, random draws and sleeps are
    numbered from 0 in the order the program performs them. *)
Record world : Type := mkWorld {
  transport : nat -> string -> transport_outcome; (* outcome of the k-th request *)
  latency : nat -> Q;               (* time the k-th request takes *)
  uniform : nat -> Q -> Q -> Q;     (* k-th [random.uniform(a, b)] *)
  oversleep : nat -> Q;             (* time the k-th sleep takes beyond its argument *)
  input_file : result pyval;        (* opening the input file and [json.load] *)
  stack : nat -> overflow           (* how the stack runs out, should it do so
                                       when the k-th request is due *)
}.

Definition Qltb (x y : Q) : bool := negb (Qle_bool y x).

Section Client.

Variable w : world.

(** [time.sleep(d)]. *)
Definition sleep (d : Q) (m : machine) : machine :=
  mkMachine (min_delay m) (max_delay m) (last_request_time m)
            (clock m + d + oversleep w (slept m))
            (dispatched m) (drawn m) (S (slept m)) (Sleep d :: trace m).

(** [random.uniform(a, b)]. *)
Definition draw (a b : Q) (m : machine) : Q * machine :=
  (uniform w (drawn m) a b,
   mkMachine (min_delay m) (max_delay m) (last_request_time m) (clock m)
             (dispatched m) (S (drawn m)) (slept m) (trace m)).

(** [self.client.get(url)]: the request leaves now and its outcome is
    known [latency] later. *)
Definition send (url : string) (m : machine) : transport_outcome * machine :=
  (transport w (dispatched m) url,
   mkMachine (min_delay m) (max_delay m) (last_request_time m)
             (clock m + latency w (dispatched m))
             (S (dispatched m)) (drawn m) (slept m)
             (Dispatch (clock m) url :: trace m)).

Definition wait_if_needed (m : machine) : machine :=
  if Qltb 0 (last_request_time m) then
    let elapsed := clock m - last_request_time m in
    let (delay, m) := draw (min_delay m) (max_delay m) m in
    if Qltb elapsed delay then
      let wait_time := delay - elapsed in
      sleep wait_time m
    else m
  else m.

(** [e.response and e.response.status_code == 429], for an [e] that has
    the attribute [response]. *)
Definition rate_limited (e : exc) : bool :=
  match exc_cls e with
  | HTTPError (Some status) => Z.eqb status 429
  | _ => false
  end.

(** What evaluating [e.response] raises in the handler, if anything: an
    [httpx.HTTPError] without that attribute is caught by the clause, and
    the handler fails on it with an [AttributeError]. *)
Definition no_response (e : exc) : option exc :=
  match exc_cls e with
  | RequestError name =>
      Some (mkExc AttributeError
              ("'" ++ name ++ "' object has no attribute 'response'"))
  | _ => None
  end.

Definition recursion_error (msg : string) : exc := mkExc RecursionError msg.

(** [RateLimitedClient.get].  The retry is a recursive call, and nothing
    but the call stack of the interpreter bounds it: [fuel] is the number of
    frames of [get] the stack still has room for, each with the calls it
    makes.  In the frame after the last of these the stack runs out, where
    the environment says.  A response is returned whatever its status; an
    exception that is not an [httpx.HTTPError] passes as it is. *)
Fixpoint get (fuel : nat) (url : string) (m : machine) : outcome response * machine :=
  match fuel with
  | O =>
      match stack w (dispatched m) with
      | AtCall msg => (Raise (recursion_error msg), m)
      | AtWarning msg =>
          let m := wait_if_needed m in
          match send url m with
          | (Respond response, m) =>
              let m := set_last_request_time m (clock m) in
              (Ret response, m)
          | (Fail e, m) =>
              match no_response e with
              | Some e' => (Raise e', m)
              | None =>
                  if rate_limited e then (Raise (recursion_error msg), m)
                  else (Raise e, m)
              end
          end
      end
  | S fuel' =>
      let m := wait_if_needed m in
      match send url m with
      | (Respond response, m) =>
          let m := set_last_request_time m (clock m) in
          (Ret response, m)
      | (Fail e, m) =>
          match no_response e with
          | Some e' => (Raise e', m)
          | None =>
              if rate_limited e then
                let m := emit (Log RateLimitHit) m in
                let m := sleep 5 m in
                get fuel' url m
              else (Raise e, m)
          end
      end
  end.

(** [client.close()]. *)
Definition close (m : machine) : machine := emit Closed m.

End Client.

(* ================================================================== *)
(** ** [get_nameid] and [item_data] *)

Section Fetch.

Variable B : builtins.
Variable w : world.
Variable fuel : nat.

Import Text.

Definition log (l : log_entry) : M machine unit := modify (emit (Log l)).

Definition listing_url (hashname : string) : string :=
  "https://steamcommunity.com/market/listings/730/" ++ hashname.

Definition histogram_url (nameid : string) : string :=
  "https://steamcommunity.com/market/itemordershistogram?country=US&currency=1&language=english&two_factor=0&item_nameid="
  ++ nameid.

Definition priceoverview_url (hashname : string) : string :=
  "https://steamcommunity.com/market/priceoverview/?appid=730&currency=1&market_hash_name="
  ++ hashname.

Definition get_nameid (hashname : string) : M machine Z :=
  (response <- get w fuel (listing_url hashname) ;;
   let html := text response in
   nameid <- lift (Py.list_index (split "Market_LoadOrderSpread( " html) 1) ;;
   nameid <- lift (Py.list_index (split " " nameid) 0) ;;
   lift (py_int B nameid))%run.

Definition highest_buy_label : string := dq ++ "highest_buy_order" ++ dq ++ ":" ++ dq.
Definition lowest_sell_label : string := dq ++ "lowest_sell_order" ++ dq ++ ":" ++ dq.
Definition buy_graph_label : string := dq ++ "buy_order_graph" ++ dq ++ ":".
Definition sell_graph_label : string := dq ++ "sell_order_graph" ++ dq ++ ":".
Definition volume_label : string := "volume" ++ dq ++ ":" ++ dq.

(** The text after the first [label], up to the next double quote:
    [(order_data.split(label)[1]).split(dq)[0]]. *)
Definition field_after (label order_data : string) : result string :=
  (rest <- Py.list_index (split label order_data) 1 ;;
   Py.list_index (split dq rest) 0)%result.

(** [int(<field>)/100]. *)
Definition price_field (label order_data : string) : result pyval :=
  (field <- field_after label order_data ;;
   cents <- py_int B field ;;
   py_truediv B cents 100)%result.

(** The text between a graph label and the first [ ]], ] after it. *)
Definition graph_text (label order_data : string) : string :=
  let graph_start := (find label order_data 0 + len label)%Z in
  let graph_end := (find "]]," order_data graph_start + 2)%Z in
  slice order_data graph_start graph_end.

(** [{"price": float(order[0]), "count": order[1]}]. *)
Definition order_entry (order : pyval) : result pyval :=
  (first <- Py.getitem B order 0 ;;
   price <- py_float B first ;;
   count <- Py.getitem B order 1 ;;
   Ok (PDict [("price", price); ("count", count)]))%result.

Fixpoint map_result {A C} (f : A -> result C) (l : list A) : result (list C) :=
  match l with
  | [] => Ok []
  | a :: l' => (c <- f a ;; cs <- map_result f l' ;; Ok (c :: cs))%result
  end.

(** [[order_entry(order) for order in graph]]. *)
Definition orders_of (graph : pyval) : result pyval :=
  (orders <- Py.iter graph ;;
   entries <- map_result order_entry orders ;;
   Ok (PList entries))%result.

(** A step of the client inside [item_data]. *)
Definition on_client {A} (c : M machine A) : M scope A :=
  fun sc => let (r, m) := c (scope_client sc) in (r, mkScope (scope_data sc) m).

(** [data[key] = value]. *)
Definition data_setitem (key : string) (value : pyval) : M scope unit :=
  modify (fun sc => mkScope (Py.dict_set (scope_data sc) key value)
                            (scope_client sc)).

(** The body of the [try] that parses the graphs.  Both texts are evaluated
    first, each with [data] and [client] in scope, then both are
    converted. *)
Definition parse_graphs (order_data : string) : M scope unit :=
  let buy_graph_str := graph_text buy_graph_label order_data in
  let sell_graph_str := graph_text sell_graph_label order_data in
  (buy_graph <- py_eval B buy_graph_str ;;
   sell_graph <- py_eval B sell_graph_str ;;
   buy_orders <- lift (orders_of buy_graph) ;;
   data_setitem "buy_orders" buy_orders ;;;
   sell_orders <- lift (orders_of sell_graph) ;;
   data_setitem "sell_orders" sell_orders)%run.

(** The [try] that parses the two graphs, with its handler. *)
Definition order_graphs (order_data : string) : M scope unit :=
  try_except
    (parse_graphs order_data)
    (fun e =>
       on_client (log (GraphParseFailed e)) ;;;
       data_setitem "buy_orders" (PList []) ;;;
       data_setitem "sell_orders" (PList []))%run.

(** The [try] that fetches the volume, with its handler.  A call of [get]
    made by [item_data] itself starts one frame higher on the stack than one
    made through [get_nameid]: one more frame fits. *)
Definition volume_data (hashname : string) : M scope unit :=
  try_except
    (volume_response <- on_client (get w (S fuel) (priceoverview_url hashname)) ;;
     field <- lift (field_after volume_label (text volume_response)) ;;
     volume <- lift (py_int B field) ;;
     data_setitem "volume" (PInt volume))%run
    (fun e =>
       on_client (log (VolumeFailed e)) ;;;
       data_setitem "volume" PNone)%run.

(** Runs [c] with [data] as the dictionary in scope and returns the
    dictionary as [c] leaves it. *)
Definition in_scope {A} (data : dict) (c : M scope A) : M machine dict :=
  fun m =>
    match c (mkScope data m) with
    | (Ret _, sc) => (Ret (scope_data sc), scope_client sc)
    | (Raise e, sc) => (Raise e, scope_client sc)
    | (Escape status, sc) => (Escape status, scope_client sc)
    | (Diverge, sc) => (Diverge, scope_client sc)
    end.

Definition item_data (hashname : string) : M machine dict :=
  (nameid_int <- get_nameid hashname ;;
   let nameid := str_of_int nameid_int in
   let data : dict := [] in
   order_response <- get w (S fuel) (histogram_url nameid) ;;
   let order_data := text order_response in
   in_scope data
     (buy_req <- lift (price_field highest_buy_label order_data) ;;
      data_setitem "buy_req" buy_req ;;;
      sell_req <- lift (price_field lowest_sell_label order_data) ;;
      data_setitem "sell_req" sell_req ;;;
      order_graphs order_data ;;;
      volume_data hashname ;;;
      data_setitem "nameid" (PStr nameid)))%run.

(** [get_weapon_data] and [get_case_data]: the fetch with its failure
    turned into an [error] entry. *)
Definition unavailable (e : exc) : dict :=
  [("error", PStr ("Item data not available: " ++ exc_str e))].

Definition get_weapon_data (gun skin : string) (wear stat : pyval) : M machine dict :=
  (hashname <- lift (get_hashname B gun skin wear stat) ;;
   try_except (item_data hashname) (fun e => ret (unavailable e)))%run.

Definition get_case_data (case : string) : M machine dict :=
  let hashname := replace " " "%20" case in
  try_except (item_data hashname) (fun e => ret (unavailable e)).

End Fetch.

(* ================================================================== *)
(** ** [process_all_skins] *)

(** What a reader of the output file finds. *)
Inductive file_state : Type :=
| Untouched                          (* as it was before the run *)
| Truncated                          (* opened with mode [w]: empty *)
| Partial                            (* the beginning of a document only *)
| Document (records : list pyval).   (* the whole serialisation of a list *)

(** The state of a run.  [skins] is the loaded catalogue; an item object is
    identified by its position there, and [processed_skins] holds references
    to item objects, as the Python list does. *)
Record batch : Type := mkBatch {
  mach : machine;
  skins : list pyval;
  processed_skins : list nat;
  output_file : file_state;
  file_history : list file_state     (* earlier contents, most recent first *)
}.

Definition set_mach (b : batch) (m : machine) : batch :=
  mkBatch m (skins b) (processed_skins b) (output_file b) (file_history b).

Definition set_skins (l : list pyval) (b : batch) : batch :=
  mkBatch (mach b) l (processed_skins b) (output_file b) (file_history b).

Definition set_processed (l : list nat) (b : batch) : batch :=
  mkBatch (mach b) (skins b) l (output_file b) (file_history b).

Definition set_file (f : file_state) (b : batch) : batch :=
  mkBatch (mach b) (skins b) (processed_skins b) f (output_file b :: file_history b).

Fixpoint update_nth {A} (n : nat) (a : A) (l : list A) : list A :=
  match l, n with
  | [], _ => []
  | _ :: l', O => a :: l'
  | x :: l', S n' => x :: update_nth n' a l'
  end.

(** The object a reference denotes. *)
Definition deref (b : batch) (r : nat) : pyval := nth r (skins b) PNone.

Definition records (b : batch) : list pyval := map (deref b) (processed_skins b).

Section Batch.

Variable B : builtins.
Variable w : world.
Variable fuel : nat.

Definition on_machine {A} (c : M machine A) : M batch A :=
  fun b => let (r, m) := c (mach b) in (r, set_mach b m).

(** [with open(output_file, 'w') as f: json.dump(value, f)].  Opening
    truncates the file; a dump that raises leaves what it had written. *)
Definition dump (value : list pyval) : M batch unit :=
  fun b =>
    let b := set_file Truncated b in
    match Py.unserializable (PList value) with
    | None => (Ret tt, set_file (Document value) b)
    | Some t =>
        (Raise (mkExc TypeError
                  ("Object of type " ++ t ++ " is not JSON serializable")),
         set_file Partial b)
    end.

Definition dump_processed : M batch unit :=
  fun b => dump (records b) b.

(** [skin[key] = value] on the item object [r]. *)
Definition skin_setitem (r : nat) (key : string) (value : pyval) : M batch unit :=
  fun b =>
    match Py.setitem_key (deref b r) key value with
    | Ok skin' => (Ret tt, set_skins (update_nth r skin' (skins b)) b)
    | Err e => (Raise e, b)
    end.

(** [processed_skins.append(skin)]. *)
Definition append_processed (r : nat) : M batch unit :=
  modify (fun b => set_processed (processed_skins b ++ [r]) b).

Definition skin_of (r : nat) : M batch pyval := fun b => (Ret (deref b r), b).

(** The body of the inner [try] for the [i]-th item, the object [r]. *)
Definition process_skin (i total_skins r : nat) : M batch unit :=
  (skin <- skin_of r ;;
   has_name <- lift (Py.contains skin "name") ;;
   if negb has_name then
     on_machine (log (SkippingNoName i total_skins))
   else
     name <- lift (Py.getitem_key B skin "name") ;;
     skin_names <- lift (Py.split name " | ") ;;
     weapon <- lift (Py.list_index skin_names 0) ;;
     finish <- lift (Py.list_index skin_names 1) ;;
     wear <- lift (Py.get skin "wear" (PInt 0)) ;;
     stat <- lift (Py.get skin "stat" (PInt 0)) ;;
     hashname <- lift (get_hashname B weapon finish wear stat) ;;
     market_data <- on_machine (item_data B w fuel hashname) ;;
     skin_setitem r "market_data" (PDict market_data) ;;;
     append_processed r ;;;
     dump_processed)%run.

(** The [except Exception as e] block of the item. *)
Definition record_error (i total_skins r : nat) (e : exc) : M batch unit :=
  (skin <- skin_of r ;;
   name <- lift (Py.get skin "name" (PStr "Unknown")) ;;
   on_machine (log (ErrorProcessing i total_skins name e)) ;;;
   skin_setitem r "market_data" (PDict [("error", PStr (exc_str e))]) ;;;
   append_processed r ;;;
   dump_processed)%run.

Definition process_item (i total_skins r : nat) : M batch unit :=
  try_except (process_skin i total_skins r) (record_error i total_skins r).

(** [for i, skin in enumerate(skins, 1)], over the references [rs]. *)
Fixpoint process_items (total_skins : nat) (rs : list nat) : M batch unit :=
  match rs with
  | [] => ret tt
  | r :: rs' =>
      (process_item (S r) total_skins r ;;;
       process_items total_skins rs')%run
  end.

Definition process_all_skins : M batch unit :=
  try_except
    (loaded <- lift (input_file w) ;;
     total_skins <- lift (Py.len loaded) ;;
     items <- lift (Py.iter loaded) ;;
     modify (set_skins items) ;;;
     dump [] ;;;
     on_machine (modify (fun m => new_client m (3 # 2) 3)) ;;;
     try_finally
       (modify (set_processed []) ;;;
        process_items total_skins (seq 0 (List.length items)))
       (fun b => set_mach b (close (mach b))))%run
    (fun e =>
       match exc_cls e with
       | FileNotFoundError => on_machine (log InputNotFound)
       | JSONDecodeError => on_machine (log InputNotJSON)
       | _ => on_machine (log (Unexpected e))
       end).

(** The exit status of the script: 0 when [process_all_skins] returns,
    1 when an exception of class [Exception] leaves it, the status of the
    exception when one that is not of that class does, none while the run
    has not come back. *)
Definition main (b : batch) : option Z :=
  match fst (process_all_skins b) with
  | Ret _ => Some 0%Z
  | Raise _ => Some 1%Z
  | Escape status => Some status
  | Diverge => None
  end.

End Batch.

(** A run starts with nothing loaded and the clock at [t0]. *)
Definition initial (t0 : Q) : batch :=
  mkBatch (mkMachine (3 # 2) 3 0 t0 0 0 0 []) [] [] Untouched [].

(* ================================================================== *)
(** ** [sanitize_skin_data]

    The script that prepares the catalogue.  Its input comes from
    [json.load], so no two places of [data] hold the same object and the
    in-place updates of the loop are written as updates of the tree. *)

Definition rarity_mapping : list (string * Z) :=
  [("rarity_ancient_weapon", 0%Z);
   ("rarity_legendary_weapon", 1%Z);
   ("rarity_mythical_weapon", 2%Z);
   ("rarity_rare_weapon", 3%Z);
   ("rarity_uncommon_weapon", 4%Z);
   ("rarity_common_weapon", 5%Z)].

Definition fields_to_remove : list string :=
  ["description"; "category"; "team"; "legacy_model"].

(** The dictionary without the key [k]. *)
Fixpoint dict_del (d : dict) (k : string) : dict :=
  match d with
  | [] => []
  | (k', v) :: d' =>
      if String.eqb k' k then dict_del d' k else (k', v) :: dict_del d' k
  end.

(** [del x[k]] for a string [k]: the object afterwards. *)
Definition delitem_key (B : builtins) (x : pyval) (k : string) : result pyval :=
  match x with
  | PDict d =>
      match Py.lookup d k with
      | Some _ => Ok (PDict (dict_del d k))
      | None => Py.raise KeyError (py_repr B (PStr k))
      end
  | PList _ => Py.raise TypeError "list indices must be integers or slices, not str"
  | _ => Py.raise TypeError
           ("'" ++ Py.type_name x ++ "' object doesn't support item deletion")
  end.

Fixpoint assoc_str (l : list (string * Z)) (k : string) : option Z :=
  match l with
  | [] => None
  | (k', z) :: l' => if String.eqb k' k then Some z else assoc_str l' k
  end.

(** [rarity_mapping.get(rarity_id)]: the keys are strings, so any other
    hashable value finds nothing. *)
Definition rarity_mapping_get (rarity_id : pyval) : result pyval :=
  if Py.hashable rarity_id then
    match rarity_id with
    | PStr s =>
        Ok (match assoc_str rarity_mapping s with
            | Some z => PInt z
            | None => PNone
            end)
    | _ => Ok PNone
    end
  else Py.raise TypeError ("unhashable type: '" ++ Py.type_name rarity_id ++ "'").

Section Sanitize.

Variable B : builtins.

(** [for field in fields: if field in item: del item[field]]. *)
Fixpoint remove_fields (fields : list string) (item : pyval) : result pyval :=
  match fields with
  | [] => Ok item
  | field :: fields' =>
      (present <- Py.contains item field ;;
       item <- (if present : bool then delitem_key B item field else Ok item) ;;
       remove_fields fields' item)%result
  end.

(** [for i, wear in enumerate(wears): if isinstance(wear, dict):
    wear['int'] = i], counting from [i]. *)
Fixpoint number_wears (i : nat) (wears : list pyval) : list pyval :=
  match wears with
  | [] => []
  | wear :: wears' =>
      match wear with
      | PDict d => PDict (Py.dict_set d "int" (PInt (Z.of_nat i)))
      | _ => wear
      end :: number_wears (S i) wears'
  end.

(** The second [if] of the loop body.  The entries of the list are updated
    in place: the item keeps the same list under [wears]. *)
Definition add_wear_ints (item : pyval) : result pyval :=
  (present <- Py.contains item "wears" ;;
   if present : bool then
     wears <- Py.getitem_key B item "wears" ;;
     match wears with
     | PList l => Py.setitem_key item "wears" (PList (number_wears 0 l))
     | _ => Ok item
     end
   else Ok item)%result.

(** The third [if] of the loop body; [item['rarity']] is updated in
    place. *)
Definition add_rarity_int (item : pyval) : result pyval :=
  (present <- Py.contains item "rarity" ;;
   if present : bool then
     rarity <- Py.getitem_key B item "rarity" ;;
     match rarity with
     | PDict _ =>
         has_id <- Py.contains rarity "id" ;;
         if has_id : bool then
           rarity_id <- Py.getitem_key B rarity "id" ;;
           n <- rarity_mapping_get rarity_id ;;
           rarity <- Py.setitem_key rarity "int" n ;;
           Py.setitem_key item "rarity" rarity
         else Ok item
     | _ => Ok item
     end
   else Ok item)%result.

(** The body of [for item in data]. *)
Definition sanitize_item (item : pyval) : result pyval :=
  (item <- remove_fields fields_to_remove item ;;
   item <- add_wear_ints item ;;
   add_rarity_int item)%result.

(** [for item in data: ...]: [data] after the loop.  Only the items of a
    list can be changed; the keys of a dictionary and the characters of a
    text are immutable, and the body either leaves them alone or raises. *)
Definition sanitize_data (data : pyval) : result pyval :=
  (items <- Py.iter data ;;
   items <- map_result sanitize_item items ;;
   Ok (match data with
       | PList _ => PList items
       | _ => data
       end))%result.

End Sanitize.

(** What the script prints. *)
Inductive notice : Type :=
| Sanitized                     (* Successfully sanitized ... *)
| SavedTo                       (* Saved sanitized data to ... *)
| InputMissing                  (* Error: Could not find the input file ... *)
| InputInvalid                  (* Error: ... is not a valid JSON file *)
| UnexpectedError (msg : string).

(** A lone surrogate in a text: the bytes ED, A0..BF of its encoding. *)
Fixpoint has_surrogate (s : string) : bool :=
  match s with
  | String a (String b _ as s') =>
      ((nat_of_ascii a =? 237)%nat
       && (160 <=? nat_of_ascii b)%nat && (nat_of_ascii b <=? 191)%nat)
      || has_surrogate s'
  | _ => false
  end.

(** What makes [json.dump(data, f, ensure_ascii=False)] into a UTF-8 file
    raise, if anything: the first thing, in the order of the document, that
    cannot be written.  An object that is not serialisable raises
    [TypeError]; a text with a lone surrogate, key or value, is written as
    it is and cannot be encoded. *)
Fixpoint write_failure (B : builtins) (v : pyval) : option exc :=
  match v with
  | PObj t =>
      Some (mkExc TypeError ("Object of type " ++ t ++ " is not JSON serializable"))
  | PStr s =>
      if has_surrogate s
      then Some (mkExc UnicodeEncodeError (py_encode_error B s))
      else None
  | PList l =>
      (fix go (l : list pyval) : option exc :=
         match l with
         | [] => None
         | x :: l' =>
             match write_failure B x with
             | Some e => Some e
             | None => go l'
             end
         end) l
  | PDict d =>
      (fix go (d : list (string * pyval)) : option exc :=
         match d with
         | [] => None
         | (k, x) :: d' =>
             if has_surrogate k
             then Some (mkExc UnicodeEncodeError (py_encode_error B k))
             else match write_failure B x with
                  | Some e => Some e
                  | None => go d'
                  end
         end) d
  | _ => None
  end.

(** What a reader of the output file of the script finds. *)
Inductive sanitized_file : Type :=
| NotWritten                    (* as it was before the run *)
| Broken                        (* opened with mode [w]: empty, or the
                                   beginning of a document *)
| Saved (data : pyval).         (* the whole serialisation of [data] *)

(** [sanitize_skin_data], given what reading the input file gives: the
    lines printed, in order, and the output file. *)
Definition sanitize_skin_data (B : builtins) (input : result pyval)
  : list notice * sanitized_file :=
  let handler (e : exc) : list notice :=
    match exc_cls e with
    | FileNotFoundError => [InputMissing]
    | JSONDecodeError => [InputInvalid]
    | _ => [UnexpectedError (exc_str e)]
    end in
  match (data <- input ;; sanitize_data B data)%result with
  | Err e => (handler e, NotWritten)
  | Ok data =>
      match write_failure B data with
      | None => ([Sanitized; SavedTo], Saved data)
      | Some e => (handler e, Broken)
      end
  end.

(* ================================================================== *)
(** ** Concrete runtimes and environments

    Simple instances of the parameters, used to run the model. *)

Module Demo.

Definition digit_of (c : ascii) : option Z :=
  let n := nat_of_ascii c in
  if (48 <=? n)%nat && (n <=? 57)%nat then Some (Z.of_nat (n - 48)) else None.

Fixpoint digits (acc : Z) (s : string) : option Z :=
  match s with
  | EmptyString => Some acc
  | String c s' =>
      match digit_of c with
      | Some d => digits (10 * acc + d) s'
      | None => None
      end
  end.

(** [int] on plain decimal numerals. *)
Definition int (s : string) : result Z :=
  match s with
  | EmptyString => Py.raise ValueError "invalid literal for int() with base 10: ''"
  | _ =>
      match digits 0 s with
      | Some z => Ok z
      | None =>
          Py.raise ValueError ("invalid literal for int() with base 10: '" ++ s ++ "'")
      end
  end.

Definition float (v : pyval) : result pyval :=
  match v with
  | PInt z => Ok (PFloat (inject_Z z))
  | PFloat q => Ok (PFloat q)
  | PBool b => Ok (PFloat (if b then 1 else 0))
  | _ => Py.raise TypeError
           ("float() argument must be a string or a real number, not '"
            ++ Py.type_name v ++ "'")
  end.

Definition truediv (a b : Z) : result pyval :=
  match b with
  | Zpos p => Ok (PFloat (a # p))
  | _ => Py.raise OtherException "division by zero"
  end.

Definition repr (v : pyval) : string :=
  match v with
  | PNone => "None"
  | PBool true => "True"
  | PBool false => "False"
  | PInt z => Text.str_of_int z
  | PStr s => "'" ++ s ++ "'"
  | _ => "<" ++ Py.type_name v ++ ">"
  end.

(** [eval] on the literals the examples evaluate; the other texts they
    pass to it (the empty text) are not expressions. *)
Definition eval (s : string) : result pyval :=
  if String.eqb s "[[1,3]]" then Ok (PList [PList [PInt 1; PInt 3]])
  else if String.eqb s "[[2,5]]" then Ok (PList [PList [PInt 2; PInt 5]])
  else if String.eqb s "[[1,...]]" then Ok (PList [PList [PInt 1; PObj "ellipsis"]])
  else Py.raise SyntaxError "invalid syntax".

(** An evaluation that reads its text as a literal and touches nothing. *)
Definition literal (f : string -> result pyval) (s : string) : M scope pyval :=
  lift (f s).

Definition encode_error (s : string) : string :=
  "'utf-8' codec can't encode character: surrogates not allowed".

Definition runtime : builtins :=
  mkBuiltins int float (literal eval) truediv repr encode_error.

(** An [eval] that, as the interpreter does, runs what it is given: two
    texts that use what is in scope, besides the literals. *)
Definition pops_buy_req : string := "[[data.pop('buy_req'),1]]".
Definition exits : string := "[[exit(3),1]]".

Definition run_text (s : string) : M scope pyval :=
  if String.eqb s pops_buy_req then
    fun sc =>
      match Py.lookup (scope_data sc) "buy_req" with
      | Some v =>
          (Ret (PList [PList [v; PInt 1]]),
           mkScope (filter (fun kv => negb (String.eqb (fst kv) "buy_req"))
                           (scope_data sc))
                   (scope_client sc))
      | None => (Raise (mkExc KeyError "'buy_req'"), sc)
      end
  else if String.eqb s exits then fun sc => (Escape 3, sc)
  else literal eval s.

Definition interpreter : builtins :=
  mkBuiltins int float run_text truediv repr encode_error.

Definition overflow_message : string := "maximum recursion depth exceeded".

(** Environments in which requests and sleeps take no time and the
    random delay is the lower bound. *)
Definition quiet (t : nat -> string -> transport_outcome) (input : result pyval)
  : world :=
  mkWorld t (fun _ => 0) (fun _ a _ => a) (fun _ => 0) input
          (fun _ => AtCall overflow_message).

Definition too_many_requests : exc :=
  mkExc (HTTPError (Some 429%Z)) "Too Many Requests".

(** A failure of the transport that is not a rate-limit rejection. *)
Definition connect_error : exc :=
  mkExc (HTTPError None) "All connection attempts failed".

(** The same failure as [httpx] raises it: the exception has no attribute
    [response]. *)
Definition no_connection : exc :=
  mkExc (RequestError "ConnectError") "All connection attempts failed".

(** A rejection as [httpx] delivers it: a response with status 429. *)
Definition rejection : transport_outcome :=
  Respond (mkResponse 429 "Too Many Requests").

Definition no_input : result pyval :=
  Err (mkExc FileNotFoundError
         "[Errno 2] No such file or directory: 'skin_info_sanitized.json'").

Definition page (body : string) : transport_outcome :=
  Respond (mkResponse 200 body).

(** Every request is rejected. *)
Definition rejecting : world :=
  quiet (fun _ _ => Fail too_many_requests) no_input.

(** The first two requests are rejected, the later ones answered. *)
Definition rejecting_twice : world :=
  quiet (fun k _ => if (k <? 2)%nat then Fail too_many_requests else page "ok")
        no_input.

(** The first request fails to connect after a tenth of a time unit, the
    later ones are answered. *)
Definition failing_once : world :=
  mkWorld (fun k _ => if (k <? 1)%nat then Fail connect_error else page "ok")
          (fun _ => 1 # 10) (fun _ a _ => a) (fun _ => 0) no_input
          (fun _ => AtCall overflow_message).

(** Every request is rejected, and the stack runs out in the logger. *)
Definition rejecting_deep : world :=
  mkWorld (fun _ _ => Fail too_many_requests)
          (fun _ => 0) (fun _ a _ => a) (fun _ => 0) no_input
          (fun _ => AtWarning overflow_message).

(** Every request is turned down the way [httpx] reports it. *)
Definition turning_down : world := quiet (fun _ _ => rejection) no_input.

(** The second request fails to connect; each request takes a tenth of a
    time unit. *)
Definition failing_second : world :=
  mkWorld (fun k _ => if (k =? 1)%nat then Fail no_connection else page "ok")
          (fun _ => 1 # 10) (fun _ a _ => a) (fun _ => 0) no_input
          (fun _ => AtCall overflow_message).

(** Every request is answered. *)
Definition answering : world := quiet (fun _ _ => page "ok") no_input.

(** A fresh client on a machine whose clock shows [t0]. *)
Definition fresh_machine (t0 : Q) : machine :=
  new_client (mkMachine 0 0 0 t0 0 0 0 []) (3 # 2) 3.

(** The three pages of one item, as the marketplace serves them. *)
Definition quoted (s : string) : string := Text.dq ++ s ++ Text.dq.

Definition listing_page : string :=
  "<script>Market_LoadOrderSpread( 176042493 );</script>".

Definition histogram_page (buy_graph sell_graph : string) : string :=
  "{" ++ quoted "success" ++ ":1,"
  ++ quoted "highest_buy_order" ++ ":" ++ quoted "150" ++ ","
  ++ quoted "lowest_sell_order" ++ ":" ++ quoted "200" ++ ","
  ++ quoted "buy_order_graph" ++ ":" ++ buy_graph ++ ","
  ++ quoted "sell_order_graph" ++ ":" ++ sell_graph ++ ","
  ++ quoted "graph_max_y" ++ ":9}".

Definition overview_page : string :=
  "{" ++ quoted "success" ++ ":true,"
  ++ quoted "volume" ++ ":" ++ quoted "7" ++ "}".

(** A marketplace that answers every item with these pages, the two
    graphs being [buy_graph] and [sell_graph]; the input file is [input]. *)
Definition market (buy_graph sell_graph : string) (input : result pyval) : world :=
  quiet (fun k _ =>
           match (k mod 3)%nat with
           | 0%nat => page listing_page
           | 1%nat => page (histogram_page buy_graph sell_graph)
           | _ => page overview_page
           end)
        input.

Definition redline : pyval := PDict [("name", PStr "AK-47 | Redline")].

Definition catalogue (items : list pyval) : result pyval := Ok (PList items).

Definition howl : pyval :=
  PDict [("name", PStr "M4A4 | Howl"); ("wear", PInt 2)].

(** The state in which the loop starts on [items]. *)
Definition loaded (items : list pyval) : batch :=
  mkBatch (fresh_machine 1000) items [] (Document []) [Truncated; Untouched].

End Demo.

(* ================================================================== *)
(** ** Vocabulary of the statements *)

(** Escaping spaces, character by character. *)
Fixpoint enc (s : string) : string :=
  match s with
  | EmptyString => EmptyString
  | String c s' =>
      if Ascii.eqb c " " then "%20" ++ enc s' else String c (enc s')
  end.

(** No per-cent sign in the text. *)
Fixpoint plain (s : string) : bool :=
  match s with
  | EmptyString => true
  | String c s' => negb (Ascii.eqb c "%") && plain s'
  end.

(** Reads back the longest beginning made of ordinary characters and
    escaped spaces, and returns it unescaped with what follows. *)
Fixpoint scan (s : string) : string * string :=
  match s with
  | EmptyString => (EmptyString, EmptyString)
  | String c s' =>
      if Ascii.eqb c "%" then
        match s' with
        | String "2" (String "0" s'') =>
            let (a, r) := scan s'' in (String " " a, r)
        | _ => (EmptyString, s)
        end
      else let (a, r) := scan s' in (String c a, r)
  end.

Definition valid_wear (t : Z) : Prop := (0 <= t <= 4)%Z.
Definition valid_flag (f : Z) : Prop := f = 0%Z \/ f = 1%Z.

(** The weapon name does not itself begin with the StatTrak marker. *)
Definition unmarked (weapon : string) : bool := negb (prefix "StatTrak™ " weapon).

Definition marker (f : Z) : string := if Z.eqb f 1 then "StatTrak™ " else "".

Definition wear_tail (t : Z) : string :=
  match t with
  | 0%Z => "%28Factory%20New%29"
  | 1%Z => "%28Minimal%20Wear%29"
  | 2%Z => "%28Field-Tested%29"
  | 3%Z => "%28Well-Worn%29"
  | _ => "%28Battle-Scarred%29"
  end.

Local Open Scope list_scope.

(** The shape of what one call of [get] adds to the history, most recent
    event first: after each rejected attempt a warning and a sleep of 5,
    every attempt to the same address, each possibly preceded by a pacing
    sleep. *)
Inductive pacing : list event -> Prop :=
| pacing_none : pacing []
| pacing_sleep (d : Q) : pacing [Sleep d].

Inductive attempts (url : string) : nat -> list event -> Prop :=
| attempts_last (p : list event) (t : Q) :
    pacing p -> attempts url 0 (Dispatch t url :: p)
| attempts_retry (k : nat) (p seg : list event) (t : Q) :
    pacing p -> attempts url k seg ->
    attempts url (S k)
      (seg ++ Sleep 5 :: Log RateLimitHit :: Dispatch t url :: p).

Fixpoint rate_limit_hits (tr : list event) : nat :=
  match tr with
  | [] => 0
  | Log RateLimitHit :: tr' => S (rate_limit_hits tr')
  | _ :: tr' => rate_limit_hits tr'
  end.

(** [rejected]: the requests numbered [d .. d+k-1] to [url] are rejected
    with status 429.  [answered]: the request numbered [d] is not. *)
Definition rejected (w : world) (url : string) (d k : nat) : Prop :=
  forall i, (i < k)%nat ->
    exists e, transport w (d + i) url = Fail e /\ rate_limited e = true.

Definition answered (w : world) (url : string) (d : nat) : Prop :=
  forall e, transport w d url = Fail e -> rate_limited e = false.

(** What the caller of [get] receives from the attempt that ends the call:
    the response, the exception as it is, or the [AttributeError] of the
    handler when the exception has no attribute [response]. *)
Definition surfaced (o : transport_outcome) : outcome response :=
  match o with
  | Respond r => Ret r
  | Fail e =>
      match no_response e with
      | Some e' => Raise e'
      | None => Raise e
      end
  end.

(** The marketplace turns a request down for rate limiting: a response with
    status 429, or an exception that carries one. *)
Definition turned_down (o : transport_outcome) : Prop :=
  match o with
  | Respond r => status_code r = 429%Z
  | Fail e => rate_limited e = true
  end.

(** C4 as stated: a call whose request is turned down for rate limiting
    sleeps 5 and sends the request again, unless, the retries being
    exhausted, it hands a failure to its caller. *)
Definition rejection_is_retried : Prop :=
  forall (w : world) (fuel : nat) (url : string) (m m' : machine)
         (o : outcome response),
    get w fuel url m = (o, m') ->
    turned_down (transport w (dispatched m) url) ->
    (exists seg,
        trace m' = seg ++ trace m
        /\ In (Sleep 5) seg
        /\ (dispatched m + 2 <= dispatched m')%nat)
    \/ exists e, o = Raise e.

(** An environment in which time does not run backwards and the random
    delay lies between its bounds. *)
Record calm (w : world) : Prop := mkCalm {
  latency_nonneg : forall k, 0 <= latency w k;
  oversleep_nonneg : forall k, 0 <= oversleep w k;
  uniform_bounds : forall k a b, a <= b -> a <= uniform w k a b <= b
}.

(** The dictionary [item_data] holds when it comes to the graphs. *)
Definition priced (b s : pyval) : dict := [("buy_req", b); ("sell_req", s)].

(** C3 as stated: when only the sell array fails to parse, the buy side
    keeps its parsed orders. *)
Definition depth_failure_is_one_sided : Prop :=
  forall (B : builtins) (w : world) (fuel : nat) (hashname : string)
         (m m1 m2 m' : machine) (id : Z) (resp : response)
         (b s buy_graph buy_orders : pyval) (e : exc) (sc1 sc2 : scope)
         (data : dict),
    get_nameid B w fuel hashname m = (Ret id, m1) ->
    get w (S fuel) (histogram_url (Text.str_of_int id)) m1 = (Ret resp, m2) ->
    price_field B highest_buy_label (text resp) = Ok b ->
    price_field B lowest_sell_label (text resp) = Ok s ->
    py_eval B (graph_text buy_graph_label (text resp)) (mkScope (priced b s) m2)
    = (Ret buy_graph, sc1) ->
    orders_of B buy_graph = Ok buy_orders ->
    py_eval B (graph_text sell_graph_label (text resp)) sc1 = (Raise e, sc2) ->
    item_data B w fuel hashname m = (Ret data, m') ->
    Py.lookup data "buy_orders" = Some buy_orders
    /\ Py.lookup data "sell_orders" = Some (PList []).

(** [c] takes every state to one that [R] relates to it, however it
    ends. *)
Definition respects {S A} (R : S -> S -> Prop) (c : M S A) : Prop :=
  forall s, R s (snd (c s)).

(** A relation between dictionaries, as one between two states of the
    scope of [item_data]. *)
Definition on_data (Rd : dict -> dict -> Prop) (sc sc' : scope) : Prop :=
  Rd (scope_data sc) (scope_data sc').

(** The two texts of [order_data] that are evaluated. *)
Definition graph_texts (order_data expr : string) : Prop :=
  expr = graph_text buy_graph_label order_data
  \/ expr = graph_text sell_graph_label order_data.

(** The texts [item_data] gives to [eval] when the marketplace is [w]: the
    two graph texts of a response it serves. *)
Definition served (w : world) (expr : string) : Prop :=
  exists k url r,
    transport w k url = Respond r /\ graph_texts (text r) expr.

(** Evaluating the texts the marketplace serves leaves [data] as it is. *)
Definition eval_spares_data (B : builtins) (w : world) : Prop :=
  forall expr sc, served w expr ->
    scope_data (snd (py_eval B expr sc)) = scope_data sc.

(** Evaluating the texts the marketplace serves leaves the client alone. *)
Definition eval_spares_client (B : builtins) (w : world) : Prop :=
  forall expr sc, served w expr ->
    scope_client (snd (py_eval B expr sc)) = scope_client sc.

(** Evaluating the texts the marketplace serves gives a value or raises an
    exception of class [Exception]. *)
Definition eval_settles (B : builtins) (w : world) : Prop :=
  forall expr sc, served w expr ->
    fst (py_eval B expr sc) <> Diverge
    /\ forall status, fst (py_eval B expr sc) <> Escape status.

(** C10 as stated: every dictionary [item_data] returns has the six
    keys. *)
Definition item_data_has_six_keys : Prop :=
  forall (B : builtins) (w : world) (fuel : nat) (hashname : string)
         (m m' : machine) (data : dict) (key : string),
    item_data B w fuel hashname m = (Ret data, m') ->
    In key ["buy_req"; "sell_req"; "buy_orders"; "sell_orders"; "volume";
            "nameid"] ->
    Py.lookup data key <> None.

(** What [json.dump] accepts. *)
Definition serializable (v : pyval) : Prop := Py.unserializable v = None.

(** Every item of the catalogue can be written out. *)
Definition clean (b : batch) : Prop :=
  forall x, In x (skins b) -> serializable x.

(** The output file is the complete document of the records accumulated
    so far. *)
Definition synced (b : batch) : Prop := output_file b = Document (records b).

(** The hashname the loop builds for an item, or the exception raised on
    the way. *)
Definition hashname_of (B : builtins) (skin : pyval) : result string :=
  (name <- Py.getitem_key B skin "name" ;;
   skin_names <- Py.split name " | " ;;
   weapon <- Py.list_index skin_names 0 ;;
   finish <- Py.list_index skin_names 1 ;;
   wear <- Py.get skin "wear" (PInt 0) ;;
   stat <- Py.get skin "stat" (PInt 0) ;;
   get_hashname B weapon finish wear stat)%result.

(** The item object [r] with its market data set to [md], appended to the
    accumulator. *)
Definition recorded (r : nat) (d : dict) (md : pyval) (b : batch) : batch :=
  set_processed (processed_skins b ++ [r])
    (set_skins (update_nth r (PDict (Py.dict_set d "market_data" md)) (skins b)) b).

Definition error_entry (e : exc) : pyval := PDict [("error", PStr (exc_str e))].

Definition name_or_unknown (d : dict) : pyval :=
  match Py.lookup d "name" with
  | Some v => v
  | None => PStr "Unknown"
  end.

Definition store_and_dump (r : nat) (md : dict) : M batch unit :=
  (skin_setitem r "market_data" (PDict md) ;;;
   append_processed r ;;;
   dump_processed)%run.

(** The ways the processing of one item object [r], a dictionary [d], can
    end, with the state it leaves. *)
Inductive item_step (i total r : nat) (d : dict) (b : batch)
  : outcome unit -> batch -> Prop :=
| step_skipped :
    Py.lookup d "name" = None ->
    item_step i total r d b (Ret tt)
      (set_mach b (emit (Log (SkippingNoName i total)) (mach b)))
| step_recorded (m' : machine) (md : pyval) :
    Py.lookup d "name" <> None ->
    serializable md ->
    let b1 := recorded r d md (set_mach b m') in
    item_step i total r d b (Ret tt)
      (set_file (Document (records b1)) (set_file Truncated b1))
| step_recorded_twice (m' : machine) (md : pyval) (e : exc) :
    Py.lookup d "name" <> None ->
    ~ serializable (PList (records (recorded r d md (set_mach b m')))) ->
    let b1 := recorded r d md (set_mach b m') in
    let b2 := set_file Partial (set_file Truncated b1) in
    let b3 := set_mach b2 (emit (Log (ErrorProcessing i total (name_or_unknown d) e))
                                (mach b2)) in
    let b4 := recorded r (Py.dict_set d "market_data" md) (error_entry e) b3 in
    item_step i total r d b (Ret tt)
      (set_file (Document (records b4)) (set_file Truncated b4))
| step_escaped (m' : machine) (status : Z) :
    Py.lookup d "name" <> None ->
    item_step i total r d b (Escape status) (set_mach b m')
| step_diverged (m' : machine) :
    Py.lookup d "name" <> None ->
    item_step i total r d b Diverge (set_mach b m').

(** Every item of the catalogue is a dictionary. *)
Definition all_dicts (b : batch) : Prop :=
  forall x, In x (skins b) -> exists d, x = PDict d.

(** The field [key] of an item. *)
Definition field (item : pyval) (key : string) : option pyval :=
  match item with
  | PDict d => Py.lookup d key
  | _ => None
  end.

(** Every recorded item object carries a market_data entry. *)
Definition noted (b : batch) : Prop :=
  forall r, In r (processed_skins b) ->
    exists md, field (deref b r) "market_data" = Some md.

(** The items of [l'] are those of [l] up to their market data. *)
Definition same_fields (l l' : list pyval) : Prop :=
  List.length l' = List.length l
  /\ forall r key, key <> "market_data" ->
       field (nth r l' PNone) key = field (nth r l PNone) key.

(** Between [b] and [b'] either nothing was recorded and the file was left
    alone, or records were appended and the file was last rewritten from
    the truncated state. *)
Definition progress (b b' : batch) : Prop :=
  (processed_skins b' = processed_skins b
   /\ output_file b' = output_file b /\ file_history b' = file_history b)
  \/ (exists extra h,
         extra <> [] /\ processed_skins b' = processed_skins b ++ extra
         /\ file_history b' = Truncated :: h).

(** C2 as stated: the output file is never observed in a state that does
    not parse. *)
Definition checkpoint_never_partial : Prop :=
  forall (B : builtins) (w : world) (fuel : nat) (t0 : Q)
         (o : outcome unit) (b' : batch),
    process_all_skins B w fuel (initial t0) = (o, b') ->
    forall f, In f (output_file b' :: file_history b') ->
      f = Untouched \/ exists l, f = Document l.

Definition index_error : exc := mkExc IndexError "list index out of range".

(** An item counts as skipped when the step returns having recorded
    nothing and left the catalogue and the file alone. *)
Definition skipped (b : batch) (run : outcome unit * batch) : Prop :=
  fst run = Ret tt
  /\ processed_skins (snd run) = processed_skins b
  /\ skins (snd run) = skins b
  /\ output_file (snd run) = output_file b.

(** The entry the outer handlers log for an exception. *)
Definition failure_entry (e : exc) : log_entry :=
  match exc_cls e with
  | FileNotFoundError => InputNotFound
  | JSONDecodeError => InputNotJSON
  | _ => Unexpected e
  end.

(** The state in which the loop starts once [items] are loaded. *)
Definition loop_start (items : list pyval) (b : batch) : batch :=
  let b := set_file (Document []) (set_file Truncated (set_skins items b)) in
  set_processed [] (set_mach b (new_client (mach b) (3 # 2) 3)).

(** C6 as stated: the exit status is a failure exactly when the input file
    is missing or unparsable. *)
Definition exit_status_reflects_input : Prop :=
  forall (B : builtins) (w : world) (fuel : nat) (b : batch),
    (exists e, input_file w = Err e) <-> main B w fuel b = Some 1%Z.

(** C7 as stated: the loaded items are the same after the run. *)
Definition catalogue_untouched : Prop :=
  forall (B : builtins) (w : world) (fuel : nat) (t0 : Q)
         (items : list pyval) (o : outcome unit) (b' : batch),
    input_file w = Ok (PList items) ->
    process_all_skins B w fuel (initial t0) = (o, b') ->
    skins b' = items.

(** A runtime and a marketplace with which only values that [json.dump]
    can write get into the market data: [float] and the division produce
    such values, and evaluating a text the marketplace serves gives one and
    leaves [data] as it is. *)
Record json_runtime (B : builtins) (w : world) : Prop := mkJsonRuntime {
  eval_serializable :
    forall expr sc v sc', served w expr ->
      py_eval B expr sc = (Ret v, sc') -> serializable v;
  eval_keeps_data : eval_spares_data B w;
  float_serializable : forall x v, py_float B x = Ok v -> serializable v;
  truediv_serializable : forall a b v, py_truediv B a b = Ok v -> serializable v
}.

Definition has_name (item : pyval) : bool :=
  match field item "name" with
  | Some _ => true
  | None => false
  end.

(* ================================================================== *)
(** ** Vocabulary of the further properties *)

(** No space in the text. *)
Fixpoint no_space (s : string) : bool :=
  match s with
  | EmptyString => true
  | String c s' => negb (Ascii.eqb c " ") && no_space s'
  end.

(** The value of a hexadecimal digit. *)
Definition hex_digit (c : ascii) : option nat :=
  let n := nat_of_ascii c in
  if (48 <=? n)%nat && (n <=? 57)%nat then Some (n - 48)%nat
  else if (65 <=? n)%nat && (n <=? 70)%nat then Some (n - 55)%nat
  else if (97 <=? n)%nat && (n <=? 102)%nat then Some (n - 87)%nat
  else None.

(** Per-cent decoding: every [%XY] with two hexadecimal digits stands for
    the byte [XY]. *)
Fixpoint unquote (s : string) : string :=
  match s with
  | EmptyString => EmptyString
  | String c s1 =>
      if Ascii.eqb c "%" then
        match s1 with
        | String x (String y s2) =>
            match hex_digit x, hex_digit y with
            | Some a, Some b => String (ascii_of_nat (16 * a + b)) (unquote s2)
            | _, _ => String c (unquote s1)
            end
        | _ => String c (unquote s1)
        end
      else String c (unquote s1)
  end.

(** The wear names as the marketplace shows them. *)
Definition wear_name (t : Z) : string :=
  match t with
  | 0%Z => "Factory New"
  | 1%Z => "Minimal Wear"
  | 2%Z => "Field-Tested"
  | 3%Z => "Well-Worn"
  | _ => "Battle-Scarred"
  end.

(** The name under which the marketplace lists an item. *)
Definition display_name (weapon skin : string) (t f : Z) : string :=
  (marker f ++ weapon ++ " | " ++ skin ++ " (" ++ wear_name t ++ ")")%string.

(** Requests sent that were not rejected for rate limiting so far. *)
Definition net (m : machine) : Z :=
  Z.of_nat (dispatched m) - Z.of_nat (rate_limit_hits (trace m)).

(** A measure of the client, taken inside [item_data]. *)
Definition in_client (mu : machine -> Z) (sc : scope) : Z := mu (scope_client sc).

(** The computation always comes back, with a value or an exception of
    class [Exception]. *)
Definition settles {S A} (c : M S A) : Prop :=
  forall s, fst (c s) <> Diverge /\ forall status, fst (c s) <> Escape status.

(** The computation raises no measure [mu] of the state by more than [n],
    and never lowers it. *)
Definition within {S A} (mu : S -> Z) (n : Z) (c : M S A) : Prop :=
  forall s, (mu s <= mu (snd (c s)) <= mu s + n)%Z.

(** The same count on the state of a run. *)
Definition run_net (b : batch) : Z := net (mach b).

(** How many times the client was closed. *)
Fixpoint closings (tr : list event) : nat :=
  match tr with
  | [] => 0
  | Closed :: tr' => S (closings tr')
  | _ :: tr' => closings tr'
  end.

(** The events since the client was last closed, most recent first. *)
Fixpoint since_close (tr : list event) : list event :=
  match tr with
  | [] => []
  | Closed :: _ => []
  | ev :: tr' => ev :: since_close tr'
  end.

Definition closed_count (m : machine) : Z := Z.of_nat (closings (trace m)).

Definition run_closed (b : batch) : Z := closed_count (mach b).

(** The positions of the items of a catalogue that have a name. *)
Definition named_items (items : list pyval) : list nat :=
  filter (fun r => has_name (nth r items PNone)) (seq 0 (List.length items)).

(** [json.dump(v, f, ensure_ascii=False)] into a UTF-8 file succeeds: [v]
    is a JSON value no text of which holds a lone surrogate. *)
Definition writable (B : builtins) (v : pyval) : Prop := write_failure B v = None.

(** The keys the sanitiser may touch. *)
Definition touched : list string := fields_to_remove ++ ["wears"; "rarity"].

(** The entry [wear] of a list of wears once it has been given the number
    [i]. *)
Definition numbered (i : nat) (wear : pyval) : pyval :=
  match wear with
  | PDict d => PDict (Py.dict_set d "int" (PInt (Z.of_nat i)))
  | _ => wear
  end.

(** The value stored for a rarity id that can be looked up. *)
Definition rarity_int (rarity_id : pyval) : pyval :=
  match rarity_id with
  | PStr s =>
      match assoc_str rarity_mapping s with
      | Some z => PInt z
      | None => PNone
      end
  | _ => PNone
  end.

(** An item as the catalogue gives it, and the same item sanitised. *)
Definition raw_redline : pyval :=
  PDict [("name", PStr "AK-47 | Redline");
         ("description", PStr "A classic");
         ("wears", PList [PDict [("name", PStr "Factory New")];
                          PStr "Minimal Wear"]);
         ("team", PDict [("id", PStr "both")]);
         ("rarity", PDict [("id", PStr "rarity_legendary_weapon");
                           ("name", PStr "Classified")])].

Definition sanitized_redline : pyval :=
  PDict [("name", PStr "AK-47 | Redline");
         ("wears", PList [PDict [("name", PStr "Factory New"); ("int", PInt 0)];
                          PStr "Minimal Wear"]);
         ("rarity", PDict [("id", PStr "rarity_legendary_weapon");
                           ("name", PStr "Classified");
                           ("int", PInt 1)])].

(** [s] without its first [n] characters. *)
Fixpoint drop (n : nat) (s : string) : string :=
  match n, s with
  | S n', String _ s' => drop n' s'
  | _, _ => s
  end.

(** The text before the first occurrence of [sep] in [s]; all of [s] when
    there is none. *)
Fixpoint before (sep s : string) : string :=
  match s with
  | EmptyString => EmptyString
  | String c s' => if prefix sep s then EmptyString else String c (before sep s')
  end.

(** The text after the first occurrence of [sep] in [s]. *)
Fixpoint after (sep s : string) : string :=
  match s with
  | EmptyString => EmptyString
  | String c s' => if prefix sep s then drop (String.length sep) s else after sep s'
  end.

(** The text between the first [label] and the first [stop] after it. *)
Definition between (label stop s : string) : string :=
  before stop (before label (after label s)).

Local Open Scope string_scope.

(* ================================================================== *)
(** * Properties *)

(** ** Text *)

Example replace_ex : Text.replace " " "%20" "a b  c" = "a%20b%20%20c".
Proof. reflexivity. Qed.

Example split_ex : Text.split " | " "AK-47 | Red | line" = ["AK-47"; "Red"; "line"].
Proof. reflexivity. Qed.

Example split_ex2 : Text.split " | " "AK-47" = ["AK-47"].
Proof. reflexivity. Qed.

Example find_ex : Text.find "]]," "ab]],cd]]," 3 = 7%Z.
Proof. reflexivity. Qed.

Example find_ex2 : Text.find "x" "abc" 0 = (-1)%Z.
Proof. reflexivity. Qed.

Example slice_ex : Text.slice "abcdef" 2 4 = "cd".
Proof. reflexivity. Qed.

Example str_ex : Text.str_of_int 1234 = "1234" /\ Text.str_of_int (-7) = "-7".
Proof. split; reflexivity. Qed.

Example get_nameid_ex :
  fst (get_nameid Demo.runtime (Demo.market "[[1,3]]" "[[2,5]]" Demo.no_input)
         1 "AK-47" (Demo.fresh_machine 1000))
  = Ret 176042493%Z.
Proof. vm_compute. reflexivity. Qed.

Example graph_text_ex :
  graph_text buy_graph_label (Demo.histogram_page "[[1,3]]" "[[2,5")
  = "[[1,3]]"
  /\ graph_text sell_graph_label (Demo.histogram_page "[[1,3]]" "[[2,5") = "".
Proof. vm_compute. split; reflexivity. Qed.

Example get_case_data_ex :
  fst (get_case_data Demo.runtime
         (Demo.quiet (fun _ _ => Demo.page "no marker here") Demo.no_input)
         1 "Chroma Case" (Demo.fresh_machine 1000))
  = Ret [("error", PStr "Item data not available: list index out of range")].
Proof. vm_compute. reflexivity. Qed.

Lemma append_assoc (a b c : string) : (a ++ b) ++ c = a ++ (b ++ c).
Proof. induction a as [|x a IH]; simpl; [reflexivity | now rewrite IH]. Qed.

Lemma append_empty_r (a : string) : a ++ "" = a.
Proof. induction a as [|x a IH]; simpl; [reflexivity | now rewrite IH]. Qed.

Lemma append_last_inj (a b : string) (c : ascii) :
  a ++ String c "" = b ++ String c "" -> a = b.
Proof.
  revert b; induction a as [|x a IH]; intros [|y b] H; simpl in H.
  - reflexivity.
  - destruct b; simpl in H; discriminate.
  - destruct a; simpl in H; discriminate.
  - injection H as -> H. now rewrite (IH b H).
Qed.

Lemma replace_space (s : string) : Text.replace " " "%20" s = enc s.
Proof.
  unfold Text.replace.
  induction s as [|c s IH]; [reflexivity|].
  cbn [Text.replace_from enc prefix String.length Nat.sub].
  destruct (Ascii.eqb_spec c " ") as [->|Hc].
  - destruct (ascii_dec " " " ") as [_|n]; [|now elim n].
    assert (Hp : prefix "" s = true) by (destruct s; reflexivity).
    now rewrite Hp, IH.
  - destruct (ascii_dec " " c) as [e|_]; [now elim Hc|].
    now rewrite IH.
Qed.

Lemma enc_app (a b : string) : enc (a ++ b) = enc a ++ enc b.
Proof.
  induction a as [|c a IH]; [reflexivity|].
  simpl. destruct (Ascii.eqb c " "); rewrite IH; reflexivity.
Qed.

Lemma plain_app (a b : string) : plain (a ++ b) = plain a && plain b.
Proof.
  induction a as [|c a IH]; [reflexivity|].
  simpl. rewrite IH. now rewrite andb_assoc.
Qed.

Lemma scan_enc (x rest : string) :
  plain x = true -> scan rest = ("", rest) -> scan (enc x ++ rest) = (x, rest).
Proof.
  intros Hx Hrest. induction x as [|c x IH]; [exact Hrest|].
  simpl in Hx. apply andb_prop in Hx as [Hc Hx].
  specialize (IH Hx). simpl.
  destruct (Ascii.eqb_spec c " ") as [->|Hsp].
  - simpl. now rewrite IH.
  - simpl. apply negb_true_iff in Hc. rewrite Hc. now rewrite IH.
Qed.

(** ** [get_hashname] *)

Lemma valid_wear_cases (t : Z) :
  valid_wear t -> t = 0%Z \/ t = 1%Z \/ t = 2%Z \/ t = 3%Z \/ t = 4%Z.
Proof. unfold valid_wear; lia. Qed.

Ltac wear_cases H :=
  apply valid_wear_cases in H;
  destruct H as [->|[->|[->|[->| ->]]]].

(** The hashname of a valid tuple, written as two escaped texts and two
    fixed pieces that start with a per-cent sign. *)
Lemma get_hashname_shape (B : builtins) (weapon skin : string) (t f : Z) :
  valid_wear t -> valid_flag f ->
  get_hashname B weapon skin (PInt t) (PInt f)
  = Ok (enc (marker f ++ weapon ++ " ")
        ++ "%7C%20" ++ enc (skin ++ " ") ++ wear_tail t).
Proof.
  intros Ht Hf. unfold get_hashname. rewrite !replace_space.
  wear_cases Ht; destruct Hf as [-> | ->];
    cbn [float_conditions_getitem Py.hashable Py.as_int_key assoc_Z
         float_conditions Z.eqb Pos.eqb rbind eq_one marker wear_tail
         stattrak_prefix];
    rewrite !enc_app, ?append_assoc; reflexivity.
Qed.

Lemma wear_tail_stops (t : Z) :
  valid_wear t -> scan (wear_tail t) = ("", wear_tail t).
Proof. intros Ht; wear_cases Ht; reflexivity. Qed.

Lemma wear_tail_inj (t1 t2 : Z) :
  valid_wear t1 -> valid_wear t2 -> wear_tail t1 = wear_tail t2 -> t1 = t2.
Proof.
  intros H1 H2; wear_cases H1; wear_cases H2; simpl; intros E;
    first [reflexivity | discriminate E].
Qed.

Lemma marker_plain (f : Z) : plain (marker f) = true.
Proof. unfold marker; destruct (Z.eqb f 1); reflexivity. Qed.

Lemma prefix_app (a b : string) : prefix a (a ++ b) = true.
Proof.
  induction a as [|c a IH]; simpl.
  - destruct b; reflexivity.
  - destruct (ascii_dec c c) as [_|n]; [exact IH | now elim n].
Qed.

Lemma marker_inj (f1 f2 : Z) (w1 w2 : string) :
  valid_flag f1 -> valid_flag f2 ->
  unmarked w1 = true -> unmarked w2 = true ->
  marker f1 ++ w1 = marker f2 ++ w2 -> f1 = f2 /\ w1 = w2.
Proof.
  unfold unmarked.
  intros [-> | ->] [-> | ->] U1 U2 E; cbn [marker Z.eqb Pos.eqb] in E.
  - now split.
  - change ("" ++ w1) with w1 in E. subst w1.
    rewrite prefix_app in U1. discriminate U1.
  - change ("" ++ w2) with w2 in E. subst w2.
    rewrite prefix_app in U2. discriminate U2.
  - split; [reflexivity|]. simpl in E. now injection E.
Qed.

(** Reading a hashname back. *)
Lemma get_hashname_scan (B : builtins) (weapon skin : string) (t f : Z) (h : string) :
  valid_wear t -> valid_flag f ->
  plain weapon = true -> plain skin = true ->
  get_hashname B weapon skin (PInt t) (PInt f) = Ok h ->
  exists rest,
    scan h = (marker f ++ weapon ++ " ", "%7C%20" ++ rest)
    /\ scan rest = (skin ++ " ", wear_tail t).
Proof.
  intros Ht Hf Pw Ps E.
  rewrite (get_hashname_shape B weapon skin t f Ht Hf) in E.
  injection E as <-.
  exists (enc (skin ++ " ") ++ wear_tail t). split.
  - apply scan_enc; [|reflexivity].
    rewrite !plain_app, marker_plain, Pw. reflexivity.
  - apply scan_enc; [|now apply wear_tail_stops].
    rewrite plain_app, Ps. reflexivity.
Qed.

(** C5 (amended).  Over weapon and skin names that contain no per-cent
    sign, with weapon names that do not begin with the StatTrak marker, a
    wear tier in 0..4 and a flag in 0..1, [get_hashname] returns a hashname
    for every tuple and two tuples that differ in some field get different
    hashnames. *)
Theorem get_hashname_injective (B : builtins)
    (w1 s1 : string) (t1 f1 : Z) (w2 s2 : string) (t2 f2 : Z) :
  valid_wear t1 -> valid_wear t2 -> valid_flag f1 -> valid_flag f2 ->
  plain w1 = true -> plain s1 = true -> plain w2 = true -> plain s2 = true ->
  unmarked w1 = true -> unmarked w2 = true ->
  (w1, s1, t1, f1) <> (w2, s2, t2, f2) ->
  exists h1 h2,
    get_hashname B w1 s1 (PInt t1) (PInt f1) = Ok h1
    /\ get_hashname B w2 s2 (PInt t2) (PInt f2) = Ok h2
    /\ h1 <> h2.
Proof.
  intros Ht1 Ht2 Hf1 Hf2 Pw1 Ps1 Pw2 Ps2 U1 U2 Hne.
  pose proof (get_hashname_shape B w1 s1 t1 f1 Ht1 Hf1) as E1.
  pose proof (get_hashname_shape B w2 s2 t2 f2 Ht2 Hf2) as E2.
  eexists; eexists; split; [exact E1 | split; [exact E2 |]].
  intros Heq. rewrite Heq in E1.
  destruct (get_hashname_scan B w1 s1 t1 f1 _ Ht1 Hf1 Pw1 Ps1 E1)
    as (r1 & Sa1 & Sb1).
  destruct (get_hashname_scan B w2 s2 t2 f2 _ Ht2 Hf2 Pw2 Ps2 E2)
    as (r2 & Sa2 & Sb2).
  rewrite Sa1 in Sa2. injection Sa2 as Hw Hr.
  subst r2.
  rewrite Sb1 in Sb2. injection Sb2 as Hs Ht.
  apply append_last_inj in Hs.
  apply (wear_tail_inj _ _ Ht1 Ht2) in Ht.
  rewrite <- !append_assoc in Hw. apply append_last_inj in Hw.
  destruct (marker_inj _ _ _ _ Hf1 Hf2 U1 U2 Hw) as [Hf Hw'].
  apply Hne. congruence.
Qed.

Lemma get_hashname_injective_example :
  (valid_wear 0 /\ valid_wear 4 /\ valid_flag 0 /\ valid_flag 1
   /\ plain "AK-47" = true /\ plain "Redline" = true
   /\ unmarked "AK-47" = true
   /\ ("AK-47", "Redline", 0%Z, 0%Z) <> ("AK-47", "Redline", 4%Z, 1%Z))
  /\ exists h1 h2,
       get_hashname Demo.runtime "AK-47" "Redline" (PInt 0) (PInt 0) = Ok h1
       /\ get_hashname Demo.runtime "AK-47" "Redline" (PInt 4) (PInt 1) = Ok h2
       /\ h1 <> h2.
Proof.
  assert (H0 : valid_wear 0) by (unfold valid_wear; lia).
  assert (H4 : valid_wear 4) by (unfold valid_wear; lia).
  assert (F0 : valid_flag 0) by (now left).
  assert (F1 : valid_flag 1) by (now right).
  assert (Hne : ("AK-47", "Redline", 0%Z, 0%Z) <> ("AK-47", "Redline", 4%Z, 1%Z))
    by discriminate.
  split.
  - exact (conj H0 (conj H4 (conj F0 (conj F1
             (conj eq_refl (conj eq_refl (conj eq_refl Hne))))))).
  - apply (get_hashname_injective Demo.runtime
             "AK-47" "Redline" 0 0 "AK-47" "Redline" 4 1);
      try assumption; reflexivity.
Defined.

(** C5 as stated fails: a space and its escape give the same hashname. *)
Lemma get_hashname_collision :
  valid_wear 0 /\ valid_flag 0
  /\ ("A B", "S", 0%Z, 0%Z) <> ("A%20B", "S", 0%Z, 0%Z)
  /\ get_hashname Demo.runtime "A B" "S" (PInt 0) (PInt 0)
     = get_hashname Demo.runtime "A%20B" "S" (PInt 0) (PInt 0).
Proof.
  repeat split; try (unfold valid_wear; lia); try (now left); try discriminate.
Qed.

(** The marker written into a weapon name collides with the flag. *)
Example get_hashname_marker_collision :
  get_hashname Demo.runtime "StatTrak™ AK-47" "Redline" (PInt 0) (PInt 0)
  = get_hashname Demo.runtime "AK-47" "Redline" (PInt 0) (PInt 1).
Proof. reflexivity. Qed.

Example get_hashname_ak47 :
  get_hashname Demo.runtime "AK-47" "Redline" (PInt 0) (PInt 0)
  = Ok "AK-47%20%7C%20Redline%20%28Factory%20New%29".
Proof. reflexivity. Qed.

Example get_hashname_out_of_range :
  get_hashname Demo.runtime "AK-47" "Redline" (PInt 5) (PInt 0)
  = Err (mkExc KeyError "5").
Proof. reflexivity. Qed.

(** ** The rate-limited client *)

Lemma Qltb_lt (x y : Q) : Qltb x y = true <-> x < y.
Proof.
  unfold Qltb. rewrite negb_true_iff. split.
  - intros H. apply Qnot_le_lt. intros Hle.
    apply Qle_bool_iff in Hle. congruence.
  - intros H. destruct (Qle_bool y x) eqn:E; [|reflexivity].
    apply Qle_bool_iff in E. apply Qle_not_lt in E. contradiction.
Qed.

Lemma Qltb_ge (x y : Q) : Qltb x y = false <-> y <= x.
Proof.
  unfold Qltb. rewrite negb_false_iff. apply Qle_bool_iff.
Qed.

Local Open Scope list_scope.

Section ClientFacts.

Variable w : world.

Lemma wait_if_needed_fields (m : machine) :
  let m' := wait_if_needed w m in
  min_delay m' = min_delay m /\ max_delay m' = max_delay m
  /\ last_request_time m' = last_request_time m
  /\ dispatched m' = dispatched m.
Proof.
  unfold wait_if_needed, draw, sleep.
  destruct (Qltb 0 (last_request_time m)); cbn; [|tauto].
  match goal with |- context [if ?c then _ else _] => destruct c end;
    cbn; tauto.
Qed.

Lemma wait_if_needed_trace (m : machine) :
  exists p, pacing p /\ trace (wait_if_needed w m) = p ++ trace m.
Proof.
  unfold wait_if_needed, draw, sleep.
  destruct (Qltb 0 (last_request_time m)); cbn.
  - match goal with |- context [if ?c then _ else _] => destruct c end; cbn.
    + eexists; split; [apply pacing_sleep | reflexivity].
    + exists []; split; [apply pacing_none | reflexivity].
  - exists []; split; [apply pacing_none | reflexivity].
Qed.

(** An exception that carries a response has the attribute. *)
Lemma rate_limited_response (e : exc) :
  rate_limited e = true -> no_response e = None.
Proof.
  unfold rate_limited, no_response. destruct (exc_cls e); try discriminate.
  reflexivity.
Qed.

(** A frame of [get] for which the stack has room. *)
Lemma get_frame (fuel : nat) (url : string) (m : machine) :
  get w (S fuel) url m
  = let m2 := snd (send w url (wait_if_needed w m)) in
    match transport w (dispatched m) url with
    | Respond r => (Ret r, set_last_request_time m2 (clock m2))
    | Fail e =>
        if rate_limited e
        then get w fuel url (sleep w 5 (emit (Log RateLimitHit) m2))
        else (surfaced (Fail e), m2)
    end.
Proof.
  cbn [get]. destruct (wait_if_needed_fields m) as (_ & _ & _ & Hd).
  unfold send. cbn [snd]. rewrite !Hd.
  destruct (transport w (dispatched m) url) as [r|e]; [reflexivity|].
  unfold surfaced. destruct (rate_limited e) eqn:He.
  - now rewrite (rate_limited_response e He).
  - destruct (no_response e); reflexivity.
Qed.

(** The frame in which the stack runs out. *)
Lemma get_last_frame (url : string) (m : machine) :
  get w 0 url m
  = match stack w (dispatched m) with
    | AtCall msg => (Raise (recursion_error msg), m)
    | AtWarning msg =>
        let m2 := snd (send w url (wait_if_needed w m)) in
        match transport w (dispatched m) url with
        | Respond r => (Ret r, set_last_request_time m2 (clock m2))
        | Fail e =>
            (if rate_limited e then Raise (recursion_error msg)
             else surfaced (Fail e), m2)
        end
    end.
Proof.
  cbn [get]. destruct (stack w (dispatched m)) as [msg|msg]; [reflexivity|].
  destruct (wait_if_needed_fields m) as (_ & _ & _ & Hd).
  unfold send. cbn [snd]. rewrite !Hd.
  destruct (transport w (dispatched m) url) as [r|e]; [reflexivity|].
  unfold surfaced. destruct (rate_limited e) eqn:He.
  - now rewrite (rate_limited_response e He).
  - destruct (no_response e); reflexivity.
Qed.

(** What sending one request does to the state. *)
Lemma send_fields (url : string) (m : machine) :
  let m2 := snd (send w url (wait_if_needed w m)) in
  dispatched m2 = S (dispatched m)
  /\ last_request_time m2 = last_request_time m
  /\ exists p, pacing p
       /\ trace m2 = Dispatch (clock (wait_if_needed w m)) url :: p ++ trace m.
Proof.
  destruct (wait_if_needed_fields m) as (_ & _ & Hl & Hd).
  destruct (wait_if_needed_trace m) as (p & Hp & Htr).
  cbn. rewrite Hd, Hl. repeat split. exists p. now rewrite Htr.
Qed.

(** One rejected attempt: a warning, a sleep of 5, and the same call again. *)
Lemma get_rejected (fuel : nat) (url : string) (m : machine) (e : exc) :
  transport w (dispatched m) url = Fail e ->
  rate_limited e = true ->
  get w (S fuel) url m
  = get w fuel url
      (sleep w 5 (emit (Log RateLimitHit) (snd (send w url (wait_if_needed w m))))).
Proof.
  intros Ht He. rewrite get_frame. cbv zeta. now rewrite Ht, He.
Qed.

(** An attempt that is not rejected ends the call. *)
Lemma get_answered (fuel : nat) (url : string) (m : machine) :
  (forall e, transport w (dispatched m) url = Fail e -> rate_limited e = false) ->
  exists m',
    get w (S fuel) url m = (surfaced (transport w (dispatched m) url), m')
    /\ dispatched m' = S (dispatched m)
    /\ (exists p, pacing p
                  /\ trace m' = Dispatch (clock (wait_if_needed w m)) url
                                :: p ++ trace m).
Proof.
  intros Hnot. rewrite get_frame. cbv zeta.
  destruct (send_fields url m) as (Hd & _ & p & Hp & Htr).
  destruct (transport w (dispatched m) url) as [r|e] eqn:Ht.
  - eexists; split; [reflexivity|]. split; [exact Hd|]. now exists p.
  - rewrite (Hnot e eq_refl).
    eexists; split; [reflexivity|]. split; [exact Hd|]. now exists p.
Qed.

(** A call that returns a response was served it by the marketplace. *)
Lemma get_Ret_served (url : string) (fuel : nat) :
  forall (m m' : machine) (r : response),
    get w fuel url m = (Ret r, m') ->
    exists k, transport w k url = Respond r.
Proof.
  induction fuel as [|fuel IH]; intros m m' r.
  - rewrite get_last_frame.
    destruct (stack w (dispatched m)) as [msg|msg]; [discriminate|]. cbv zeta.
    destruct (transport w (dispatched m) url) as [r0|e] eqn:Ht.
    + intros H. injection H as <- _. now exists (dispatched m).
    + unfold surfaced.
      destruct (rate_limited e); [discriminate|].
      destruct (no_response e); discriminate.
  - rewrite get_frame. cbv zeta.
    destruct (transport w (dispatched m) url) as [r0|e] eqn:Ht.
    + intros H. injection H as <- _. now exists (dispatched m).
    + destruct (rate_limited e); [apply IH|].
      unfold surfaced. destruct (no_response e); discriminate.
Qed.

(** A response comes back unchanged when the stack has more room. *)
Lemma get_Ret_more_room (url : string) (fuel : nat) :
  forall (m m' : machine) (r : response),
    get w fuel url m = (Ret r, m') -> get w (S fuel) url m = (Ret r, m').
Proof.
  induction fuel as [|fuel IH]; intros m m' r.
  - rewrite get_last_frame, get_frame.
    destruct (stack w (dispatched m)) as [msg|msg]; [discriminate|]. cbv zeta.
    destruct (transport w (dispatched m) url) as [r0|e]; [easy|].
    destruct (rate_limited e); [discriminate | easy].
  - rewrite (get_frame (S fuel)), (get_frame fuel). cbv zeta.
    destruct (transport w (dispatched m) url) as [r0|e]; [easy|].
    destruct (rate_limited e); [apply IH | easy].
Qed.

End ClientFacts.

Lemma pacing_hits (p tr : list event) :
  pacing p -> rate_limit_hits (p ++ tr) = rate_limit_hits tr.
Proof. intros [|d]; reflexivity. Qed.

Lemma rate_limit_hits_app (a b : list event) :
  rate_limit_hits (a ++ b) = (rate_limit_hits a + rate_limit_hits b)%nat.
Proof.
  induction a as [|ev a IH]; [reflexivity|].
  destruct ev as [t u|d|[]|]; cbn; rewrite IH; reflexivity.
Qed.

Lemma attempts_hits (url : string) (k : nat) (seg : list event) :
  attempts url k seg -> rate_limit_hits seg = k.
Proof.
  induction 1 as [p t Hp | k p seg t Hp Hseg IH].
  - cbn. rewrite <- (app_nil_r p). now rewrite pacing_hits.
  - rewrite rate_limit_hits_app, IH. cbn.
    rewrite <- (app_nil_r p), pacing_hits by assumption. cbn. lia.
Qed.

(** Names the state after a request was sent and forgets how it was
    reached, keeping what [send_fields] says of it. *)
Ltac frame_state w url m :=
  let Hd := fresh "Hd" in
  let Hl := fresh "Hl" in
  let p := fresh "p" in
  let Hp := fresh "Hp" in
  let Htr := fresh "Htr" in
  let m2 := fresh "m2" in
  destruct (send_fields w url m) as (Hd & Hl & p & Hp & Htr);
  set (m2 := snd (send w url (wait_if_needed w m))) in *;
  clearbody m2.

Section Retry.

Variable w : world.
Variable url : string.

Lemma get_retries (k : nat) :
  forall (fuel : nat) (m : machine),
    (k < fuel)%nat ->
    rejected w url (dispatched m) k ->
    answered w url (dispatched m + k) ->
    exists m' seg,
      get w fuel url m = (surfaced (transport w (dispatched m + k) url), m')
      /\ dispatched m' = (dispatched m + k + 1)%nat
      /\ attempts url k seg
      /\ trace m' = seg ++ trace m.
Proof.
  induction k as [|k IH]; intros fuel m Hfuel Hrej Hans.
  - destruct fuel as [|fuel]; [lia|].
    rewrite Nat.add_0_r in *.
    destruct (get_answered w fuel url m Hans) as (m' & Hget & Hd & p & Hp & Htr).
    exists m', (Dispatch (clock (wait_if_needed w m)) url :: p).
    repeat split.
    + exact Hget.
    + lia.
    + now apply attempts_last.
    + exact Htr.
  - destruct fuel as [|fuel]; [lia|].
    destruct (Hrej 0%nat ltac:(lia)) as (e & Ht & He).
    rewrite Nat.add_0_r in Ht.
    rewrite (get_rejected w fuel url m e Ht He).
    set (m2 := sleep w 5 (emit (Log RateLimitHit)
                            (snd (send w url (wait_if_needed w m))))).
    destruct (wait_if_needed_trace w m) as (p & Hp & Htr).
    assert (Hd2 : dispatched m2 = S (dispatched m)).
    { cbn. now destruct (wait_if_needed_fields w m) as (_ & _ & _ & ->). }
    assert (Htr2 : trace m2
                   = Sleep 5 :: Log RateLimitHit
                     :: Dispatch (clock (wait_if_needed w m)) url
                     :: p ++ trace m).
    { cbn. now rewrite Htr. }
    destruct (IH fuel m2) as (m' & seg & Hget & Hd & Hseg & Htr').
    + lia.
    + intros i Hi. rewrite Hd2.
      destruct (Hrej (S i) ltac:(lia)) as (e' & Ht' & He').
      exists e'. split; [|exact He'].
      now replace (S (dispatched m) + i)%nat with (dispatched m + S i)%nat by lia.
    + rewrite Hd2.
      now replace (S (dispatched m) + k)%nat with (dispatched m + S k)%nat by lia.
    + rewrite Hd2 in Hget, Hd.
      replace (S (dispatched m) + k)%nat with (dispatched m + S k)%nat in Hget by lia.
      exists m', (seg ++ Sleep 5 :: Log RateLimitHit
                      :: Dispatch (clock (wait_if_needed w m)) url :: p).
      repeat split.
      * exact Hget.
      * lia.
      * now apply attempts_retry.
      * rewrite Htr', Htr2, <- app_assoc. reflexivity.
Qed.

(** Every call comes back, after at most as many retries as the stack has
    room for frames. *)
Lemma get_bounded (fuel : nat) :
  forall (m m' : machine) (o : outcome response),
    get w fuel url m = (o, m') ->
    o <> Diverge /\ (forall status, o <> Escape status)
    /\ (dispatched m <= dispatched m' <= dispatched m + fuel + 1)%nat
    /\ (rate_limit_hits (trace m) <= rate_limit_hits (trace m')
        <= rate_limit_hits (trace m) + fuel)%nat.
Proof.
  induction fuel as [|fuel IH]; intros m m' o.
  - rewrite get_last_frame.
    destruct (stack w (dispatched m)) as [msg|msg].
    + intros H. injection H as <- <-. repeat split; try discriminate; lia.
    + cbv zeta. frame_state w url m.
      assert (Hh : rate_limit_hits (trace m2) = rate_limit_hits (trace m)).
      { rewrite Htr. cbn [rate_limit_hits]. now apply pacing_hits. }
      destruct (transport w (dispatched m) url) as [r|e].
      * intros H. injection H as <- <-.
        cbn [dispatched trace set_last_request_time]. rewrite Hd, Hh.
        repeat split; try discriminate; lia.
      * intros H. injection H as <- <-. rewrite Hd, Hh.
        unfold surfaced.
        destruct (rate_limited e); [|destruct (no_response e)];
          repeat split; try discriminate; lia.
  - rewrite get_frame. cbv zeta. frame_state w url m.
    assert (Hh : rate_limit_hits (trace m2) = rate_limit_hits (trace m)).
    { rewrite Htr. cbn [rate_limit_hits]. now apply pacing_hits. }
    destruct (transport w (dispatched m) url) as [r|e].
    + intros H. injection H as <- <-.
      cbn [dispatched trace set_last_request_time]. rewrite Hd, Hh.
      repeat split; try discriminate; lia.
    + destruct (rate_limited e).
      * intros H. apply IH in H as (H1 & H2 & H3 & H4).
        cbn [dispatched trace sleep emit rate_limit_hits] in H3, H4.
        rewrite Hd in H3. rewrite Hh in H4.
        repeat split; try assumption; lia.
      * intros H. injection H as <- <-. rewrite Hd, Hh.
        unfold surfaced. destruct (no_response e);
          repeat split; try discriminate; lia.
Qed.

(** While every attempt is rejected the call goes on until the stack runs
    out, and then raises [RecursionError]. *)
Lemma get_rejected_throughout (fuel : nat) :
  forall m,
    rejected w url (dispatched m) (S fuel) ->
    exists msg,
      fst (get w fuel url m) = Raise (recursion_error msg)
      /\ rate_limit_hits (trace (snd (get w fuel url m)))
         = (fuel + rate_limit_hits (trace m))%nat.
Proof.
  induction fuel as [|fuel IH]; intros m Hrej.
  - rewrite get_last_frame.
    destruct (stack w (dispatched m)) as [msg|msg]; exists msg.
    + split; reflexivity.
    + cbv zeta. destruct (Hrej 0%nat ltac:(lia)) as (e & Ht & He).
      rewrite Nat.add_0_r in Ht. rewrite Ht, He.
      frame_state w url m. cbn [fst snd].
      split; [reflexivity|]. rewrite Htr. cbn [rate_limit_hits].
      now rewrite pacing_hits.
  - destruct (Hrej 0%nat ltac:(lia)) as (e & Ht & He).
    rewrite Nat.add_0_r in Ht.
    rewrite (get_rejected w fuel url m e Ht He).
    frame_state w url m.
    destruct (IH (sleep w 5 (emit (Log RateLimitHit) m2))) as (msg & H1 & H2).
    + intros i Hi. cbn [dispatched sleep emit]. rewrite Hd.
      destruct (Hrej (S i) ltac:(lia)) as (e' & Ht' & He').
      exists e'. split; [|exact He'].
      now replace (S (dispatched m) + i)%nat with (dispatched m + S i)%nat by lia.
    + exists msg. split; [exact H1|]. rewrite H2.
      cbn [trace sleep emit]. rewrite Htr.
      cbn [rate_limit_hits]. rewrite pacing_hits by assumption. lia.
Qed.

End Retry.




(** A response whose status is 429 is a response: it is returned to the
    caller and nothing is retried. *)
Example response_with_status_429 :
  let run := get Demo.turning_down 3 "u" (Demo.fresh_machine 1000) in
  fst run = Ret (mkResponse 429 "Too Many Requests")
  /\ trace (snd run) = [Dispatch 1000 "u"].
Proof. vm_compute. split; reflexivity. Qed.

(** Against a marketplace that rejects every request by an exception, the
    retries end where the stack does: with room for three frames, after
    three warnings when the fourth call does not fit, and after a fourth
    request when it is its warning that does not. *)
Example retry_ends_with_the_stack :
  let run := get Demo.rejecting 3 "u" (Demo.fresh_machine 1000) in
  let deep := get Demo.rejecting_deep 3 "u" (Demo.fresh_machine 1000) in
  fst run = Raise (recursion_error Demo.overflow_message)
  /\ dispatched (snd run) = 3%nat
  /\ rate_limit_hits (trace (snd run)) = 3%nat
  /\ fst deep = Raise (recursion_error Demo.overflow_message)
  /\ dispatched (snd deep) = 4%nat
  /\ rate_limit_hits (trace (snd deep)) = 3%nat.
Proof. vm_compute. repeat split. Qed.

(** An [httpx] error without a response does not reach the caller: the
    handler fails on [e.response]. *)
Example connection_failure_surfaces_as_attribute_error :
  fst (get Demo.failing_second 1 "b"
         (snd (get Demo.failing_second 1 "a" (Demo.fresh_machine 1000))))
  = Raise (mkExc AttributeError
             "'ConnectError' object has no attribute 'response'").
Proof. vm_compute. reflexivity. Qed.

(** ** Pacing *)

Lemma pacing_no_dispatch (p : list event) (t : Q) (u : string) :
  pacing p -> ~ In (Dispatch t u) p.
Proof.
  intros [|d] H; cbn in H; [contradiction|].
  destruct H as [H|[]]. discriminate H.
Qed.

Section Pacing.

Variable w : world.
Hypothesis Hcalm : calm w.

Lemma wait_if_needed_clock (m : machine) :
  min_delay m <= max_delay m ->
  clock m <= clock (wait_if_needed w m)
  /\ (0 < last_request_time m ->
      last_request_time m + min_delay m <= clock (wait_if_needed w m)).
Proof.
  intros Hmm. unfold wait_if_needed, draw, sleep.
  pose proof (uniform_bounds w Hcalm (drawn m) _ _ Hmm) as [Hlo Hhi].
  pose proof (oversleep_nonneg w Hcalm (slept m)) as Hos.
  destruct (Qltb 0 (last_request_time m)) eqn:E1; cbn.
  - destruct (Qltb (clock m - last_request_time m)
                   (uniform w (drawn m) (min_delay m) (max_delay m))) eqn:E2;
      cbn.
    + apply Qltb_lt in E2. split; [lra | intros _; lra].
    + apply Qltb_ge in E2. split; [lra | intros _; lra].
  - apply Qltb_ge in E1. split; [lra | intros H; lra].
Qed.

(** What one request guarantees, in a frame that gets to send it. *)
Lemma send_paced (url : string) (m : machine) :
  min_delay m <= max_delay m ->
  let m1 := wait_if_needed w m in
  let m2 := snd (send w url m1) in
  min_delay m2 = min_delay m /\ max_delay m2 = max_delay m
  /\ last_request_time m2 = last_request_time m
  /\ clock m <= clock m1 /\ clock m1 <= clock m2
  /\ (0 < last_request_time m -> last_request_time m + min_delay m <= clock m1)
  /\ exists p, pacing p /\ trace m2 = Dispatch (clock m1) url :: p ++ trace m.
Proof.
  intros Hmm m1 m2.
  destruct (wait_if_needed_fields w m) as (Hmin & Hmax & Hlast & Hdis).
  destruct (wait_if_needed_trace w m) as (p & Hp & Htr).
  destruct (wait_if_needed_clock m Hmm) as [Hclk Hpace].
  pose proof (latency_nonneg w Hcalm (dispatched (wait_if_needed w m))) as Hlat.
  unfold m2, m1. cbn [send snd min_delay max_delay last_request_time clock trace].
  repeat split; try assumption; try lra.
  exists p. now rewrite Htr.
Qed.

(** What one call of [get] guarantees about the requests it sends. *)
Lemma get_paced (url : string) (fuel : nat) :
  forall (m m' : machine) (o : outcome response),
    min_delay m <= max_delay m ->
    get w fuel url m = (o, m') ->
    min_delay m' = min_delay m /\ max_delay m' = max_delay m
    /\ clock m <= clock m'
    /\ (exists seg,
           trace m' = seg ++ trace m
           /\ (forall t u, In (Dispatch t u) seg ->
                 clock m <= t /\ t <= clock m'
                 /\ (0 < last_request_time m ->
                     last_request_time m + min_delay m <= t))
           /\ (fuel <> 0%nat -> exists t, In (Dispatch t url) seg))
    /\ (forall r, o = Ret r -> last_request_time m' = clock m').
Proof.
  assert (Hsingle :
    forall (fuel : nat) (m m2 : machine) (p : list event) (t1 : Q)
           (o : outcome response),
      pacing p -> trace m2 = Dispatch t1 url :: p ++ trace m ->
      min_delay m2 = min_delay m -> max_delay m2 = max_delay m ->
      clock m <= t1 -> t1 <= clock m2 ->
      (0 < last_request_time m -> last_request_time m + min_delay m <= t1) ->
      (forall r, o = Ret r -> last_request_time m2 = clock m2) ->
      min_delay m2 = min_delay m /\ max_delay m2 = max_delay m
      /\ clock m <= clock m2
      /\ (exists seg,
             trace m2 = seg ++ trace m
             /\ (forall t u, In (Dispatch t u) seg ->
                   clock m <= t /\ t <= clock m2
                   /\ (0 < last_request_time m ->
                       last_request_time m + min_delay m <= t))
             /\ (fuel <> 0%nat -> exists t, In (Dispatch t url) seg))
      /\ (forall r, o = Ret r -> last_request_time m2 = clock m2)).
  { clear fuel. intros fuel m m2 p t1 o Hp Htr Hmin Hmax H1 H2 H3 Hret.
    repeat split; try assumption; try lra.
    exists (Dispatch t1 url :: p). split; [exact Htr|]. split.
    - intros t u [Hin|Hin].
      + injection Hin as <- _. repeat split; try lra; exact H3.
      + now apply pacing_no_dispatch in Hin.
    - intros _. exists t1. now left. }
  induction fuel as [|fuel IH]; intros m m' o Hmm.
  - rewrite get_last_frame.
    destruct (send_paced url m Hmm)
      as (Hmin & Hmax & Hlast & Hc1 & Hc2 & Hpace & p & Hp & Htr).
    destruct (stack w (dispatched m)) as [msg|msg].
    + intros H. injection H as <- <-.
      repeat split; try lra.
      * exists []. split; [reflexivity|]. split; [intros t u [] | easy].
      * intros r Hr. discriminate Hr.
    + cbv zeta.
      set (m1 := wait_if_needed w m) in *.
      set (m2 := snd (send w url m1)) in *. clearbody m2.
      destruct (transport w (dispatched m) url) as [r|e].
      * intros H. injection H as <- <-.
        apply (Hsingle _ m _ p (clock m1)); try assumption.
        intros r0 _. reflexivity.
      * intros H. injection H as <- <-.
        apply (Hsingle _ m _ p (clock m1)); try assumption.
        intros r0 Hr. unfold surfaced in Hr.
        destruct (rate_limited e); [discriminate|].
        destruct (no_response e); discriminate.
  - rewrite get_frame. cbv zeta.
    destruct (send_paced url m Hmm)
      as (Hmin & Hmax & Hlast & Hc1 & Hc2 & Hpace & p & Hp & Htr).
    set (m1 := wait_if_needed w m) in *.
    pose proof (oversleep_nonneg w Hcalm (slept (snd (send w url m1)))) as Hos.
    set (m2 := snd (send w url m1)) in *. clearbody m2.
    destruct (transport w (dispatched m) url) as [r|e].
    + intros H. injection H as <- <-.
      apply (Hsingle _ m _ p (clock m1)); try assumption.
      intros r0 _. reflexivity.
    + destruct (rate_limited e).
      * intros Hget.
        set (m3 := sleep w 5 (emit (Log RateLimitHit) m2)) in *.
        assert (Hmm3 : min_delay m3 <= max_delay m3).
        { cbn. now rewrite Hmin, Hmax. }
        destruct (IH m3 m' o Hmm3 Hget)
          as (Hmin' & Hmax' & Hclk' & (seg & Hseg & Hin' & _) & Hret).
        assert (Hclk3 : clock m2 <= clock m3) by (cbn; lra).
        cbn in Hmin', Hmax'.
        repeat split; try congruence; try lra; try exact Hret.
        exists (seg ++ Sleep 5 :: Log RateLimitHit
                     :: Dispatch (clock m1) url :: p).
        split; [|split].
        -- rewrite Hseg. cbn. rewrite Htr, <- app_assoc. reflexivity.
        -- intros t u Hin. apply in_app_or in Hin as [Hin|Hin].
           ++ destruct (Hin' t u Hin) as (H1 & H2 & H3).
              cbn in H3. rewrite Hlast, Hmin in H3.
              repeat split; try lra; try exact H3.
           ++ destruct Hin as [Hin|[Hin|[Hin|Hin]]]; try discriminate Hin.
              ** injection Hin as <- _. repeat split; try lra; exact Hpace.
              ** now apply pacing_no_dispatch in Hin.
        -- intros _. exists (clock m1). apply in_or_app. right.
           right. right. now left.
      * intros H. injection H as <- <-.
        apply (Hsingle _ m _ p (clock m1)); try assumption.
        intros r0 Hr. unfold surfaced in Hr.
        destruct (no_response e); discriminate.
Qed.

End Pacing.

(** After an answer the pacing works as its docstring says.  With a
    minimum delay of 1.5, once a request has been answered every request of
    the next call leaves at least 1.5 after it, provided the clock is
    positive, time does not run backwards and the random delay is drawn
    within its bounds. *)
Lemma answered_request_spaced (w : world) (url1 url2 : string)
    (fuel1 fuel2 : nat) (m m1 m2 : machine) (r1 : response) (o2 : outcome response) :
  calm w ->
  min_delay m == 3 # 2 -> max_delay m == 3 ->
  0 < clock m ->
  (forall t u, In (Dispatch t u) (trace m) -> t <= clock m) ->
  get w fuel1 url1 m = (Ret r1, m1) ->
  get w fuel2 url2 m1 = (o2, m2) ->
  exists seg,
    trace m2 = seg ++ trace m1
    /\ (forall t1 u1 t2 u2,
          In (Dispatch t1 u1) (trace m1) -> In (Dispatch t2 u2) seg ->
          t1 + (3 # 2) <= t2)
    /\ (fuel2 <> 0%nat -> exists t2, In (Dispatch t2 url2) seg).
Proof.
  intros Hcalm Hmin Hmax Hpos Hpast Hget1 Hget2.
  assert (Hmm : min_delay m <= max_delay m) by lra.
  destruct (get_paced w Hcalm url1 fuel1 m m1 (Ret r1) Hmm Hget1)
    as (Hmin1 & Hmax1 & Hclk1 & (seg1 & Hseg1 & Hin1 & _) & Hret1).
  specialize (Hret1 r1 eq_refl).
  assert (Hmm1 : min_delay m1 <= max_delay m1) by (rewrite Hmin1, Hmax1; lra).
  destruct (get_paced w Hcalm url2 fuel2 m1 m2 o2 Hmm1 Hget2)
    as (_ & _ & _ & (seg & Hseg & Hin2 & Hsome) & _).
  exists seg. split; [exact Hseg|]. split; [|exact Hsome].
  intros t1 u1 t2 u2 Ht1 Ht2.
  destruct (Hin2 t2 u2 Ht2) as (_ & _ & Hgap).
  rewrite Hret1, Hmin1 in Hgap.
  assert (Hle : t1 <= clock m1).
  { rewrite Hseg1 in Ht1. apply in_app_or in Ht1 as [Ht1|Ht1].
    - now destruct (Hin1 t1 u1 Ht1) as (_ & H & _).
    - specialize (Hpast t1 u1 Ht1). lra. }
  assert (Hgap' : clock m1 + min_delay m <= t2) by (apply Hgap; lra).
  lra.
Qed.

Lemma quiet_calm (t : nat -> string -> transport_outcome) (input : result pyval) :
  calm (Demo.quiet t input).
Proof.
  split; cbn; intros; first [lra | split; [lra | assumption]].
Qed.

Lemma failing_once_calm : calm Demo.failing_once.
Proof.
  split; cbn; intros; first [lra | split; [lra | assumption]].
Qed.

Lemma answered_request_spaced_example :
  let w := Demo.answering in
  let m := Demo.fresh_machine 1000 in
  let m1 := snd (get w 1 "a" m) in
  let m2 := snd (get w 1 "b" m1) in
  (calm w /\ min_delay m == 3 # 2 /\ max_delay m == 3 /\ 0 < clock m
   /\ (forall t u, In (Dispatch t u) (trace m) -> t <= clock m)
   /\ get w 1 "a" m = (Ret (mkResponse 200 "ok"), m1)
   /\ get w 1 "b" m1 = (Ret (mkResponse 200 "ok"), m2))
  /\ exists seg,
       trace m2 = seg ++ trace m1
       /\ (forall t1 u1 t2 u2,
             In (Dispatch t1 u1) (trace m1) -> In (Dispatch t2 u2) seg ->
             t1 + (3 # 2) <= t2)
       /\ (1%nat <> 0%nat -> exists t2, In (Dispatch t2 "b") seg).
Proof.
  intros w m m1 m2.
  assert (Hcalm : calm w) by apply quiet_calm.
  assert (Hmin : min_delay m == 3 # 2) by reflexivity.
  assert (Hmax : max_delay m == 3) by reflexivity.
  assert (Hpos : 0 < clock m) by reflexivity.
  assert (Hpast : forall t u, In (Dispatch t u) (trace m) -> t <= clock m)
    by (intros t u []).
  assert (H1 : get w 1 "a" m = (Ret (mkResponse 200 "ok"), m1)) by reflexivity.
  assert (H2 : get w 1 "b" m1 = (Ret (mkResponse 200 "ok"), m2)) by reflexivity.
  split.
  - repeat (split; [assumption|]). assumption.
  - exact (answered_request_spaced w "a" "b" 1 1 m m1 m2 _ _
             Hcalm Hmin Hmax Hpos Hpast H1 H2).
Defined.

(** The second request of the example waits for the minimum delay. *)
Example answered_request_spaced_trace :
  trace (snd (get Demo.answering 1 "b"
                (snd (get Demo.answering 1 "a" (Demo.fresh_machine 1000)))))
  = [Dispatch (2003 # 2) "b"; Sleep (3 # 2); Dispatch 1000 "a"].
Proof. vm_compute. reflexivity. Qed.

(** C8.  Two consecutive requests are not always 1.5 apart: the pacing
    counts from [last_request_time], which a request that raises does not
    set.  Here the first request is answered, the second one leaves 1.5
    later and fails to connect, and the third one leaves a tenth of a time
    unit after the second. *)
Theorem failed_request_not_spaced :
  let w := Demo.failing_second in
  let run1 := get w 1 "a" (Demo.fresh_machine 1000) in
  let run2 := get w 1 "b" (snd run1) in
  let run3 := get w 1 "c" (snd run2) in
  fst run1 = Ret (mkResponse 200 "ok")
  /\ fst run2
     = Raise (mkExc AttributeError
                "'ConnectError' object has no attribute 'response'")
  /\ fst run3 = Ret (mkResponse 200 "ok")
  /\ last_request_time (snd run2) = last_request_time (snd run1)
  /\ exists t2 t3,
       trace (snd run3)
       = [Dispatch t3 "c"; Dispatch t2 "b"; Sleep (300 # 200); Dispatch 1000 "a"]
       /\ t2 == 1001 + (6 # 10)
       /\ t3 == 1001 + (7 # 10)
       /\ t3 - t2 < 3 # 2.
Proof.
  intros w run1 run2 run3.
  split; [reflexivity|]. split; [reflexivity|]. split; [reflexivity|].
  split; [reflexivity|].
  eexists. eexists. split; [vm_compute; reflexivity|].
  split; [vm_compute; reflexivity|]. split; vm_compute; reflexivity.
Qed.

(** With the exception the first examples use, one that has a response
    attribute set to None, the request leaves unpaced in the same way. *)
Example failed_request_trace :
  let m1 := snd (get Demo.failing_once 1 "a" (Demo.fresh_machine 1000)) in
  fst (get Demo.failing_once 1 "a" (Demo.fresh_machine 1000))
  = Raise Demo.connect_error
  /\ last_request_time m1 = 0
  /\ trace (snd (get Demo.failing_once 1 "b" m1))
     = [Dispatch (1000 + (1 # 10)) "b"; Dispatch 1000 "a"].
Proof. repeat split. Qed.

(** ** The order-book fetcher *)

Lemma bind_Ret {S A C} (c : M S A) (k : A -> M S C) (s s' : S) (b : C) :
  bind c k s = (Ret b, s') ->
  exists a s1, c s = (Ret a, s1) /\ k a s1 = (Ret b, s').
Proof.
  unfold bind. destruct (c s) as [[a|e|st|] s1]; intros H; try discriminate H.
  now exists a, s1.
Qed.

Lemma lift_Ret {S A} (r : result A) (s s' : S) (a : A) :
  lift r s = (Ret a, s') -> r = Ok a /\ s' = s.
Proof.
  unfold lift. destruct r as [a'|e]; intros H; try discriminate H.
  injection H as -> ->. now split.
Qed.

Lemma bind_eq {S A C} (c : M S A) (k : A -> M S C) (s s1 : S) (a : A) :
  c s = (Ret a, s1) -> bind c k s = k a s1.
Proof. unfold bind. now intros ->. Qed.

Lemma lift_Ok {S A} (a : A) (s : S) : lift (Ok a) s = (Ret a, s).
Proof. reflexivity. Qed.

Lemma dict_set_twice (d : dict) (k : string) (v v' : pyval) :
  Py.dict_set (Py.dict_set d k v) k v' = Py.dict_set d k v'.
Proof.
  induction d as [|[k0 v0] d IH]; cbn.
  - now rewrite String.eqb_refl.
  - destruct (String.eqb k0 k) eqn:E; cbn; rewrite E; [reflexivity|].
    now rewrite IH.
Qed.

Lemma lookup_dict_set (d : dict) (k k' : string) (v : pyval) :
  Py.lookup (Py.dict_set d k v) k'
  = if String.eqb k k' then Some v else Py.lookup d k'.
Proof.
  induction d as [|[k0 v0] d IH]; cbn.
  - reflexivity.
  - destruct (String.eqb k0 k) eqn:E; cbn.
    + apply String.eqb_eq in E. subst k0.
      destruct (String.eqb k k'); reflexivity.
    + rewrite IH. destruct (String.eqb k0 k') eqn:E'; [|reflexivity].
      apply String.eqb_eq in E'. subst k'. now rewrite String.eqb_sym, E.
Qed.

Lemma in_scope_Ret {A} (data d : dict) (c : M scope A) (m m' : machine) :
  in_scope data c m = (Ret d, m') ->
  exists a sc, c (mkScope data m) = (Ret a, sc)
               /\ d = scope_data sc /\ m' = scope_client sc.
Proof.
  unfold in_scope.
  destruct (c (mkScope data m)) as [[a|e|st|] sc]; intros H; try discriminate H.
  injection H as <- <-. now exists a, sc.
Qed.

Lemma data_setitem_run (key : string) (value : pyval) (sc : scope) :
  data_setitem key value sc
  = (Ret tt, mkScope (Py.dict_set (scope_data sc) key value) (scope_client sc)).
Proof. reflexivity. Qed.

Section FetchFacts.

Variable B : builtins.
Variable w : world.
Variable fuel : nat.

Lemma orders_of_list (graph v : pyval) :
  orders_of B graph = Ok v -> exists l, v = PList l.
Proof.
  unfold orders_of. destruct (Py.iter graph) as [orders|e]; cbn; [|discriminate].
  destruct (map_result (order_entry B) orders) as [entries|e]; cbn; [|discriminate].
  intros H. injection H as <-. now exists entries.
Qed.

(** What the graph block does to [data], up to what evaluating the two
    texts does to it: [Rd] is any relation between dictionaries that the
    evaluation of each text respects. *)
Section GraphBlock.

Variable Rd : dict -> dict -> Prop.
Hypothesis Rd_trans : forall d1 d2 d3, Rd d1 d2 -> Rd d2 d3 -> Rd d1 d3.

Variable order_data : string.
Hypothesis Rd_eval :
  forall expr, graph_texts order_data expr ->
    respects (on_data Rd) (py_eval B expr).

Lemma parse_graphs_Ret (sc sc' : scope) (u : unit) :
  parse_graphs B order_data sc = (Ret u, sc') ->
  exists buy_graph sell_graph sc1 sc2 bo so,
    py_eval B (graph_text buy_graph_label order_data) sc = (Ret buy_graph, sc1)
    /\ py_eval B (graph_text sell_graph_label order_data) sc1
       = (Ret sell_graph, sc2)
    /\ orders_of B buy_graph = Ok (PList bo)
    /\ orders_of B sell_graph = Ok (PList so)
    /\ sc' = mkScope (Py.dict_set (Py.dict_set (scope_data sc2) "buy_orders"
                                     (PList bo))
                        "sell_orders" (PList so))
                     (scope_client sc2).
Proof.
  unfold parse_graphs. cbv zeta. intros H.
  apply bind_Ret in H as (g1 & sc1 & E1 & H).
  apply bind_Ret in H as (g2 & sc2 & E2 & H).
  apply bind_Ret in H as (v1 & s3 & O1 & H). apply lift_Ret in O1 as [O1 ->].
  apply bind_Ret in H as ([] & s4 & S1 & H).
  rewrite data_setitem_run in S1. injection S1 as <-.
  apply bind_Ret in H as (v2 & s5 & O2 & H). apply lift_Ret in O2 as [O2 ->].
  rewrite data_setitem_run in H. injection H as <-.
  destruct (orders_of_list _ _ O1) as (bo & ->).
  destruct (orders_of_list _ _ O2) as (so & ->).
  now exists g1, g2, sc1, sc2, bo, so.
Qed.

(** When the body of the [try] raises, [data] is as the evaluations left
    it, with the buy orders stored or not. *)
Lemma parse_graphs_Raise (sc sc' : scope) (e : exc) :
  parse_graphs B order_data sc = (Raise e, sc') ->
  exists d,
    Rd (scope_data sc) d
    /\ (scope_data sc' = d
        \/ exists v, scope_data sc' = Py.dict_set d "buy_orders" v).
Proof.
  unfold parse_graphs. cbv zeta. unfold bind.
  pose proof (Rd_eval (graph_text buy_graph_label order_data)
                (or_introl eq_refl) sc) as R1.
  destruct (py_eval B (graph_text buy_graph_label order_data) sc)
    as [[g1|e1|st|] sc1]; try discriminate; cbn [snd] in R1.
  2:{ intros H. injection H as _ <-. exists (scope_data sc1). split; [exact R1 | now left]. }
  pose proof (Rd_eval (graph_text sell_graph_label order_data)
                (or_intror eq_refl) sc1) as R2.
  assert (R12 : Rd (scope_data sc) (scope_data (snd (py_eval B (graph_text sell_graph_label order_data) sc1)))).
  { eapply Rd_trans; [exact R1 | exact R2]. }
  clear R1 R2.
  destruct (py_eval B (graph_text sell_graph_label order_data) sc1)
    as [[g2|e2|st|] sc2]; try discriminate; cbn [snd] in R12.
  2:{ intros H. injection H as _ <-. exists (scope_data sc2). split; [exact R12 | now left]. }
  unfold lift.
  destruct (orders_of B g1) as [v1|e1].
  2:{ intros H. injection H as _ <-. exists (scope_data sc2). split; [exact R12 | now left]. }
  rewrite data_setitem_run.
  destruct (orders_of B g2) as [v2|e2].
  - rewrite data_setitem_run. discriminate.
  - intros H. injection H as _ <-. exists (scope_data sc2).
    split; [exact R12 | right; now exists v1].
Qed.

(** The graph block never raises; when it returns, both order lists are
    stored: the two converted graphs, or two empty lists. *)
Lemma order_graphs_Ret (sc sc' : scope) (u : unit) :
  order_graphs B order_data sc = (Ret u, sc') ->
  exists d bo so,
    Rd (scope_data sc) d
    /\ scope_data sc'
       = Py.dict_set (Py.dict_set d "buy_orders" (PList bo))
           "sell_orders" (PList so)
    /\ ((bo = [] /\ so = [])
        \/ exists buy_graph sell_graph sc1 sc2,
             py_eval B (graph_text buy_graph_label order_data) sc
             = (Ret buy_graph, sc1)
             /\ py_eval B (graph_text sell_graph_label order_data) sc1
                = (Ret sell_graph, sc2)
             /\ orders_of B buy_graph = Ok (PList bo)
             /\ orders_of B sell_graph = Ok (PList so)).
Proof.
  unfold order_graphs, try_except. destruct u.
  destruct (parse_graphs B order_data sc) as [[[]|e|st|] sc0] eqn:E;
    intros H; try discriminate H.
  - injection H as <-.
    destruct (parse_graphs_Ret _ _ _ E)
      as (g1 & g2 & sc1 & sc2 & bo & so & E1 & E2 & O1 & O2 & ->).
    exists (scope_data sc2), bo, so. split; [|split; [reflexivity|]].
    + eapply Rd_trans.
      * pose proof (Rd_eval _ (or_introl eq_refl) sc) as R1.
        rewrite E1 in R1. exact R1.
      * pose proof (Rd_eval _ (or_intror eq_refl) sc1) as R2.
        rewrite E2 in R2. exact R2.
    + right. now exists g1, g2, sc1, sc2.
  - destruct (parse_graphs_Raise _ _ _ E) as (d & HR & Hd).
    cbn in H. injection H as <-. cbn [scope_data].
    exists d, [], []. split; [exact HR|]. split; [|now left].
    destruct Hd as [-> | (v & ->)]; [reflexivity|].
    now rewrite dict_set_twice.
Qed.

Lemma order_graphs_handler (sc sc' : scope) (e : exc) :
  parse_graphs B order_data sc = (Raise e, sc') ->
  order_graphs B order_data sc
  = (Ret tt,
     mkScope (Py.dict_set (Py.dict_set (scope_data sc') "buy_orders" (PList []))
                "sell_orders" (PList []))
             (emit (Log (GraphParseFailed e)) (scope_client sc'))).
Proof. intros E. unfold order_graphs, try_except. rewrite E. reflexivity. Qed.

End GraphBlock.

(** The volume block always returns: it stores an integer, or None when
    its request or its reading fails. *)
Lemma volume_data_run (hashname : string) (sc : scope) :
  exists v m',
    volume_data B w fuel hashname sc
    = (Ret tt, mkScope (Py.dict_set (scope_data sc) "volume" v) m')
    /\ (v = PNone \/ exists z, v = PInt z).
Proof.
  unfold volume_data, try_except, bind, on_client, lift.
  destruct (get w (S fuel) (priceoverview_url hashname) (scope_client sc))
    as [[r|e|st|] m1] eqn:G.
  - destruct (field_after volume_label (text r)) as [field|e].
    + destruct (py_int B field) as [z|e].
      * exists (PInt z). eexists. split; [reflexivity | right; now exists z].
      * exists PNone. eexists. split; [reflexivity | now left].
    + exists PNone. eexists. split; [reflexivity | now left].
  - exists PNone. eexists. split; [reflexivity | now left].
  - destruct (get_bounded w _ _ _ _ _ G) as (_ & Hesc & _). now destruct (Hesc st).
  - destruct (get_bounded w _ _ _ _ _ G) as (Hdiv & _). now destruct Hdiv.
Qed.

Lemma served_graph_texts (room : nat) (url expr : string) (m m' : machine)
    (resp : response) :
  get w room url m = (Ret resp, m') ->
  graph_texts (text resp) expr -> served w expr.
Proof.
  intros G Hexpr. destruct (get_Ret_served w url room m m' resp G) as (k & Hk).
  now exists k, url, resp.
Qed.

(** [item_data] once the listing id is resolved and the histogram with
    its two prices is read. *)
Lemma item_data_stages (hashname : string) (m m1 m2 : machine)
    (id : Z) (resp : response) (b s : pyval) :
  get_nameid B w fuel hashname m = (Ret id, m1) ->
  get w (S fuel) (histogram_url (Text.str_of_int id)) m1 = (Ret resp, m2) ->
  price_field B highest_buy_label (text resp) = Ok b ->
  price_field B lowest_sell_label (text resp) = Ok s ->
  item_data B w fuel hashname m
  = in_scope (priced b s)
      (bind (order_graphs B (text resp))
         (fun _ =>
            bind (volume_data B w fuel hashname)
              (fun _ => data_setitem "nameid" (PStr (Text.str_of_int id)))))
      m2.
Proof.
  intros H1 H2 Hb Hs. unfold item_data.
  rewrite (bind_eq _ _ _ _ _ H1). cbv beta zeta.
  rewrite (bind_eq _ _ _ _ _ H2). cbv beta zeta.
  unfold in_scope. rewrite Hb.
  rewrite (bind_eq _ _ _ _ _ (lift_Ok b _)).
  rewrite (bind_eq _ _ _ _ _ (data_setitem_run _ _ _)).
  rewrite Hs.
  rewrite (bind_eq _ _ _ _ _ (lift_Ok s _)).
  rewrite (bind_eq _ _ _ _ _ (data_setitem_run _ _ _)).
  reflexivity.
Qed.

(** A result of [item_data], taken apart. *)
Lemma item_data_Ret (hashname : string) (m m' : machine) (data : dict) :
  item_data B w fuel hashname m = (Ret data, m') ->
  exists m1 m2 id resp b s sc3 sc4,
    get_nameid B w fuel hashname m = (Ret id, m1)
    /\ get w (S fuel) (histogram_url (Text.str_of_int id)) m1 = (Ret resp, m2)
    /\ price_field B highest_buy_label (text resp) = Ok b
    /\ price_field B lowest_sell_label (text resp) = Ok s
    /\ order_graphs B (text resp) (mkScope (priced b s) m2) = (Ret tt, sc3)
    /\ volume_data B w fuel hashname sc3 = (Ret tt, sc4)
    /\ data = Py.dict_set (scope_data sc4) "nameid" (PStr (Text.str_of_int id))
    /\ m' = scope_client sc4.
Proof.
  intros H. unfold item_data in H.
  apply bind_Ret in H as (id & m1 & H1 & H). cbv beta zeta in H.
  apply bind_Ret in H as (resp & m2 & H2 & H). cbv beta zeta in H.
  apply in_scope_Ret in H as ([] & sc & H & -> & ->).
  apply bind_Ret in H as (b & s1 & Hb & H). apply lift_Ret in Hb as [Hb ->].
  apply bind_Ret in H as ([] & s2 & S1 & H).
  rewrite data_setitem_run in S1. injection S1 as <-.
  apply bind_Ret in H as (s & s3 & Hs & H). apply lift_Ret in Hs as [Hs ->].
  apply bind_Ret in H as ([] & s4 & S2 & H).
  rewrite data_setitem_run in S2. injection S2 as <-.
  apply bind_Ret in H as ([] & sc3 & Hg & H).
  apply bind_Ret in H as ([] & sc4 & Hv & H).
  rewrite data_setitem_run in H. injection H as <-.
  now exists m1, m2, id, resp, b, s, sc3, sc4.
Qed.

(** The dictionary of a result: the data of the graph block with the
    volume and the listing id stored in it. *)
Lemma item_data_shape (hashname : string) (m m' : machine) (data : dict) :
  item_data B w fuel hashname m = (Ret data, m') ->
  exists m1 m2 id resp b s d bo so v,
    get_nameid B w fuel hashname m = (Ret id, m1)
    /\ get w (S fuel) (histogram_url (Text.str_of_int id)) m1 = (Ret resp, m2)
    /\ price_field B highest_buy_label (text resp) = Ok b
    /\ price_field B lowest_sell_label (text resp) = Ok s
    /\ (eval_spares_data B w -> d = priced b s)
    /\ data
       = Py.dict_set
           (Py.dict_set
              (Py.dict_set (Py.dict_set d "buy_orders" (PList bo))
                 "sell_orders" (PList so))
              "volume" v)
           "nameid" (PStr (Text.str_of_int id))
    /\ (v = PNone \/ exists z, v = PInt z)
    /\ ((bo = [] /\ so = [])
        \/ exists buy_graph sell_graph sc1 sc2,
             py_eval B (graph_text buy_graph_label (text resp))
               (mkScope (priced b s) m2)
             = (Ret buy_graph, sc1)
             /\ py_eval B (graph_text sell_graph_label (text resp)) sc1
                = (Ret sell_graph, sc2)
             /\ orders_of B buy_graph = Ok (PList bo)
             /\ orders_of B sell_graph = Ok (PList so)).
Proof.
  intros H.
  destruct (item_data_Ret hashname m m' data H)
    as (m1 & m2 & id & resp & b & s & sc3 & sc4
        & H1 & H2 & Hb & Hs & Hg & Hv & -> & ->).
  apply (order_graphs_Ret (fun d d' => eval_spares_data B w -> d' = d)) in Hg
    as (d & bo & so & HR & Hd & Hgraphs).
  - destruct (volume_data_run hashname sc3) as (v & m4 & Hv' & Hshape).
    rewrite Hv in Hv'. injection Hv' as ->. cbn [scope_data]. rewrite Hd.
    exists m1, m2, id, resp, b, s, d, bo, so, v.
    do 4 (split; [assumption|]). split; [exact HR|].
    split; [reflexivity|]. split; assumption.
  - intros d1 d2 d3 H12 H23 Hsp. now rewrite (H23 Hsp), (H12 Hsp).
  - intros expr Hexpr sc Hsp. apply Hsp.
    exact (served_graph_texts _ _ _ _ _ _ H2 Hexpr).
Qed.

End FetchFacts.

(** An evaluation that reads its text as a literal leaves the scope as it
    is. *)
Lemma literal_scope (f : string -> result pyval) (expr : string) (sc : scope) :
  snd (Demo.literal f expr sc) = sc.
Proof. unfold Demo.literal, lift. now destruct (f expr). Qed.

Lemma runtime_spares_data (w : world) : eval_spares_data Demo.runtime w.
Proof. intros expr sc _. cbn [py_eval Demo.runtime]. now rewrite literal_scope. Qed.







(** ** The batch loop *)

Lemma update_nth_length {A} (n : nat) (a : A) (l : list A) :
  List.length (update_nth n a l) = List.length l.
Proof.
  revert n; induction l as [|x l IH]; intros [|n]; cbn; auto.
Qed.

Lemma nth_update_nth_same {A} (n : nat) (a d : A) (l : list A) :
  (n < List.length l)%nat -> nth n (update_nth n a l) d = a.
Proof.
  revert n; induction l as [|x l IH]; intros [|n] H; cbn in *; try lia; auto.
  apply IH. lia.
Qed.

Lemma nth_update_nth_other {A} (n n' : nat) (a d : A) (l : list A) :
  n <> n' -> nth n' (update_nth n a l) d = nth n' l d.
Proof.
  revert n n'; induction l as [|x l IH]; intros [|n] [|n'] H; cbn; auto.
  contradiction.
Qed.

Lemma In_update_nth {A} (n : nat) (a x : A) (l : list A) :
  In x (update_nth n a l) -> x = a \/ In x l.
Proof.
  revert n; induction l as [|y l IH]; intros [|n] H; cbn in *; auto.
  - destruct H as [H|H]; auto.
  - destruct H as [H|H]; auto. destruct (IH n H); auto.
Qed.

Lemma serializable_list (l : list pyval) :
  serializable (PList l) <-> forall x, In x l -> serializable x.
Proof.
  unfold serializable. induction l as [|x l IH].
  - split; [intros _ y [] | reflexivity].
  - change (Py.unserializable (PList (x :: l)))
      with (match Py.unserializable x with
            | Some t => Some t
            | None => Py.unserializable (PList l)
            end).
    split.
    + intros H y [<-|Hy].
      * destruct (Py.unserializable x); [discriminate H | reflexivity].
      * destruct (Py.unserializable x); [discriminate H|]. now apply IH.
    + intros H. rewrite (H x (or_introl eq_refl)). apply IH.
      intros y Hy. apply H. now right.
Qed.

Lemma serializable_dict (d : dict) :
  serializable (PDict d) <-> forall k x, In (k, x) d -> serializable x.
Proof.
  unfold serializable. induction d as [|[k0 x0] d IH].
  - split; [intros _ k y [] | reflexivity].
  - change (Py.unserializable (PDict ((k0, x0) :: d)))
      with (match Py.unserializable x0 with
            | Some t => Some t
            | None => Py.unserializable (PDict d)
            end).
    split.
    + intros H k y [E|Hy].
      * injection E as <- <-.
        destruct (Py.unserializable x0); [discriminate H | reflexivity].
      * destruct (Py.unserializable x0); [discriminate H|]. now apply (proj1 IH H k).
    + intros H. rewrite (H k0 x0 (or_introl eq_refl)). apply IH.
      intros k y Hy. apply (H k). now right.
Qed.

Lemma In_dict_set (d : dict) (k k' : string) (v x : pyval) :
  In (k', x) (Py.dict_set d k v) -> x = v \/ In (k', x) d.
Proof.
  induction d as [|[k0 v0] d IH]; cbn.
  - intros [E|[]]. injection E as <- <-. now left.
  - destruct (String.eqb k0 k); cbn.
    + intros [E|H]; [injection E as <- <-; now left | right; now right].
    + intros [E|H]; [right; now left|].
      destruct (IH H) as [->|H']; [now left | right; now right].
Qed.

Lemma serializable_dict_set (d : dict) (k : string) (v : pyval) :
  serializable (PDict d) -> serializable v ->
  serializable (PDict (Py.dict_set d k v)).
Proof.
  intros Hd Hv. apply serializable_dict. intros k' x Hin.
  apply In_dict_set in Hin as [->|Hin]; [exact Hv|].
  exact (proj1 (serializable_dict d) Hd k' x Hin).
Qed.

Lemma clean_records (b : batch) : clean b -> serializable (PList (records b)).
Proof.
  intros Hc. apply serializable_list. intros x Hx.
  unfold records in Hx. apply in_map_iff in Hx.
  destruct Hx as (r & Hr & _). subst x.
  unfold deref. destruct (nth_in_or_default r (skins b) PNone) as [H | ->].
  - now apply Hc.
  - reflexivity.
Qed.

Lemma dump_ok (value : list pyval) (b : batch) :
  serializable (PList value) ->
  dump value b = (Ret tt, set_file (Document value) (set_file Truncated b)).
Proof.
  unfold dump, serializable. now intros ->.
Qed.

Lemma dump_processed_ok (b : batch) :
  clean b ->
  dump_processed b
  = (Ret tt, set_file (Document (records b)) (set_file Truncated b)).
Proof.
  intros Hc. unfold dump_processed.
  rewrite (dump_ok (records b) b (clean_records b Hc)). reflexivity.
Qed.

Section BatchFacts.

Variable B : builtins.
Variable w : world.
Variable fuel : nat.

Lemma process_skin_unfold (i total r : nat) (b : batch) :
  process_skin B w fuel i total r b
  = match Py.contains (deref b r) "name" with
    | Err e => (Raise e, b)
    | Ok false =>
        (Ret tt, set_mach b (emit (Log (SkippingNoName i total)) (mach b)))
    | Ok true =>
        match hashname_of B (deref b r) with
        | Err e => (Raise e, b)
        | Ok h =>
            match item_data B w fuel h (mach b) with
            | (Ret md, m') => store_and_dump r md (set_mach b m')
            | (Raise e, m') => (Raise e, set_mach b m')
            | (Escape status, m') => (Escape status, set_mach b m')
            | (Diverge, m') => (Diverge, set_mach b m')
            end
        end
    end.
Proof.
  unfold process_skin, hashname_of, skin_of, bind at 1, bind at 1, lift at 1.
  destruct (Py.contains (deref b r) "name") as [[|]|e]; cbn [negb];
    try reflexivity.
  unfold bind, lift, on_machine.
  destruct (Py.getitem_key B (deref b r) "name") as [name|e];
    cbn [rbind]; [|reflexivity].
  destruct (Py.split name " | ") as [names|e]; cbn [rbind]; [|reflexivity].
  destruct (Py.list_index names 0) as [weapon|e]; cbn [rbind]; [|reflexivity].
  destruct (Py.list_index names 1) as [finish|e]; cbn [rbind]; [|reflexivity].
  destruct (Py.get (deref b r) "wear" (PInt 0)) as [wear|e];
    cbn [rbind]; [|reflexivity].
  destruct (Py.get (deref b r) "stat" (PInt 0)) as [stat|e];
    cbn [rbind]; [|reflexivity].
  destruct (get_hashname B weapon finish wear stat) as [h|e]; [|reflexivity].
  destruct (item_data B w fuel h (mach b)) as [[md|e|st|] m']; reflexivity.
Qed.

Lemma store_and_dump_dict (r : nat) (d md : dict) (b : batch) :
  deref b r = PDict d ->
  store_and_dump r md b
  = dump (records (recorded r d (PDict md) b)) (recorded r d (PDict md) b).
Proof.
  intros Hd. unfold store_and_dump, bind, skin_setitem. rewrite Hd.
  reflexivity.
Qed.

Lemma record_error_dict (i total r : nat) (d : dict) (e : exc) (b : batch) :
  deref b r = PDict d ->
  let b1 := set_mach b (emit (Log (ErrorProcessing i total (name_or_unknown d) e))
                             (mach b)) in
  record_error i total r e b
  = dump (records (recorded r d (error_entry e) b1))
         (recorded r d (error_entry e) b1).
Proof.
  intros Hd. unfold record_error, bind, skin_of, skin_setitem, lift. rewrite Hd.
  cbn [Py.get]. unfold on_machine, log, modify. cbn [mach set_mach deref skins].
  change (deref (set_mach b _) r) with (deref b r). rewrite Hd.
  reflexivity.
Qed.

End BatchFacts.

Lemma update_nth_twice {A} (n : nat) (a a' : A) (l : list A) :
  update_nth n a' (update_nth n a l) = update_nth n a' l.
Proof.
  revert n; induction l as [|x l IH]; intros [|n]; cbn; auto.
  now rewrite IH.
Qed.

Lemma deref_In (b : batch) (r : nat) (d : dict) :
  deref b r = PDict d -> In (PDict d) (skins b) /\ (r < List.length (skins b))%nat.
Proof.
  unfold deref. intros H.
  destruct (Nat.lt_ge_cases r (List.length (skins b))) as [Hlt|Hge].
  - split; [|exact Hlt]. rewrite <- H. now apply nth_In.
  - rewrite nth_overflow in H by exact Hge. discriminate H.
Qed.

Lemma deref_recorded (r : nat) (d : dict) (md : pyval) (b : batch) :
  deref b r = PDict d ->
  deref (recorded r d md b) r = PDict (Py.dict_set d "market_data" md).
Proof.
  intros H. destruct (deref_In b r d H) as [_ Hlt].
  unfold deref, recorded. cbn. now apply nth_update_nth_same.
Qed.

Lemma clean_recorded (r : nat) (d : dict) (md : pyval) (b : batch) :
  clean b -> deref b r = PDict d -> serializable md ->
  clean (recorded r d md b).
Proof.
  intros Hc Hd Hmd x Hx. unfold recorded in Hx. cbn in Hx.
  apply In_update_nth in Hx as [->|Hx]; [|now apply Hc].
  apply serializable_dict_set; [|exact Hmd].
  apply Hc. now destruct (deref_In b r d Hd).
Qed.

Section ItemStep.

Variable B : builtins.
Variable w : world.
Variable fuel : nat.

Lemma record_error_ok (i total r : nat) (d : dict) (e : exc) (b : batch) :
  deref b r = PDict d ->
  clean (recorded r d (error_entry e) b) ->
  let b1 := recorded r d (error_entry e)
              (set_mach b (emit (Log (ErrorProcessing i total (name_or_unknown d) e))
                                (mach b))) in
  record_error i total r e b
  = (Ret tt, set_file (Document (records b1)) (set_file Truncated b1)).
Proof.
  intros Hd Hc b1. rewrite (record_error_dict i total r d e b Hd).
  apply dump_ok. apply clean_records. exact Hc.
Qed.

Lemma process_item_dict (i total r : nat) (d : dict) (b : batch) :
  deref b r = PDict d -> clean b ->
  exists o b',
    process_item B w fuel i total r b = (o, b') /\ item_step i total r d b o b'.
Proof.
  intros Hd Hc.
  assert (Hsd : serializable (PDict d)).
  { apply Hc. now destruct (deref_In b r d Hd). }
  assert (Herr : forall e, serializable (error_entry e)) by reflexivity.
  unfold process_item, try_except. rewrite process_skin_unfold, Hd.
  cbn [Py.contains].
  destruct (Py.lookup d "name") as [v|] eqn:Hn.
  2:{ eexists; eexists; split; [reflexivity|]. now apply step_skipped. }
  assert (Hnn : Py.lookup d "name" <> None) by (rewrite Hn; discriminate).
  destruct (hashname_of B (PDict d)) as [h|e].
  - destruct (item_data B w fuel h (mach b)) as [[md|e|st|] m'].
    + rewrite (store_and_dump_dict r d md (set_mach b m') Hd).
      unfold dump.
      destruct (Py.unserializable
                  (PList (records (recorded r d (PDict md) (set_mach b m')))))
        as [t|] eqn:Hs.
      * set (b1 := recorded r d (PDict md) (set_mach b m')).
        set (b2 := set_file Partial (set_file Truncated b1)).
        set (e := mkExc TypeError _).
        assert (Hd2 : deref b2 r = PDict (Py.dict_set d "market_data" (PDict md))).
        { apply (deref_recorded r d (PDict md) (set_mach b m') Hd). }
        assert (Hc2 : clean (recorded r (Py.dict_set d "market_data" (PDict md))
                               (error_entry e) b2)).
        { intros x Hx. unfold recorded in Hx. cbn in Hx.
          rewrite update_nth_twice in Hx.
          apply In_update_nth in Hx as [->|Hx]; [|now apply Hc].
          rewrite dict_set_twice. now apply serializable_dict_set. }
        rewrite (record_error_ok i total r _ e b2 Hd2 Hc2).
        eexists; eexists; split; [reflexivity|].
        replace (name_or_unknown (Py.dict_set d "market_data" (PDict md)))
          with (name_or_unknown d).
        -- apply (step_recorded_twice i total r d b m' (PDict md) e Hnn).
           unfold serializable. intros Hx. rewrite Hs in Hx. discriminate Hx.
        -- unfold name_or_unknown. rewrite lookup_dict_set. reflexivity.
      * eexists; eexists; split; [reflexivity|].
        apply (step_recorded i total r d b m' (PDict md) Hnn).
        assert (Hall := proj1 (serializable_list _) Hs).
        assert (Hitem : serializable (PDict (Py.dict_set d "market_data" (PDict md)))).
        { apply Hall. unfold records. apply in_map_iff. exists r. split.
          - apply (deref_recorded r d (PDict md) (set_mach b m') Hd).
          - cbn. apply in_or_app. right. now left. }
        apply (proj1 (serializable_dict _) Hitem "market_data").
        clear. induction d as [|[k0 v0] d IH]; cbn; [now left|].
        destruct (String.eqb k0 "market_data") eqn:E; cbn.
        -- apply String.eqb_eq in E. subst k0. now left.
        -- right. exact IH.
    + assert (Hc1 : clean (recorded r d (error_entry e) (set_mach b m'))).
      { now apply (clean_recorded r d (error_entry e) (set_mach b m') Hc Hd). }
      rewrite (record_error_ok i total r d e (set_mach b m') Hd Hc1).
      eexists; eexists; split; [reflexivity|].
      apply (step_recorded i total r d b
               (emit (Log (ErrorProcessing i total (name_or_unknown d) e)) m')
               (error_entry e) Hnn (Herr e)).
    + eexists; eexists; split; [reflexivity|]. now apply step_escaped.
    + eexists; eexists; split; [reflexivity|]. now apply step_diverged.
  - assert (Hc1 : clean (recorded r d (error_entry e) b)).
    { now apply clean_recorded. }
    rewrite (record_error_ok i total r d e b Hd Hc1).
    eexists; eexists; split; [reflexivity|].
    apply (step_recorded i total r d b
             (emit (Log (ErrorProcessing i total (name_or_unknown d) e)) (mach b))
             (error_entry e) Hnn (Herr e)).
Qed.

End ItemStep.

Lemma same_fields_refl (l : list pyval) : same_fields l l.
Proof. split; [reflexivity | intros; reflexivity]. Qed.

Lemma same_fields_trans (l1 l2 l3 : list pyval) :
  same_fields l1 l2 -> same_fields l2 l3 -> same_fields l1 l3.
Proof.
  intros [L1 F1] [L2 F2]. split; [congruence|].
  intros r key Hk. rewrite (F2 r key Hk). now apply F1.
Qed.

Lemma same_fields_update (l : list pyval) (r : nat) (d : dict) (md : pyval) :
  nth r l PNone = PDict d ->
  same_fields l (update_nth r (PDict (Py.dict_set d "market_data" md)) l).
Proof.
  intros Hd. split; [apply update_nth_length|].
  intros r' key Hk. destruct (Nat.eq_dec r r') as [<-|Hne].
  - destruct (Nat.lt_ge_cases r (List.length l)) as [Hlt|Hge].
    + rewrite nth_update_nth_same by exact Hlt. rewrite Hd. cbn.
      rewrite lookup_dict_set.
      destruct (String.eqb_spec "market_data" key) as [E|_]; [|reflexivity].
      now elim Hk.
    + rewrite nth_overflow in Hd by exact Hge. discriminate Hd.
  - now rewrite nth_update_nth_other.
Qed.

Section StepFacts.

Variables (i total r : nat) (d : dict) (b b' : batch) (o : outcome unit).
Hypothesis Hd : deref b r = PDict d.
Hypothesis Hstep : item_step i total r d b o b'.

Lemma item_step_no_raise : forall e, o <> Raise e.
Proof. destruct Hstep; discriminate. Qed.

Lemma item_step_skins :
  skins b' = skins b
  \/ exists md, skins b' = update_nth r (PDict (Py.dict_set d "market_data" md))
                             (skins b).
Proof.
  destruct Hstep; cbn; auto.
  - right. now exists md.
  - right. exists (error_entry e).
    now rewrite update_nth_twice, dict_set_twice.
Qed.

Lemma item_step_same_fields : same_fields (skins b) (skins b').
Proof.
  destruct item_step_skins as [->|(md & ->)].
  - apply same_fields_refl.
  - now apply same_fields_update.
Qed.

Lemma item_step_clean : clean b -> clean b'.
Proof.
  intros Hc.
  destruct Hstep as [Hn | m' md Hn Hmd | m' md e Hn Hbad | m' st Hn | m' Hn].
  - exact Hc.
  - apply (clean_recorded r d md (set_mach b m') Hc Hd Hmd).
  - intros x Hx. cbn in Hx. rewrite update_nth_twice in Hx.
    apply In_update_nth in Hx as [->|Hx]; [|now apply Hc].
    rewrite dict_set_twice. apply serializable_dict_set; [|reflexivity].
    apply Hc. now destruct (deref_In b r d Hd).
  - exact Hc.
  - exact Hc.
Qed.

Lemma item_step_all_dicts : all_dicts b -> all_dicts b'.
Proof.
  intros Ha x Hx. destruct item_step_skins as [E|(md & E)]; rewrite E in Hx.
  - now apply Ha.
  - apply In_update_nth in Hx as [->|Hx]; [eexists; reflexivity | now apply Ha].
Qed.

Lemma item_step_synced : synced b -> synced b'.
Proof.
  unfold synced. intros Hs.
  destruct Hstep as [Hn | m' md Hn Hmd | m' md e Hn Hbad | m' st Hn | m' Hn];
    first [exact Hs | reflexivity].
Qed.

(** Whether the step recorded the item, and how the file was rewritten. *)
Lemma item_step_recorded :
  Py.lookup d "name" <> None -> o = Ret tt ->
  (processed_skins b' = processed_skins b ++ [r]
   \/ processed_skins b' = processed_skins b ++ [r; r])
  /\ output_file b' = Document (records b')
  /\ exists h, file_history b' = Truncated :: h.
Proof.
  intros Hn Ho.
  destruct Hstep
    as [Hn' | m' md Hn' Hmd | m' md e Hn' Hbad | m' st Hn' | m' Hn'].
  - contradiction.
  - split; [now left|]. split; [reflexivity|]. eexists; reflexivity.
  - split; [right; cbn; now rewrite <- app_assoc|].
    split; [reflexivity|]. eexists; reflexivity.
  - discriminate Ho.
  - discriminate Ho.
Qed.

Lemma item_step_noted : noted b -> noted b'.
Proof.
  intros Hnoted.
  assert (Hset : forall md b0,
            skins b0 = skins b -> processed_skins b0 = processed_skins b ->
            noted (recorded r d md b0)).
  { intros md b0 Hsk Hpr r' Hr'. unfold recorded, deref in *. cbn in *.
    rewrite Hsk. rewrite Hpr in Hr'.
    destruct (Nat.eq_dec r r') as [<-|Hne].
    - destruct (deref_In b r d Hd) as [_ Hlt].
      rewrite nth_update_nth_same by exact Hlt. cbn.
      rewrite lookup_dict_set. cbn. now exists md.
    - rewrite nth_update_nth_other by exact Hne.
      apply in_app_or in Hr' as [Hr'|[E|[]]]; [now apply Hnoted | contradiction]. }
  destruct Hstep as [Hn | m' md Hn Hmd | m' md e Hn Hbad | m' st Hn | m' Hn];
    try exact Hnoted.
  - exact (Hset md (set_mach b m') eq_refl eq_refl).
  - intros r' Hr'. unfold deref in *. cbn in *.
    rewrite update_nth_twice.
    destruct (Nat.eq_dec r r') as [<-|Hne].
    + destruct (deref_In b r d Hd) as [_ Hlt].
      rewrite nth_update_nth_same by exact Hlt. cbn.
      rewrite lookup_dict_set. cbn. now exists (error_entry e).
    + rewrite nth_update_nth_other by exact Hne.
      apply in_app_or in Hr' as [Hr'|[E|[]]]; [|contradiction].
      apply in_app_or in Hr' as [Hr'|[E|[]]]; [now apply Hnoted | contradiction].
Qed.

Lemma item_step_skipped :
  Py.lookup d "name" = None ->
  o = Ret tt /\ b' = set_mach b (emit (Log (SkippingNoName i total)) (mach b)).
Proof.
  intros Hn.
  destruct Hstep
    as [Hn' | m' md Hn' Hmd | m' md e Hn' Hbad | m' st Hn' | m' Hn'];
    first [now split | contradiction].
Qed.

End StepFacts.

Lemma progress_trans (b1 b2 b3 : batch) :
  progress b1 b2 -> progress b2 b3 -> progress b1 b3.
Proof.
  intros [(P1 & O1 & H1) | (x1 & h1 & N1 & P1 & H1)]
         [(P2 & O2 & H2) | (x2 & h2 & N2 & P2 & H2)].
  - left. repeat split; congruence.
  - right. exists x2, h2. repeat split; congruence.
  - right. exists x1, h1. repeat split; congruence.
  - right. exists (x1 ++ x2), h2. repeat split; try assumption.
    + intros E. apply app_eq_nil in E as [E _]. contradiction.
    + rewrite P2, P1. now rewrite app_assoc.
Qed.

Lemma item_step_progress (i total r : nat) (d : dict) (b b' : batch)
    (o : outcome unit) :
  item_step i total r d b o b' -> progress b b'.
Proof.
  intros [Hn | m' md Hn Hmd | m' md e Hn Hbad | m' st Hn | m' Hn].
  - left. repeat split.
  - right. exists [r]. eexists. repeat split; discriminate.
  - right. exists [r; r]. eexists. repeat split; [discriminate|].
    cbn. now rewrite <- app_assoc.
  - left. repeat split.
  - left. repeat split.
Qed.

Section Loop.

Variable B : builtins.
Variable w : world.
Variable fuel : nat.

Lemma process_items_invariant (total : nat) (rs : list nat) :
  forall b,
    all_dicts b -> clean b ->
    (forall r, In r rs -> (r < List.length (skins b))%nat) ->
    exists o b',
      process_items B w fuel total rs b = (o, b')
      /\ (forall e, o <> Raise e)
      /\ all_dicts b' /\ clean b'
      /\ (synced b -> synced b')
      /\ same_fields (skins b) (skins b')
      /\ progress b b'
      /\ (noted b -> noted b').
Proof.
  induction rs as [|r rs IH]; intros b Ha Hc Hr.
  - exists (Ret tt), b. repeat split; try assumption; try discriminate; auto.
    left. repeat split.
  - assert (Hlt : (r < List.length (skins b))%nat) by (apply Hr; now left).
    destruct (Ha (deref b r)) as (d & Hd); [now apply nth_In|].
    destruct (process_item_dict B w fuel (S r) total r d b Hd Hc)
      as (o1 & b1 & Hrun & Hstep).
    pose proof (item_step_no_raise _ _ _ _ _ _ _ Hstep) as Hno.
    pose proof (item_step_same_fields _ _ _ _ _ _ _ Hd Hstep) as Hsf.
    pose proof (item_step_clean _ _ _ _ _ _ _ Hd Hstep Hc) as Hc1.
    pose proof (item_step_all_dicts _ _ _ _ _ _ _ Hstep Ha) as Ha1.
    pose proof (item_step_synced _ _ _ _ _ _ _ Hstep) as Hs1.
    pose proof (item_step_progress _ _ _ _ _ _ _ Hstep) as Hp1.
    pose proof (item_step_noted _ _ _ _ _ _ _ Hd Hstep) as Hn1.
    cbn [process_items]. unfold bind at 1. rewrite Hrun.
    destruct o1 as [[]|e|st|].
    + destruct (IH b1 Ha1 Hc1)
        as (o & b' & Hrun' & Hno' & Ha' & Hc' & Hs' & Hsf' & Hp' & Hn').
      { intros r' Hr'. rewrite (proj1 Hsf). apply Hr. now right. }
      exists o, b'.
      split; [exact Hrun'|]. split; [exact Hno'|]. split; [exact Ha'|].
      split; [exact Hc'|]. split; [auto|].
      split; [exact (same_fields_trans _ _ _ Hsf Hsf')|].
      split; [exact (progress_trans _ _ _ Hp1 Hp') | auto].
    + now elim (Hno e).
    + exists (Escape st), b1.
      split; [reflexivity|]. split; [discriminate|]. split; [exact Ha1|].
      split; [exact Hc1|]. split; [exact Hs1|]. split; [exact Hsf|].
      split; [exact Hp1 | exact Hn1].
    + exists Diverge, b1.
      split; [reflexivity|]. split; [discriminate|]. split; [exact Ha1|].
      split; [exact Hc1|]. split; [exact Hs1|]. split; [exact Hsf|].
      split; [exact Hp1 | exact Hn1].
Qed.

End Loop.

(** C2 (amended).  On a catalogue of dictionaries read from JSON, the loop
    never raises and, wherever it stands after an item, the output file is
    the complete document of exactly the records accumulated so far; when
    records were added the file has been rewritten as a whole, through the
    truncated state, so that the file can be seen empty between two
    documents. *)
Theorem checkpoint_after_every_item (B : builtins) (w : world) (fuel total : nat)
    (rs : list nat) (b : batch) :
  all_dicts b -> clean b ->
  (forall r, In r rs -> (r < List.length (skins b))%nat) ->
  output_file b = Document (records b) ->
  exists o b',
    process_items B w fuel total rs b = (o, b')
    /\ (forall e, o <> Raise e)
    /\ output_file b' = Document (records b')
    /\ List.length (records b') = List.length (processed_skins b')
    /\ progress b b'.
Proof.
  intros Ha Hc Hr Hs.
  destruct (process_items_invariant B w fuel total rs b Ha Hc Hr)
    as (o & b' & Hrun & Hno & _ & _ & Hs' & _ & Hp & _).
  exists o, b'. repeat split; try assumption.
  - now apply Hs'.
  - unfold records. apply length_map.
Qed.

Lemma checkpoint_after_every_item_example :
  let B := Demo.runtime in
  let w := Demo.market "[[1,3]]" "[[2,5]]" Demo.no_input in
  let b := Demo.loaded [Demo.redline; Demo.howl] in
  (all_dicts b /\ clean b
   /\ (forall r, In r [0; 1]%nat -> (r < List.length (skins b))%nat)
   /\ output_file b = Document (records b))
  /\ exists o b',
       process_items B w 1 2 [0; 1]%nat b = (o, b')
       /\ (forall e, o <> Raise e)
       /\ output_file b' = Document (records b')
       /\ List.length (records b') = List.length (processed_skins b')
       /\ progress b b'.
Proof.
  intros B w b.
  assert (Ha : all_dicts b).
  { intros x [<-|[<-|[]]]; eexists; reflexivity. }
  assert (Hc : clean b).
  { intros x [<-|[<-|[]]]; reflexivity. }
  assert (Hr : forall r, In r [0; 1]%nat -> (r < List.length (skins b))%nat).
  { intros r [<-|[<-|[]]]; cbn; lia. }
  assert (Hs : output_file b = Document (records b)) by reflexivity.
  split.
  - repeat (split; [assumption|]). assumption.
  - exact (checkpoint_after_every_item B w 1 2 [0; 1]%nat b Ha Hc Hr Hs).
Defined.

(** It fails: every write opens the file with mode [w], which empties it
    before the new document is written. *)
Lemma checkpoint_seen_truncated : ~ checkpoint_never_partial.
Proof.
  intros H.
  set (B := Demo.runtime).
  set (w := Demo.market "[[1,3]]" "[[2,5]]"
              (Demo.catalogue [Demo.redline; Demo.howl])).
  specialize (H B w 1%nat 1000 (fst (process_all_skins B w 1 (initial 1000)))
                (snd (process_all_skins B w 1 (initial 1000)))
                (surjective_pairing _) Truncated).
  destruct H as [H | (l & H)]; try discriminate H.
  vm_compute. right. left. reflexivity.
Qed.

Example checkpoint_history :
  let run := process_all_skins Demo.runtime
               (Demo.market "[[1,3]]" "[[2,5]]"
                  (Demo.catalogue [Demo.redline; Demo.howl]))
               1 (initial 1000) in
  fst run = Ret tt
  /\ processed_skins (snd run) = [0; 1]%nat
  /\ exists first second,
       output_file (snd run) = Document [first; second]
       /\ file_history (snd run)
          = [Truncated; Document [first]; Truncated; Document [];
             Truncated; Untouched].
Proof.
  vm_compute. split; [reflexivity|]. split; [reflexivity|].
  eexists; eexists; split; reflexivity.
Qed.

(** ** Items without a usable name *)

Lemma split_from_single (sep : string) (s : string) :
  index 0 sep s = None ->
  forall cur, exists piece, Text.split_from sep 0 cur s = [piece].
Proof.
  induction s as [|c s IH]; intros Hi cur.
  - eexists; reflexivity.
  - cbn [index] in Hi. cbn [Text.split_from].
    destruct (prefix sep (String c s)); [discriminate Hi|].
    apply IH. destruct (index 0 sep s); [discriminate Hi | reflexivity].
Qed.

Lemma split_single (sep s : string) :
  Py.substring_of sep s = false -> exists piece, Text.split sep s = [piece].
Proof.
  unfold Py.substring_of, Text.split. intros H.
  apply split_from_single. destruct (index 0 sep s); [discriminate H | reflexivity].
Qed.

Lemma hashname_of_no_separator (B : builtins) (d : dict) (s : string) :
  Py.lookup d "name" = Some (PStr s) ->
  Py.substring_of " | " s = false ->
  hashname_of B (PDict d) = Err index_error.
Proof.
  intros Hn Hs. unfold hashname_of. cbn [Py.getitem_key]. rewrite Hn.
  cbn [rbind Py.split].
  destruct (split_single " | " s Hs) as (piece & ->). reflexivity.
Qed.

(** C9.  For an item that is a dictionary of a catalogue read from JSON:
    it is skipped exactly when it has no name key; and when its name is a
    text without the separator, the index error is caught, no request is
    sent, and the item is appended and written out with that error as its
    market data. *)
Theorem name_without_separator_recorded (B : builtins) (w : world)
    (fuel i total r : nat) (d : dict) (b : batch) :
  deref b r = PDict d -> clean b ->
  (skipped b (process_item B w fuel i total r b) <-> Py.lookup d "name" = None)
  /\ forall s,
       Py.lookup d "name" = Some (PStr s) ->
       Py.substring_of " | " s = false ->
       let logged :=
         set_mach b (emit (Log (ErrorProcessing i total (PStr s) index_error))
                          (mach b)) in
       let b1 := recorded r d (error_entry index_error) logged in
       process_item B w fuel i total r b
       = (Ret tt, set_file (Document (records b1)) (set_file Truncated b1)).
Proof.
  intros Hd Hc. split.
  - destruct (process_item_dict B w fuel i total r d b Hd Hc)
      as (o & b' & Hrun & Hstep).
    rewrite Hrun. unfold skipped. cbn [fst snd]. split.
    + intros (Ho & Hp & _ & _).
      destruct (Py.lookup d "name") as [v|] eqn:Hn; [|reflexivity].
      assert (Hnn : Py.lookup d "name" <> None) by (rewrite Hn; discriminate).
      destruct (item_step_recorded _ _ _ _ _ _ _ Hstep Hnn Ho) as ([E|E] & _);
        rewrite Hp in E;
        apply (f_equal (@List.length nat)) in E;
        rewrite length_app in E; cbn in E; lia.
    + intros Hn.
      destruct (item_step_skipped _ _ _ _ _ _ _ Hstep Hn) as [-> ->].
      repeat split.
  - intros s Hn Hs logged b1.
    assert (Hc1 : clean (recorded r d (error_entry index_error) b)).
    { now apply clean_recorded. }
    unfold process_item, try_except.
    rewrite process_skin_unfold, Hd. cbn [Py.contains]. rewrite Hn.
    rewrite (hashname_of_no_separator B d s Hn Hs).
    rewrite (record_error_ok i total r d index_error b Hd Hc1).
    unfold name_or_unknown. rewrite Hn. reflexivity.
Qed.

Lemma name_without_separator_example :
  let B := Demo.runtime in
  let w := Demo.market "[[1,3]]" "[[2,5]]" Demo.no_input in
  let d := [("name", PStr "AK-47 Redline")] in
  let b := Demo.loaded [PDict d] in
  (deref b 0 = PDict d /\ clean b)
  /\ (skipped b (process_item B w 1 1 1 0 b) <-> Py.lookup d "name" = None)
  /\ forall s,
       Py.lookup d "name" = Some (PStr s) ->
       Py.substring_of " | " s = false ->
       let logged :=
         set_mach b (emit (Log (ErrorProcessing 1 1 (PStr s) index_error))
                          (mach b)) in
       let b1 := recorded 0 d (error_entry index_error) logged in
       process_item B w 1 1 1 0 b
       = (Ret tt, set_file (Document (records b1)) (set_file Truncated b1)).
Proof.
  intros B w d b.
  assert (Hd : deref b 0 = PDict d) by reflexivity.
  assert (Hc : clean b) by (intros x [<-|[]]; reflexivity).
  split; [now split|].
  exact (name_without_separator_recorded B w 1 1 1 0 d b Hd Hc).
Defined.

Example name_without_separator_run :
  let run := process_item Demo.runtime
               (Demo.market "[[1,3]]" "[[2,5]]" Demo.no_input) 1 1 1 0
               (Demo.loaded [PDict [("name", PStr "AK-47 Redline")]]) in
  fst run = Ret tt
  /\ processed_skins (snd run) = [0%nat]
  /\ dispatched (mach (snd run)) = 0%nat
  /\ output_file (snd run)
     = Document [PDict [("name", PStr "AK-47 Redline");
                        ("market_data",
                         PDict [("error", PStr "list index out of range")])]].
Proof. vm_compute. repeat split. Qed.

(** ** The whole run *)

Section Run.

Variable B : builtins.
Variable w : world.
Variable fuel : nat.

Lemma process_all_skins_no_input (b : batch) (e : exc) :
  input_file w = Err e ->
  process_all_skins B w fuel b
  = (Ret tt, set_mach b (emit (Log (failure_entry e)) (mach b))).
Proof.
  intros H. unfold process_all_skins, try_except, bind, lift. rewrite H.
  unfold failure_entry. destruct (exc_cls e); reflexivity.
Qed.

Lemma process_all_skins_returns (b : batch) (e : exc) :
  fst (process_all_skins B w fuel b) <> Raise e.
Proof.
  unfold process_all_skins, try_except.
  match goal with |- context [match ?c b with _ => _ end] =>
    destruct (c b) as [[[]|e'|st|] b1]
  end; try discriminate.
  destruct (exc_cls e'); discriminate.
Qed.

Lemma process_all_skins_loaded (b : batch) (items : list pyval) :
  input_file w = Ok (PList items) ->
  process_all_skins B w fuel b
  = match process_items B w fuel (List.length items)
            (seq 0 (List.length items)) (loop_start items b) with
    | (Ret u, b') => (Ret u, set_mach b' (close (mach b')))
    | (Raise e, b') =>
        let b' := set_mach b' (close (mach b')) in
        (Ret tt, set_mach b' (emit (Log (failure_entry e)) (mach b')))
    | (Escape status, b') => (Escape status, set_mach b' (close (mach b')))
    | (Diverge, b') => (Diverge, b')
    end.
Proof.
  intros H.
  unfold process_all_skins, try_except, try_finally, bind, lift. rewrite H.
  cbn [Py.len Py.iter]. unfold modify, dump, on_machine. cbn [Py.unserializable].
  change (set_processed [] _) with (loop_start items b).
  destruct (process_items B w fuel (List.length items)
              (seq 0 (List.length items)) (loop_start items b))
    as [[u|e|st|] b']; try reflexivity.
  unfold failure_entry. destruct (exc_cls e); reflexivity.
Qed.

Lemma run_invariant (b : batch) (items : list pyval) :
  input_file w = Ok (PList items) ->
  (forall x, In x items -> exists d, x = PDict d) ->
  (forall x, In x items -> serializable x) ->
  exists o b',
    process_all_skins B w fuel b = (o, b')
    /\ (forall e, o <> Raise e)
    /\ same_fields items (skins b')
    /\ synced b'
    /\ progress (loop_start items b) b'
    /\ noted b'.
Proof.
  intros Hin Ha Hc. rewrite (process_all_skins_loaded b items Hin).
  destruct (process_items_invariant B w fuel (List.length items)
              (seq 0 (List.length items)) (loop_start items b))
    as (o & b' & Hrun & Hno & _ & _ & Hs & Hsf & Hp & Hn).
  - exact Ha.
  - exact Hc.
  - intros r Hr. apply in_seq in Hr. cbn. lia.
  - assert (Hn' : noted b') by (apply Hn; intros r []).
    rewrite Hrun. destruct o as [u|e|st|].
    + eexists; eexists. split; [reflexivity|]. split; [discriminate|].
      split; [exact Hsf|]. split; [now apply Hs|]. split; [exact Hp | exact Hn'].
    + now elim (Hno e).
    + eexists; eexists. split; [reflexivity|]. split; [discriminate|].
      split; [exact Hsf|]. split; [now apply Hs|]. split; [exact Hp | exact Hn'].
    + eexists; eexists. split; [reflexivity|]. split; [discriminate|].
      split; [exact Hsf|]. split; [now apply Hs|]. split; [exact Hp | exact Hn'].
Qed.

End Run.

(** C6 (amended).  When the input file is missing or is not valid JSON the
    run does nothing but log the failure: no request is sent, the output
    file is not touched and nothing is recorded.  [process_all_skins] then
    returns normally, so the exit status of the script is 0 in this case.
    Whatever the input, no exception of class [Exception] leaves
    [process_all_skins]: a run that ends has exit status 0, unless an
    exception that is not of that class was raised in it, whose status is
    then the exit status. *)
Theorem missing_input_stops_quietly (B : builtins) (w : world) (fuel : nat)
    (b : batch) (e : exc) :
  input_file w = Err e ->
  process_all_skins B w fuel b
  = (Ret tt, set_mach b (emit (Log (failure_entry e)) (mach b)))
  /\ main B w fuel b = Some 0%Z
  /\ (forall (w' : world) (b0 : batch) (status : Z),
        main B w' fuel b0 = Some status ->
        status = 0%Z
        \/ fst (process_all_skins B w' fuel b0) = Escape status).
Proof.
  intros H. pose proof (process_all_skins_no_input B w fuel b e H) as Hrun.
  split; [exact Hrun|]. split.
  - unfold main. now rewrite Hrun.
  - intros w' b0 status. unfold main.
    pose proof (process_all_skins_returns B w' fuel b0) as Hret.
    destruct (fst (process_all_skins B w' fuel b0)) as [u|e'|st|];
      intros Hst; try discriminate Hst.
    + left. now injection Hst as <-.
    + now elim (Hret e').
    + right. now injection Hst as <-.
Qed.

Lemma missing_input_example :
  let w := Demo.market "[[1,3]]" "[[2,5]]" Demo.no_input in
  let b := initial 1000 in
  input_file w = Demo.no_input
  /\ process_all_skins Demo.runtime w 1 b
     = (Ret tt, set_mach b (emit (Log InputNotFound) (mach b)))
  /\ main Demo.runtime w 1 b = Some 0%Z
  /\ (forall (w' : world) (b0 : batch) (status : Z),
        main Demo.runtime w' 1 b0 = Some status ->
        status = 0%Z
        \/ fst (process_all_skins Demo.runtime w' 1 b0) = Escape status).
Proof.
  intros w b. split; [reflexivity|].
  exact (missing_input_stops_quietly Demo.runtime w 1 b _ eq_refl).
Defined.

(** It fails: the handlers of [process_all_skins] log the failure and
    return, and nothing sets an exit status. *)
Lemma exit_status_ignores_input : ~ exit_status_reflects_input.
Proof.
  intros H.
  destruct (H Demo.runtime (Demo.market "[[1,3]]" "[[2,5]]" Demo.no_input)
              1%nat (initial 1000)) as [H1 _].
  assert (Hbad : main Demo.runtime
                   (Demo.market "[[1,3]]" "[[2,5]]" Demo.no_input)
                   1 (initial 1000) = Some 1%Z).
  { apply H1. eexists. reflexivity. }
  vm_compute in Hbad. discriminate Hbad.
Qed.

(** A served graph text that calls [exit] ends the run where it stands,
    with the status it names: the client is closed and the item is not
    recorded. *)
Example served_exit_ends_the_run :
  let w := Demo.market Demo.exits "[[2,5]]"
             (Demo.catalogue [Demo.redline; Demo.howl]) in
  let run := process_all_skins Demo.interpreter w 1 (initial 1000) in
  fst run = Escape 3
  /\ main Demo.interpreter w 1 (initial 1000) = Some 3%Z
  /\ processed_skins (snd run) = []
  /\ dispatched (mach (snd run)) = 2%nat
  /\ hd (Log InputNotFound) (trace (mach (snd run))) = Closed.
Proof. vm_compute. repeat split. Qed.

(** Other inputs end the run as well: a JSON document that is not a
    sequence stops it before any item, and an item that is not an object
    stops it where it stands, the later items never being processed. *)
Example number_as_input :
  let run := process_all_skins Demo.runtime
               (Demo.market "[[1,3]]" "[[2,5]]" (Ok (PInt 5))) 1 (initial 1000) in
  fst run = Ret tt
  /\ output_file (snd run) = Untouched
  /\ trace (mach (snd run))
     = [Log (Unexpected (mkExc TypeError "object of type 'int' has no len()"))].
Proof. vm_compute. repeat split. Qed.

Example number_as_item :
  let run := process_all_skins Demo.runtime
               (Demo.market "[[1,3]]" "[[2,5]]"
                  (Demo.catalogue [PInt 5; Demo.redline]))
               1 (initial 1000) in
  fst run = Ret tt
  /\ processed_skins (snd run) = []
  /\ dispatched (mach (snd run)) = 0%nat
  /\ trace (mach (snd run))
     = [Log (Unexpected (mkExc AttributeError
                                "'int' object has no attribute 'get'"));
        Closed].
Proof. vm_compute. repeat split. Qed.

(** C7 (amended).  On a catalogue of dictionaries read from JSON, a run
    changes no field of any item except market_data; every item it records
    has had market_data set on the item object itself; and the records
    written to the output file are these same objects. *)
Theorem items_keep_other_fields (B : builtins) (w : world) (fuel : nat)
    (b : batch) (items : list pyval) :
  input_file w = Ok (PList items) ->
  (forall x, In x items -> exists d, x = PDict d) ->
  (forall x, In x items -> serializable x) ->
  exists o b',
    process_all_skins B w fuel b = (o, b')
    /\ List.length (skins b') = List.length items
    /\ (forall r key, key <> "market_data" ->
          field (nth r (skins b') PNone) key = field (nth r items PNone) key)
    /\ (forall r, In r (processed_skins b') ->
          exists md, field (nth r (skins b') PNone) "market_data" = Some md)
    /\ output_file b'
       = Document (map (fun r => nth r (skins b') PNone) (processed_skins b')).
Proof.
  intros Hin Ha Hc.
  destruct (run_invariant B w fuel b items Hin Ha Hc)
    as (o & b' & Hrun & _ & [Hlen Hf] & Hs & _ & Hn).
  exists o, b'. repeat split; assumption.
Qed.

Lemma items_keep_other_fields_example :
  let w := Demo.market "[[1,3]]" "[[2,5]]"
             (Demo.catalogue [Demo.redline; Demo.howl]) in
  let items := [Demo.redline; Demo.howl] in
  (input_file w = Ok (PList items)
   /\ (forall x, In x items -> exists d, x = PDict d)
   /\ (forall x, In x items -> serializable x))
  /\ exists o b',
       process_all_skins Demo.runtime w 1 (initial 1000) = (o, b')
       /\ List.length (skins b') = List.length items
       /\ (forall r key, key <> "market_data" ->
             field (nth r (skins b') PNone) key = field (nth r items PNone) key)
       /\ (forall r, In r (processed_skins b') ->
             exists md, field (nth r (skins b') PNone) "market_data" = Some md)
       /\ output_file b'
          = Document (map (fun r => nth r (skins b') PNone) (processed_skins b')).
Proof.
  intros w items.
  assert (Ha : forall x, In x items -> exists d, x = PDict d).
  { intros x [<-|[<-|[]]]; eexists; reflexivity. }
  assert (Hc : forall x, In x items -> serializable x).
  { intros x [<-|[<-|[]]]; reflexivity. }
  split; [split; [reflexivity | split; assumption]|].
  exact (items_keep_other_fields Demo.runtime w 1 (initial 1000) items
           eq_refl Ha Hc).
Defined.

(** It fails: [skin['market_data'] = ...] writes into the loaded item,
    and replaces a market_data field the item came with. *)
Lemma catalogue_item_mutated : ~ catalogue_untouched.
Proof.
  intros H.
  set (item := PDict [("name", PStr "AK-47 | Redline");
                      ("market_data", PStr "as loaded")]).
  set (w := Demo.market "[[1,3]]" "[[2,5]]" (Demo.catalogue [item])).
  specialize (H Demo.runtime w 1%nat 1000 [item]
                (fst (process_all_skins Demo.runtime w 1 (initial 1000)))
                (snd (process_all_skins Demo.runtime w 1 (initial 1000)))
                eq_refl (surjective_pairing _)).
  vm_compute in H. discriminate H.
Qed.

Example market_data_overwritten :
  let item := PDict [("name", PStr "AK-47"); ("market_data", PStr "as loaded")] in
  let run := process_all_skins Demo.runtime
               (Demo.market "[[1,3]]" "[[2,5]]" (Demo.catalogue [item]))
               1 (initial 1000) in
  skins (snd run)
  = [PDict [("name", PStr "AK-47");
            ("market_data", PDict [("error", PStr "list index out of range")])]].
Proof. vm_compute. reflexivity. Qed.

(** C1 at a failing input.  One item, and a histogram whose buy graph
    evaluates to a list holding [Ellipsis]: the fetch succeeds, the item is
    appended, [json.dump] raises on the object it cannot serialise, and the
    handler appends the same item again.  The output file ends with two
    records for the one item. *)
Theorem item_recorded_twice :
  let run := process_all_skins Demo.runtime
               (Demo.market "[[1,...]]" "[[2,5]]" (Demo.catalogue [Demo.redline]))
               1 (initial 1000) in
  let record :=
    PDict [("name", PStr "AK-47 | Redline");
           ("market_data",
            PDict [("error",
                    PStr "Object of type ellipsis is not JSON serializable")])] in
  fst run = Ret tt
  /\ List.length (skins (snd run)) = 1%nat
  /\ processed_skins (snd run) = [0; 0]%nat
  /\ output_file (snd run) = Document [record; record]
  /\ file_history (snd run)
     = [Truncated; Partial; Truncated; Document []; Truncated; Untouched].
Proof. vm_compute. repeat split. Qed.

(** ** One record per item when every write succeeds *)

Section JsonRuntime.

Variable B : builtins.
Variable w : world.
Hypothesis HB : json_runtime B w.
Variable fuel : nat.

Lemma iter_serializable (v : pyval) (l : list pyval) :
  serializable v -> Py.iter v = Ok l -> forall x, In x l -> serializable x.
Proof.
  intros Hv Hl x Hx. destruct v; try discriminate Hl; injection Hl as <-.
  - clear Hv. induction s as [|c s IH]; cbn in Hx; [contradiction|].
    destruct Hx as [<-|Hx]; [reflexivity | now apply IH].
  - exact (proj1 (serializable_list _) Hv x Hx).
  - apply in_map_iff in Hx. destruct Hx as (kv & <- & _). reflexivity.
Qed.

Lemma getitem_serializable (v x : pyval) (i : nat) :
  serializable v -> Py.getitem B v i = Ok x -> serializable x.
Proof.
  intros Hv Hx. destruct v; try discriminate Hx; cbn in Hx.
  - destruct (String.get i s); [|discriminate Hx]. now injection Hx as <-.
  - destruct (nth_error l i) eqn:E; [|discriminate Hx]. injection Hx as <-.
    apply (proj1 (serializable_list _) Hv). now apply nth_error_In with i.
Qed.

Lemma map_result_serializable (l entries : list pyval) :
  (forall x, In x l -> serializable x) ->
  map_result (order_entry B) l = Ok entries ->
  forall y, In y entries -> serializable y.
Proof.
  revert entries. induction l as [|x l IH]; intros entries Hl Hm y Hy.
  - injection Hm as <-. contradiction.
  - cbn [map_result] in Hm.
    destruct (order_entry B x) as [c|e] eqn:Ec; [|discriminate Hm].
    cbn [rbind] in Hm.
    destruct (map_result (order_entry B) l) as [cs|e] eqn:Ecs;
      [|discriminate Hm].
    injection Hm as <-. destruct Hy as [<-|Hy].
    + unfold order_entry in Ec.
      destruct (Py.getitem B x 0) as [first|e] eqn:E0; [|discriminate Ec].
      cbn [rbind] in Ec.
      destruct (py_float B first) as [price|e] eqn:Ef; [|discriminate Ec].
      cbn [rbind] in Ec.
      destruct (Py.getitem B x 1) as [count|e] eqn:E1; [|discriminate Ec].
      injection Ec as <-. apply serializable_dict.
      intros k z [E|[E|[]]]; injection E as <- <-.
      * exact (float_serializable B w HB _ _ Ef).
      * apply (getitem_serializable x count 1); [|exact E1].
        apply Hl. now left.
    + apply (IH cs); auto. intros z Hz. apply Hl. now right.
Qed.

Lemma orders_of_serializable (graph v : pyval) :
  serializable graph -> orders_of B graph = Ok v -> serializable v.
Proof.
  intros Hg. unfold orders_of.
  destruct (Py.iter graph) as [orders|e] eqn:Ei; [|discriminate]. cbn [rbind].
  destruct (map_result (order_entry B) orders) as [entries|e] eqn:Em;
    [|discriminate].
  intros H. injection H as <-. apply serializable_list.
  apply (map_result_serializable orders entries); [|exact Em].
  exact (iter_serializable graph orders Hg Ei).
Qed.

Lemma price_field_serializable (label order_data : string) (v : pyval) :
  price_field B label order_data = Ok v -> serializable v.
Proof.
  unfold price_field.
  destruct (field_after label order_data) as [f|e]; [|discriminate].
  cbn [rbind]. destruct (py_int B f) as [z|e]; [|discriminate]. cbn [rbind].
  apply (truediv_serializable B w HB).
Qed.

Lemma item_data_serializable (hashname : string) (m m' : machine) (data : dict) :
  item_data B w fuel hashname m = (Ret data, m') -> serializable (PDict data).
Proof.
  intros H.
  destruct (item_data_shape B w fuel hashname m m' data H)
    as (m1 & m2 & id & resp & b & s & d & bo & so & v
        & _ & H2 & Hb & Hs & Hd & -> & Hshape & Hgraphs).
  rewrite (Hd (eval_keeps_data B w HB)).
  assert (Hbo : serializable (PList bo) /\ serializable (PList so)).
  { destruct Hgraphs as [[-> ->] | (g1 & g2 & sc1 & sc2 & E1 & E2 & O1 & O2)];
      [now split|].
    split.
    - apply (orders_of_serializable g1); [|exact O1].
      apply (eval_serializable B w HB _ _ _ _
               (served_graph_texts w _ _ _ _ _ _ H2 (or_introl eq_refl)) E1).
    - apply (orders_of_serializable g2); [|exact O2].
      apply (eval_serializable B w HB _ _ _ _
               (served_graph_texts w _ _ _ _ _ _ H2 (or_intror eq_refl)) E2). }
  destruct Hbo as [Hbo Hso].
  apply serializable_dict.
  intros k x [E|[E|[E|[E|[E|[E|[]]]]]]]; injection E as <- <-.
  - exact (price_field_serializable _ _ _ Hb).
  - exact (price_field_serializable _ _ _ Hs).
  - exact Hbo.
  - exact Hso.
  - destruct Hshape as [->|(z & ->)]; reflexivity.
  - reflexivity.
Qed.

(** With such a runtime a named item is recorded once. *)
Lemma process_item_once (i total r : nat) (d : dict) (b b' : batch) :
  deref b r = PDict d -> clean b ->
  Py.lookup d "name" <> None ->
  process_item B w fuel i total r b = (Ret tt, b') ->
  processed_skins b' = processed_skins b ++ [r].
Proof.
  intros Hd Hc Hn. unfold process_item, try_except.
  rewrite process_skin_unfold, Hd. cbn [Py.contains].
  destruct (Py.lookup d "name") as [v|]; [clear Hn | now elim Hn].
  assert (Herr : forall e m,
             record_error i total r e (set_mach b m) = (Ret tt, b') ->
             processed_skins b' = processed_skins b ++ [r]).
  { intros e m.
    rewrite (record_error_ok i total r d e (set_mach b m) Hd).
    - intros H. now injection H as <-.
    - now apply (clean_recorded r d (error_entry e) (set_mach b m) Hc Hd). }
  destruct (hashname_of B (PDict d)) as [h|e].
  - destruct (item_data B w fuel h (mach b)) as [[md|e|st|] m'] eqn:Hfetch.
    + rewrite (store_and_dump_dict r d md (set_mach b m') Hd).
      rewrite dump_ok.
      * intros H. now injection H as <-.
      * apply clean_records.
        apply (clean_recorded r d (PDict md) (set_mach b m') Hc Hd).
        exact (item_data_serializable h (mach b) m' md Hfetch).
    + apply Herr.
    + discriminate.
    + discriminate.
  - intros H. apply (Herr e (mach b)). destruct b; exact H.
Qed.

End JsonRuntime.

(** With a runtime and a marketplace that only produce JSON values, a loop
    that comes back has recorded each item that has a name exactly once, in
    order, and no other. *)
Lemma one_record_per_named_item (B : builtins) (w : world) (fuel total : nat)
    (rs : list nat) :
  json_runtime B w ->
  forall b b',
    all_dicts b -> clean b ->
    (forall r, In r rs -> (r < List.length (skins b))%nat) ->
    process_items B w fuel total rs b = (Ret tt, b') ->
    processed_skins b'
    = processed_skins b ++ filter (fun r => has_name (deref b r)) rs.
Proof.
  intros HB. induction rs as [|r rs IH]; intros b b' Ha Hc Hr Hrun.
  - cbn in Hrun. injection Hrun as <-. cbn. now rewrite app_nil_r.
  - assert (Hlt : (r < List.length (skins b))%nat) by (apply Hr; now left).
    destruct (Ha (deref b r)) as (d & Hd); [now apply nth_In|].
    destruct (process_item_dict B w fuel (S r) total r d b Hd Hc)
      as (o1 & b1 & Hrun1 & Hstep).
    pose proof (item_step_same_fields _ _ _ _ _ _ _ Hd Hstep) as [Hlen Hf].
    pose proof (item_step_clean _ _ _ _ _ _ _ Hd Hstep Hc) as Hc1.
    pose proof (item_step_all_dicts _ _ _ _ _ _ _ Hstep Ha) as Ha1.
    cbn [process_items] in Hrun. unfold bind at 1 in Hrun. rewrite Hrun1 in Hrun.
    destruct o1 as [[]|e|st|]; try discriminate Hrun.
    assert (Hr1 : forall r', In r' rs -> (r' < List.length (skins b1))%nat).
    { intros r' Hr'. rewrite Hlen. apply Hr. now right. }
    rewrite (IH b1 b' Ha1 Hc1 Hr1 Hrun).
    assert (Hsame : filter (fun r' => has_name (deref b1 r')) rs
                    = filter (fun r' => has_name (deref b r')) rs).
    { apply filter_ext. intros r'. unfold has_name, deref.
      rewrite Hf by discriminate. reflexivity. }
    rewrite Hsame. cbn [filter]. unfold has_name at 2. rewrite Hd. cbn [field].
    destruct (Py.lookup d "name") as [v|] eqn:Hn.
    + assert (Hnn : Py.lookup d "name" <> None) by (rewrite Hn; discriminate).
      rewrite (process_item_once B w HB fuel (S r) total r d b b1 Hd Hc Hnn Hrun1).
      now rewrite <- app_assoc.
    + destruct (item_step_skipped _ _ _ _ _ _ _ Hstep Hn) as [_ ->].
      reflexivity.
Qed.

(* ================================================================== *)
(** * Further properties *)

(** ** [get_hashname]: what it accepts and what it returns *)

Lemma no_space_app (a b : string) :
  no_space (a ++ b)%string = no_space a && no_space b.
Proof.
  induction a as [|c a IH]; [reflexivity|].
  cbn. rewrite IH. now rewrite andb_assoc.
Qed.

Lemma no_space_enc (s : string) : no_space (enc s) = true.
Proof.
  induction s as [|c s IH]; [reflexivity|].
  cbn [enc]. destruct (Ascii.eqb c " ") eqn:E.
  - cbn. exact IH.
  - cbn. now rewrite E, IH.
Qed.

Lemma float_conditions_no_space (z : Z) (suffix : string) :
  assoc_Z float_conditions z = Some suffix -> no_space suffix = true.
Proof.
  unfold float_conditions. cbn [assoc_Z].
  repeat match goal with
         | |- context [Z.eqb ?a z] => destruct (Z.eqb a z)
         end;
    intros H; first [discriminate H | injection H as <-; reflexivity].
Qed.

(** Whatever the names, the wear and the flag, a hashname that is returned
    contains no space: it can be put in an address as it is. *)
Theorem get_hashname_no_space (B : builtins) (item skin : string)
    (wear stat : pyval) (h : string) :
  get_hashname B item skin wear stat = Ok h -> no_space h = true.
Proof.
  unfold get_hashname, float_conditions_getitem. rewrite !replace_space.
  destruct (Py.hashable wear); [|discriminate].
  destruct (Py.as_int_key wear) as [z|]; [|discriminate].
  destruct (assoc_Z float_conditions z) as [suffix|] eqn:E; [|discriminate].
  cbn [rbind]. intros H. injection H as <-.
  pose proof (float_conditions_no_space z suffix E) as Hs.
  destruct (eq_one stat);
    repeat (cbn; rewrite ?no_space_app, ?no_space_enc, ?Hs); reflexivity.
Qed.

Lemma get_hashname_no_space_example :
  get_hashname Demo.runtime "Desert Eagle" "Golden Koi" (PInt 3) (PBool true)
  = Ok "StatTrak™%20Desert%20Eagle%20%7C%20Golden%20Koi%20%28Well-Worn%29"
  /\ no_space "StatTrak™%20Desert%20Eagle%20%7C%20Golden%20Koi%20%28Well-Worn%29"
     = true.
Proof.
  split; [reflexivity|].
  exact (get_hashname_no_space Demo.runtime "Desert Eagle" "Golden Koi"
           (PInt 3) (PBool true) _ eq_refl).
Defined.

(** An integer wear is accepted exactly when it lies in 0..4; any other
    integer raises [KeyError] carrying the wear, whatever the names and the
    flag, and before anything else is looked at. *)
Theorem get_hashname_wear_range (B : builtins) (item skin : string) (t : Z)
    (stat : pyval) :
  (valid_wear t <-> exists h, get_hashname B item skin (PInt t) stat = Ok h)
  /\ (~ valid_wear t <->
      get_hashname B item skin (PInt t) stat
      = Err (mkExc KeyError (py_repr B (PInt t)))).
Proof.
  unfold get_hashname, float_conditions_getitem, valid_wear.
  cbn [Py.hashable Py.as_int_key].
  assert (Hcase : (0 <= t <= 4)%Z /\ (exists s, assoc_Z float_conditions t = Some s)
                  \/ ~ (0 <= t <= 4)%Z /\ assoc_Z float_conditions t = None).
  { unfold float_conditions. cbn [assoc_Z].
    destruct (Z.eqb_spec 0 t); [left; split; [lia | eexists; reflexivity]|].
    destruct (Z.eqb_spec 1 t); [left; split; [lia | eexists; reflexivity]|].
    destruct (Z.eqb_spec 2 t); [left; split; [lia | eexists; reflexivity]|].
    destruct (Z.eqb_spec 3 t); [left; split; [lia | eexists; reflexivity]|].
    destruct (Z.eqb_spec 4 t); [left; split; [lia | eexists; reflexivity]|].
    right. split; [lia | reflexivity]. }
  destruct Hcase as [[Hin (s & ->)] | [Hout ->]]; cbn [rbind Py.raise].
  - split; split; intros H; try assumption.
    + eexists; reflexivity.
    + contradiction.
    + discriminate H.
  - split; split; intros H; try assumption; try reflexivity.
    + contradiction.
    + destruct H as (h & H). discriminate H.
Qed.

Lemma get_hashname_wear_range_example :
  ~ valid_wear 7
  /\ get_hashname Demo.runtime "AK-47" "Redline" (PInt 7) (PInt 0)
     = Err (mkExc KeyError "7").
Proof.
  assert (Hn : ~ valid_wear 7) by (unfold valid_wear; lia).
  split; [exact Hn|].
  exact (proj1 (proj2 (get_hashname_wear_range Demo.runtime "AK-47" "Redline"
                         7 (PInt 0))) Hn).
Defined.

Lemma unquote_cons (c : ascii) (s : string) :
  Ascii.eqb c "%" = false -> unquote (String c s) = String c (unquote s).
Proof. intros H. cbn [unquote]. now rewrite H. Qed.

Lemma unquote_enc (x rest : string) :
  plain x = true -> unquote (enc x ++ rest)%string = (x ++ unquote rest)%string.
Proof.
  intros Hx. induction x as [|c x IH]; [reflexivity|].
  cbn [plain] in Hx. apply andb_prop in Hx as [Hc Hx]. specialize (IH Hx).
  apply negb_true_iff in Hc. cbn [enc].
  destruct (Ascii.eqb_spec c " ") as [->|Hsp].
  - change (unquote (("%20" ++ enc x) ++ rest)%string)
      with (String " " (unquote (enc x ++ rest)%string)).
    now rewrite IH.
  - cbn [append]. rewrite (unquote_cons c _ Hc). now rewrite IH.
Qed.

Lemma unquote_wear_tail (t : Z) :
  valid_wear t -> unquote (wear_tail t) = ("(" ++ wear_name t ++ ")")%string.
Proof. intros Ht; wear_cases Ht; reflexivity. Qed.

(** Decoding the per-cent escapes of a hashname gives back the name the
    marketplace displays: the weapon, preceded by the StatTrak marker when
    the flag is set, a bar, the skin and the wear in words.  This holds for
    names without a per-cent sign. *)
Theorem get_hashname_unquote (B : builtins) (weapon skin : string) (t f : Z) :
  valid_wear t -> valid_flag f ->
  plain weapon = true -> plain skin = true ->
  exists h,
    get_hashname B weapon skin (PInt t) (PInt f) = Ok h
    /\ unquote h = display_name weapon skin t f.
Proof.
  intros Ht Hf Pw Ps.
  rewrite (get_hashname_shape B weapon skin t f Ht Hf).
  eexists; split; [reflexivity|].
  rewrite unquote_enc
    by (rewrite !plain_app, marker_plain, Pw; reflexivity).
  change (unquote ("%7C%20" ++ enc (skin ++ " ") ++ wear_tail t)%string)
    with (String "|" (String " " (unquote (enc (skin ++ " ") ++ wear_tail t)%string))).
  rewrite unquote_enc by (rewrite plain_app, Ps; reflexivity).
  rewrite (unquote_wear_tail t Ht).
  unfold display_name. rewrite !append_assoc. reflexivity.
Qed.

Lemma get_hashname_unquote_example :
  (valid_wear 4 /\ valid_flag 1
   /\ plain "AK-47" = true /\ plain "Fire Serpent" = true)
  /\ exists h,
       get_hashname Demo.runtime "AK-47" "Fire Serpent" (PInt 4) (PInt 1) = Ok h
       /\ unquote h = "StatTrak™ AK-47 | Fire Serpent (Battle-Scarred)".
Proof.
  assert (H4 : valid_wear 4) by (unfold valid_wear; lia).
  assert (F1 : valid_flag 1) by (now right).
  split; [exact (conj H4 (conj F1 (conj eq_refl eq_refl)))|].
  exact (get_hashname_unquote Demo.runtime "AK-47" "Fire Serpent" 4 1
           H4 F1 eq_refl eq_refl).
Defined.

(** ** The rate-limited client: waits, retries and bookkeeping *)

(** A client that has not been answered yet does not wait.  Otherwise,
    when the clock has not run backwards since the last answer, the pacing
    sleep that is requested is positive and at most the maximum delay. *)
Theorem pacing_sleep_bounded (w : world) (m : machine) :
  calm w -> min_delay m <= max_delay m -> last_request_time m <= clock m ->
  (last_request_time m <= 0 -> wait_if_needed w m = m)
  /\ (trace (wait_if_needed w m) = trace m
      \/ exists d, trace (wait_if_needed w m) = Sleep d :: trace m
                   /\ 0 < d /\ d <= max_delay m).
Proof.
  intros Hcalm Hmm Hlast. unfold wait_if_needed, draw, sleep.
  pose proof (uniform_bounds w Hcalm (drawn m) _ _ Hmm) as [Hlo Hhi].
  destruct (Qltb 0 (last_request_time m)) eqn:E1.
  - apply Qltb_lt in E1. split; [intros H; lra|].
    cbn. destruct (Qltb (clock m - last_request_time m)
                        (uniform w (drawn m) (min_delay m) (max_delay m))) eqn:E2.
    + apply Qltb_lt in E2. right. eexists. split; [reflexivity|]. split; lra.
    + now left.
  - split; [reflexivity | now left].
Qed.

Lemma pacing_sleep_bounded_example :
  let w := Demo.answering in
  let m := snd (get w 1 "a" (Demo.fresh_machine 1000)) in
  (calm w /\ min_delay m <= max_delay m /\ last_request_time m <= clock m)
  /\ (last_request_time m <= 0 -> wait_if_needed w m = m)
  /\ (trace (wait_if_needed w m) = trace m
      \/ exists d, trace (wait_if_needed w m) = Sleep d :: trace m
                   /\ 0 < d /\ d <= max_delay m).
Proof.
  intros w m.
  assert (Hc : calm w) by apply quiet_calm.
  assert (Hmm : min_delay m <= max_delay m) by (vm_compute; discriminate).
  assert (Hl : last_request_time m <= clock m) by (vm_compute; discriminate).
  split; [exact (conj Hc (conj Hmm Hl))|].
  exact (pacing_sleep_bounded w m Hc Hmm Hl).
Defined.

(** After a rejected attempt every further request of the call leaves at
    least 5 after that attempt left. *)
Theorem retry_waits_five (w : world) (fuel : nat) (url : string)
    (m m' : machine) (e : exc) (o : outcome response) :
  calm w -> min_delay m <= max_delay m ->
  transport w (dispatched m) url = Fail e -> rate_limited e = true ->
  get w (S fuel) url m = (o, m') ->
  let t0 := clock (wait_if_needed w m) in
  exists seg p,
    pacing p
    /\ trace m' = seg ++ Sleep 5 :: Log RateLimitHit :: Dispatch t0 url :: p ++ trace m
    /\ (forall t u, In (Dispatch t u) seg -> t0 + 5 <= t)
    /\ (fuel <> 0%nat -> exists t, In (Dispatch t url) seg).
Proof.
  intros Hcalm Hmm Ht He Hget t0.
  rewrite (get_rejected w fuel url m e Ht He) in Hget.
  destruct (wait_if_needed_fields w m) as (Hmin & Hmax & _ & _).
  destruct (wait_if_needed_trace w m) as (p & Hp & Htr).
  set (m2 := sleep w 5 _) in Hget.
  assert (Hmm2 : min_delay m2 <= max_delay m2).
  { cbn. now rewrite Hmin, Hmax. }
  destruct (get_paced w Hcalm url fuel m2 m' o Hmm2 Hget)
    as (_ & _ & _ & (seg & Hseg & Hin & Hsome) & _).
  exists seg, p. split; [exact Hp|]. split.
  - rewrite Hseg. cbn. now rewrite Htr.
  - split; [|exact Hsome].
    intros t u Hd. destruct (Hin t u Hd) as (Hclk & _ & _).
    pose proof (latency_nonneg w Hcalm (dispatched (wait_if_needed w m))) as Hlat.
    pose proof (oversleep_nonneg w Hcalm (slept (wait_if_needed w m))) as Hos.
    cbn in Hclk. unfold t0. lra.
Qed.

Lemma retry_waits_five_example :
  let w := Demo.rejecting_twice in
  let m := Demo.fresh_machine 1000 in
  (calm w /\ min_delay m <= max_delay m
   /\ transport w (dispatched m) "u" = Fail Demo.too_many_requests
   /\ rate_limited Demo.too_many_requests = true
   /\ get w 3 "u" m = (Ret (mkResponse 200 "ok"), snd (get w 3 "u" m)))
  /\ exists seg p,
       pacing p
       /\ trace (snd (get w 3 "u" m))
          = seg ++ Sleep 5 :: Log RateLimitHit
                :: Dispatch (clock (wait_if_needed w m)) "u" :: p ++ trace m
       /\ (forall t u, In (Dispatch t u) seg ->
             clock (wait_if_needed w m) + 5 <= t)
       /\ (2%nat <> 0%nat -> exists t, In (Dispatch t "u") seg).
Proof.
  intros w m.
  assert (Hc : calm w) by apply quiet_calm.
  assert (Hmm : min_delay m <= max_delay m) by (vm_compute; discriminate).
  assert (Hget : get w 3 "u" m = (Ret (mkResponse 200 "ok"), snd (get w 3 "u" m)))
    by reflexivity.
  split; [exact (conj Hc (conj Hmm (conj eq_refl (conj eq_refl Hget))))|].
  exact (retry_waits_five w 2 "u" m _ Demo.too_many_requests _
           Hc Hmm eq_refl eq_refl Hget).
Defined.

(** [last_request_time] is the time at which the last response arrived: a
    call that returns sets it to the clock at the arrival of its response;
    a call that raises, or is still retrying, leaves it as it was. *)
Theorem get_last_request_time (w : world) (url : string) (fuel : nat) :
  forall (m m' : machine) (o : outcome response),
    get w fuel url m = (o, m') ->
    match o with
    | Ret _ =>
        last_request_time m' = clock m'
        /\ exists t rest,
             trace m' = Dispatch t url :: rest
             /\ clock m' = t + latency w (pred (dispatched m'))
    | _ => last_request_time m' = last_request_time m
    end.
Proof.
  assert (Hsent : forall m,
            let m2 := send w url (wait_if_needed w m) in
            last_request_time (snd m2) = last_request_time m
            /\ exists t rest,
                 trace (snd m2) = Dispatch t url :: rest
                 /\ clock (snd m2) = t + latency w (pred (dispatched (snd m2)))).
  { intros m. destruct (wait_if_needed_fields w m) as (_ & _ & Hlast & _).
    split; [exact Hlast|]. eexists; eexists; split; reflexivity. }
  induction fuel as [|fuel IH]; intros m m' o.
  - rewrite get_last_frame.
    destruct (stack w (dispatched m)) as [msg|msg].
    + intros Hget. injection Hget as <- <-. reflexivity.
    + cbv zeta. destruct (Hsent m) as (Hlast & Htr).
      destruct (transport w (dispatched m) url) as [r|e].
      * intros Hget. injection Hget as <- <-. split; [reflexivity | exact Htr].
      * intros Hget. injection Hget as <- <-. unfold surfaced.
        destruct (rate_limited e); [exact Hlast|].
        destruct (no_response e); exact Hlast.
  - rewrite get_frame. cbv zeta. destruct (Hsent m) as (Hlast & Htr).
    destruct (transport w (dispatched m) url) as [r|e].
    + intros Hget. injection Hget as <- <-. split; [reflexivity | exact Htr].
    + destruct (rate_limited e).
      * intros Hget. specialize (IH _ _ _ Hget).
        destruct o; try exact IH; (etransitivity; [exact IH | exact Hlast]).
      * intros Hget. injection Hget as <- <-. unfold surfaced.
        destruct (no_response e); exact Hlast.
Qed.

Lemma get_last_request_time_example :
  let w := Demo.failing_once in
  let m := Demo.fresh_machine 1000 in
  get w 1 "a" m = (Raise Demo.connect_error, snd (get w 1 "a" m))
  /\ last_request_time (snd (get w 1 "a" m)) = last_request_time m.
Proof.
  intros w m.
  assert (H : get w 1 "a" m = (Raise Demo.connect_error, snd (get w 1 "a" m)))
    by reflexivity.
  split; [exact H|].
  exact (get_last_request_time w "a" 1 m _ _ H).
Defined.

(** ** How many requests an item costs *)

Lemma net_emit_log (l : log_entry) (m : machine) :
  l <> RateLimitHit -> net (emit (Log l) m) = net m.
Proof.
  intros Hl. unfold net. cbn. destruct l; try reflexivity. now elim Hl.
Qed.

Lemma net_send (w : world) (url : string) (m : machine) :
  net (snd (send w url (wait_if_needed w m))) = (net m + 1)%Z.
Proof.
  destruct (send_fields w url m) as (Hd & _ & p & Hp & Htr).
  unfold net. rewrite Hd, Htr. cbn [rate_limit_hits].
  rewrite (pacing_hits p (trace m) Hp). lia.
Qed.

(** A call of [get] that returns a response has sent exactly one request
    that was not rejected and logged as such; one that raises has sent one
    or, when the stack was full at the call, none. *)
Lemma get_net (w : world) (url : string) (fuel : nat) :
  forall (m m' : machine) (o : outcome response),
    get w fuel url m = (o, m') ->
    (net m <= net m' <= net m + 1)%Z
    /\ (forall r, o = Ret r -> net m' = (net m + 1)%Z).
Proof.
  assert (Hset : forall x t, net (set_last_request_time x t) = net x)
    by reflexivity.
  induction fuel as [|fuel IH]; intros m m' o.
  - rewrite get_last_frame.
    destruct (stack w (dispatched m)) as [msg|msg].
    + intros H. injection H as <- <-. split; [lia | discriminate].
    + cbv zeta. pose proof (net_send w url m) as Hn.
      set (m2 := snd (send w url (wait_if_needed w m))) in *. clearbody m2.
      destruct (transport w (dispatched m) url) as [r|e];
        intros H; injection H as <- <-; rewrite ?Hset;
        (split; [lia | intros; lia]).
  - rewrite get_frame. cbv zeta. pose proof (net_send w url m) as Hn.
    set (m2 := snd (send w url (wait_if_needed w m))) in *. clearbody m2.
    destruct (transport w (dispatched m) url) as [r|e].
    + intros H. injection H as <- <-. rewrite Hset.
      split; [lia | intros; lia].
    + destruct (rate_limited e).
      * intros H. destruct (IH _ _ _ H) as [Hb He].
        assert (Hs : net (sleep w 5 (emit (Log RateLimitHit) m2)) = (net m2 - 1)%Z).
        { unfold net. cbn [dispatched trace emit sleep rate_limit_hits]. lia. }
        rewrite Hs in Hb, He. split; [lia | intros r Hr; rewrite (He r Hr); lia].
      * intros H. injection H as <- <-. split; [lia | intros; lia].
Qed.

Section Within.

Context {S : Type} (mu : S -> Z).

Lemma within_ret {A} (a : A) : within mu 0 (ret a).
Proof. intros s. cbn. lia. Qed.

Lemma within_lift {A} (r : result A) : within mu 0 (lift r).
Proof. intros s. unfold lift. destruct r; cbn; lia. Qed.

Lemma within_frame {A} (c : M S A) :
  (forall s, mu (snd (c s)) = mu s) -> within mu 0 c.
Proof. intros H s. rewrite H. lia. Qed.

(** A bound for [bind] in which the second computation is only followed
    from the values the first returns. *)
Lemma within_bind_where {A C} (P : A -> Prop) (n k t : Z) (c : M S A)
    (f : A -> M S C) :
  (forall s a s1, c s = (Ret a, s1) -> P a) ->
  within mu n c -> (forall a, P a -> within mu k (f a)) ->
  (0 <= k)%Z -> (n + k <= t)%Z ->
  within mu t (bind c f).
Proof.
  intros HP Hc Hf Hk Ht s. unfold bind. specialize (Hc s).
  destruct (c s) as [[a|e|st|] s1] eqn:E; cbn [snd] in *; try lia.
  specialize (Hf a (HP _ _ _ E) s1). lia.
Qed.

Lemma within_bind {A C} (n k t : Z) (c : M S A) (f : A -> M S C) :
  within mu n c -> (forall a, within mu k (f a)) ->
  (0 <= k)%Z -> (n + k <= t)%Z ->
  within mu t (bind c f).
Proof.
  intros Hc Hf. apply (within_bind_where (fun _ => True)); auto.
Qed.

(** A step that leaves the measure alone, before or after. *)
Lemma within_after {A C} (t : Z) (c : M S A) (f : A -> M S C) :
  within mu 0 c -> (forall a, within mu t (f a)) -> (0 <= t)%Z ->
  within mu t (bind c f).
Proof. intros Hc Hf Ht. apply (within_bind 0 t t); auto. lia. Qed.

Lemma within_before {A C} (t : Z) (c : M S A) (f : A -> M S C) :
  within mu t c -> (forall a, within mu 0 (f a)) ->
  within mu t (bind c f).
Proof. intros Hc Hf. apply (within_bind t 0 t); auto; lia. Qed.

Lemma within_try_except {A} (n k t : Z) (c : M S A) (h : exc -> M S A) :
  within mu n c -> (forall e, within mu k (h e)) ->
  (0 <= k)%Z -> (n + k <= t)%Z ->
  within mu t (try_except c h).
Proof.
  intros Hc Hh Hk Ht s. unfold try_except. specialize (Hc s).
  destruct (c s) as [[a|e|st|] s1]; cbn [snd] in *; try lia.
  specialize (Hh e s1). lia.
Qed.

Lemma within_weaken {A} (n t : Z) (c : M S A) :
  within mu n c -> (n <= t)%Z -> within mu t c.
Proof. intros Hc Ht s. specialize (Hc s). lia. Qed.

End Within.

(** Bounds on a measure of the client, inside [item_data]. *)
Section WithinScope.

Variable mu : machine -> Z.

Lemma within_on_client {A} (n : Z) (c : M machine A) :
  within mu n c -> within (in_client mu) n (on_client c).
Proof.
  intros Hc sc. unfold on_client, in_client. specialize (Hc (scope_client sc)).
  destruct (c (scope_client sc)) as [o m']. exact Hc.
Qed.

Lemma within_data_setitem (key : string) (value : pyval) :
  within (in_client mu) 0 (data_setitem key value).
Proof. apply within_frame. reflexivity. Qed.

Lemma within_in_scope {A} (n : Z) (data : dict) (c : M scope A) :
  within (in_client mu) n c -> within mu n (in_scope data c).
Proof.
  intros Hc m. unfold in_scope. specialize (Hc (mkScope data m)).
  unfold in_client in Hc. cbn [scope_client] in Hc.
  destruct (c (mkScope data m)) as [[a|e|st|] sc]; exact Hc.
Qed.

Lemma within_py_eval (B : builtins) (w : world) (expr : string) :
  eval_spares_client B w -> served w expr ->
  within (in_client mu) 0 (py_eval B expr).
Proof.
  intros Hsp Hexpr. apply within_frame. intros sc. unfold in_client.
  now rewrite (Hsp expr sc Hexpr).
Qed.

End WithinScope.

Lemma within_get (w : world) (fuel : nat) (url : string) :
  within net 1 (get w fuel url).
Proof.
  intros m. destruct (get w fuel url m) as [o m'] eqn:E.
  cbn [snd]. exact (proj1 (get_net w url fuel m m' o E)).
Qed.

Lemma within_log (l : log_entry) :
  l <> RateLimitHit -> within net 0 (log l).
Proof.
  intros Hl. apply within_frame. intros m. cbn. now apply net_emit_log.
Qed.

Lemma runtime_spares_client (w : world) : eval_spares_client Demo.runtime w.
Proof. intros expr sc _. cbn [py_eval Demo.runtime]. now rewrite literal_scope. Qed.

Section Cost.

Variable B : builtins.
Variable w : world.
Hypothesis Hsp : eval_spares_client B w.
Variable fuel : nat.

Lemma within_get_nameid (hashname : string) :
  within net 1 (get_nameid B w fuel hashname).
Proof.
  unfold get_nameid.
  eapply within_bind; [apply within_get | intros response | |].
  - eapply within_bind; [apply within_lift | intros a | |].
    + eapply within_bind; [apply within_lift | intros a' | |].
      * apply within_lift.
      * lia.
      * reflexivity.
    + lia.
    + reflexivity.
  - lia.
  - lia.
Qed.

Lemma within_parse_graphs (mu : machine -> Z) (order_data : string) :
  (forall expr, graph_texts order_data expr -> served w expr) ->
  within (in_client mu) 0 (parse_graphs B order_data).
Proof.
  intros Hserved. unfold parse_graphs. cbv zeta.
  apply within_after; [|intros g1|lia].
  { apply (within_py_eval mu B w _ Hsp), Hserved. now left. }
  apply within_after; [|intros g2|lia].
  { apply (within_py_eval mu B w _ Hsp), Hserved. now right. }
  apply within_after; [apply within_lift | intros bo | lia].
  apply within_after; [apply within_data_setitem | intros _ | lia].
  apply within_after; [apply within_lift | intros so | lia].
  apply within_data_setitem.
Qed.

Lemma within_order_graphs (order_data : string) :
  (forall expr, graph_texts order_data expr -> served w expr) ->
  within (in_client net) 0 (order_graphs B order_data).
Proof.
  intros Hserved. unfold order_graphs.
  apply (within_try_except _ 0 0 0);
    [now apply within_parse_graphs | intros e | lia | lia].
  apply within_after;
    [apply within_on_client, within_log; discriminate | intros _ | lia].
  apply within_after; [apply within_data_setitem | intros _ | lia].
  apply within_data_setitem.
Qed.

Lemma within_volume_data (hashname : string) :
  within (in_client net) 1 (volume_data B w fuel hashname).
Proof.
  unfold volume_data.
  apply (within_try_except _ 1 0 1); [|intros e|lia|lia].
  - apply within_before; [apply within_on_client, within_get | intros r].
    apply within_after; [apply within_lift | intros a | lia].
    apply within_after; [apply within_lift | intros v | lia].
    apply within_data_setitem.
  - apply within_after;
      [apply within_on_client, within_log; discriminate | intros _ | lia].
    apply within_data_setitem.
Qed.

Lemma within_item_data (hashname : string) :
  within net 3 (item_data B w fuel hashname).
Proof.
  unfold item_data.
  apply (within_bind _ 1 2 3); [apply within_get_nameid | intros id | lia | lia].
  cbv zeta.
  apply (within_bind_where net
           (fun resp => forall expr, graph_texts (text resp) expr -> served w expr)
           1 1 2);
    [ | apply within_get | intros resp Hserved | lia | lia].
  - intros m resp m' G expr Hexpr.
    exact (served_graph_texts w _ _ _ _ _ _ G Hexpr).
  - apply within_in_scope.
    apply within_after; [apply within_lift | intros b | lia].
    apply within_after; [apply within_data_setitem | intros _ | lia].
    apply within_after; [apply within_lift | intros s | lia].
    apply within_after; [apply within_data_setitem | intros _ | lia].
    apply within_after; [now apply within_order_graphs | intros _ | lia].
    apply within_before; [apply within_volume_data | intros _].
    apply within_data_setitem.
Qed.

Lemma get_nameid_net (hashname : string) (m m1 : machine) (id : Z) :
  get_nameid B w fuel hashname m = (Ret id, m1) -> net m1 = (net m + 1)%Z.
Proof.
  unfold get_nameid. intros H.
  apply bind_Ret in H as (resp & m0 & Hget & H).
  apply bind_Ret in H as (a & m0' & Ha & H). apply lift_Ret in Ha as [_ ->].
  apply bind_Ret in H as (a' & m0'' & Ha' & H). apply lift_Ret in Ha' as [_ ->].
  apply lift_Ret in H as [_ ->].
  exact (proj2 (get_net w _ fuel m m0 (Ret resp) Hget) resp eq_refl).
Qed.

(** The volume block sends one request; only a call that finds the stack
    full sends none, and then the volume is None. *)
Lemma volume_data_net (hashname : string) (sc sc' : scope) (u : unit) :
  volume_data B w fuel hashname sc = (Ret u, sc') ->
  (in_client net sc <= in_client net sc' <= in_client net sc + 1)%Z
  /\ (Py.lookup (scope_data sc') "volume" <> Some PNone ->
      in_client net sc' = (in_client net sc + 1)%Z).
Proof.
  destruct u. intros H. split.
  - pose proof (within_volume_data hashname sc) as Hw. now rewrite H in Hw.
  - revert H. unfold volume_data, try_except, bind, on_client, lift, in_client.
    destruct (get w (S fuel) (priceoverview_url hashname) (scope_client sc))
      as [[r|e|st|] m1] eqn:G; try discriminate.
    + pose proof (proj2 (get_net w _ _ _ _ _ G) r eq_refl) as Hn.
      destruct (field_after volume_label (text r)) as [f|e].
      * destruct (py_int B f) as [z|e]; intros H; injection H as <-; intros _;
          cbn [scope_client log modify snd]; [exact Hn|].
        rewrite net_emit_log by discriminate. exact Hn.
      * intros H; injection H as <-; intros _. cbn [scope_client log modify snd].
        rewrite net_emit_log by discriminate. exact Hn.
    + intros H; injection H as <-. cbn [scope_data log modify snd].
      rewrite lookup_dict_set. cbn. intros Hv. now elim Hv.
Qed.

End Cost.



Lemma within_on_machine {A} (n : Z) (c : M machine A) :
  within net n c -> within run_net n (on_machine c).
Proof.
  intros Hc b. unfold on_machine, run_net. specialize (Hc (mach b)).
  destruct (c (mach b)) as [o m']. exact Hc.
Qed.

Lemma within_dump (value : list pyval) : within run_net 0 (dump value).
Proof.
  apply within_frame. intros b. unfold dump.
  destruct (Py.unserializable (PList value)); reflexivity.
Qed.

Lemma within_dump_processed : within run_net 0 dump_processed.
Proof. intros b. unfold dump_processed. apply within_dump. Qed.

Lemma within_skin_setitem (r : nat) (key : string) (value : pyval) :
  within run_net 0 (skin_setitem r key value).
Proof.
  apply within_frame. intros b. unfold skin_setitem.
  destruct (Py.setitem_key (deref b r) key value); reflexivity.
Qed.

Lemma within_append_processed (r : nat) : within run_net 0 (append_processed r).
Proof. apply within_frame. intros b. reflexivity. Qed.

Lemma within_skin_of (r : nat) : within run_net 0 (skin_of r).
Proof. apply within_frame. intros b. reflexivity. Qed.

Section RunCost.

Variable B : builtins.
Variable w : world.
Hypothesis Hsp : eval_spares_client B w.
Variable fuel : nat.

Lemma within_store (r : nat) (md : pyval) :
  within run_net 0
    (bind (skin_setitem r "market_data" md)
       (fun _ => bind (append_processed r) (fun _ => dump_processed))).
Proof.
  eapply within_bind; [apply within_skin_setitem | intros _ | |].
  - eapply within_bind; [apply within_append_processed | intros _ | |].
    + apply within_dump_processed.
    + lia.
    + reflexivity.
  - lia.
  - lia.
Qed.

Lemma within_process_skin (i total r : nat) :
  within run_net 3 (process_skin B w fuel i total r).
Proof.
  unfold process_skin.
  eapply within_bind; [apply within_skin_of | intros skin | |].
  2: instantiate (1 := 3%Z); lia. 2: lia.
  eapply within_bind; [apply within_lift | intros has_name | |].
  2: instantiate (1 := 3%Z); lia. 2: lia.
  destruct (negb has_name).
  { apply (within_weaken _ 0); [|lia].
    apply within_on_machine. apply within_log. discriminate. }
  eapply within_bind; [apply within_lift | intros name | |].
  2: instantiate (1 := 3%Z); lia. 2: lia.
  eapply within_bind; [apply within_lift | intros names | |].
  2: instantiate (1 := 3%Z); lia. 2: lia.
  eapply within_bind; [apply within_lift | intros weapon | |].
  2: instantiate (1 := 3%Z); lia. 2: lia.
  eapply within_bind; [apply within_lift | intros finish | |].
  2: instantiate (1 := 3%Z); lia. 2: lia.
  eapply within_bind; [apply within_lift | intros wear | |].
  2: instantiate (1 := 3%Z); lia. 2: lia.
  eapply within_bind; [apply within_lift | intros stat | |].
  2: instantiate (1 := 3%Z); lia. 2: lia.
  eapply within_bind; [apply within_lift | intros hashname | |].
  2: instantiate (1 := 3%Z); lia. 2: lia.
  eapply within_bind;
    [apply within_on_machine; now apply within_item_data | intros md | |].
  - apply within_store.
  - lia.
  - lia.
Qed.

Lemma within_record_error (i total r : nat) (e : exc) :
  within run_net 0 (record_error i total r e).
Proof.
  unfold record_error.
  eapply within_bind; [apply within_skin_of | intros skin | |].
  - eapply within_bind; [apply within_lift | intros name | |].
    + eapply within_bind;
        [apply within_on_machine; apply within_log; discriminate | intros _ | |].
      * apply within_store.
      * lia.
      * reflexivity.
    + lia.
    + reflexivity.
  - lia.
  - lia.
Qed.

Lemma within_process_item (i total r : nat) :
  within run_net 3 (process_item B w fuel i total r).
Proof.
  unfold process_item.
  eapply within_try_except;
    [apply within_process_skin | intros e; apply within_record_error | lia | lia].
Qed.

Lemma within_process_items (total : nat) (rs : list nat) :
  within run_net (3 * Z.of_nat (List.length rs)) (process_items B w fuel total rs).
Proof.
  induction rs as [|r rs IH].
  - cbn. apply within_ret.
  - cbn [process_items].
    eapply within_bind; [apply within_process_item | intros _; exact IH | lia|].
    cbn [List.length]. lia.
Qed.

End RunCost.



(** ** A run always comes back *)

Section Settles.

Context {S : Type}.

Lemma settles_ret {A} (a : A) : settles (ret (S := S) a).
Proof. intros s. split; [|intros st]; discriminate. Qed.

Lemma settles_lift {A} (r : result A) : settles (lift (S := S) r).
Proof. intros s. unfold lift. destruct r; (split; [|intros st]; discriminate). Qed.

Lemma settles_modify (f : S -> S) : settles (modify f).
Proof. intros s. split; [|intros st]; discriminate. Qed.

Lemma settles_bind_where {A C} (P : A -> Prop) (c : M S A) (f : A -> M S C) :
  (forall s a s1, c s = (Ret a, s1) -> P a) ->
  settles c -> (forall a, P a -> settles (f a)) -> settles (bind c f).
Proof.
  intros HP Hc Hf s. unfold bind. specialize (Hc s).
  destruct (c s) as [[a|e|st|] s1] eqn:E; cbn [fst] in *.
  - apply (Hf a (HP _ _ _ E)).
  - split; [|intros st]; discriminate.
  - now elim (proj2 Hc st).
  - now elim (proj1 Hc).
Qed.

Lemma settles_bind {A C} (c : M S A) (f : A -> M S C) :
  settles c -> (forall a, settles (f a)) -> settles (bind c f).
Proof.
  intros Hc Hf. apply (settles_bind_where (fun _ => True)); auto.
Qed.

Lemma settles_try_except {A} (c : M S A) (h : exc -> M S A) :
  settles c -> (forall e, settles (h e)) -> settles (try_except c h).
Proof.
  intros Hc Hh s. unfold try_except. specialize (Hc s).
  destruct (c s) as [[a|e|st|] s1]; cbn [fst] in *; try exact Hc.
  apply Hh.
Qed.

Lemma settles_try_finally {A} (c : M S A) (f : S -> S) :
  settles c -> settles (try_finally c f).
Proof.
  intros Hc s. unfold try_finally. specialize (Hc s).
  destruct (c s) as [[a|e|st|] s1]; cbn [fst] in *; exact Hc.
Qed.

End Settles.

Lemma settles_on_machine {A} (c : M machine A) :
  settles c -> settles (on_machine c).
Proof.
  intros Hc b. unfold on_machine. specialize (Hc (mach b)).
  destruct (c (mach b)) as [o m']. exact Hc.
Qed.

Lemma settles_on_client {A} (c : M machine A) :
  settles c -> settles (on_client c).
Proof.
  intros Hc sc. unfold on_client. specialize (Hc (scope_client sc)).
  destruct (c (scope_client sc)) as [o m']. exact Hc.
Qed.

Lemma settles_in_scope {A} (data : dict) (c : M scope A) :
  settles c -> settles (in_scope data c).
Proof.
  intros Hc m. unfold in_scope. specialize (Hc (mkScope data m)).
  destruct (c (mkScope data m)) as [[a|e|st|] sc]; cbn [fst] in *.
  - split; [|intros st]; discriminate.
  - split; [|intros st]; discriminate.
  - now elim (proj2 Hc st).
  - now elim (proj1 Hc).
Qed.

Lemma settles_dump (value : list pyval) : settles (dump value).
Proof.
  intros b. unfold dump.
  destruct (Py.unserializable (PList value)); (split; [|intros st]; discriminate).
Qed.

Lemma settles_skin_setitem (r : nat) (key : string) (value : pyval) :
  settles (skin_setitem r key value).
Proof.
  intros b. unfold skin_setitem.
  destruct (Py.setitem_key (deref b r) key value);
    (split; [|intros st]; discriminate).
Qed.

(** The retry is bounded by the stack: a call of [get] always comes
    back. *)
Lemma settles_get (w : world) (fuel : nat) (url : string) :
  settles (get w fuel url).
Proof.
  intros m. destruct (get w fuel url m) as [o m'] eqn:E.
  destruct (get_bounded w url fuel m m' o E) as (Hd & He & _).
  now split.
Qed.

Ltac settle :=
  repeat first
    [ assumption
    | match goal with H : forall _, settles _ |- _ => simple apply H end
    | match goal with H : forall _ _, settles _ |- _ => simple apply H end
    | apply settles_ret | apply settles_lift | apply settles_modify
    | apply settles_dump | apply settles_skin_setitem
    | apply settles_get
    | apply settles_on_machine | apply settles_on_client
    | apply settles_try_finally
    | apply settles_bind; [|intros ?]
    | apply settles_try_except; [|intros ?]
    | progress cbv beta zeta ].

Lemma runtime_settles (w : world) : eval_settles Demo.runtime w.
Proof.
  intros expr sc _. cbn [py_eval Demo.runtime]. unfold Demo.literal, lift.
  destruct (Demo.eval expr); (split; [|intros st]; discriminate).
Qed.

Section Settling.

Variable B : builtins.
Variable w : world.
Hypothesis Hev : eval_settles B w.
Variable fuel : nat.

Lemma settles_order_graphs (order_data : string) :
  (forall expr, graph_texts order_data expr -> served w expr) ->
  settles (order_graphs B order_data).
Proof.
  intros Hserved.
  assert (H1 : settles (py_eval B (graph_text buy_graph_label order_data))).
  { intros sc. apply Hev, Hserved. now left. }
  assert (H2 : settles (py_eval B (graph_text sell_graph_label order_data))).
  { intros sc. apply Hev, Hserved. now right. }
  unfold order_graphs, parse_graphs, data_setitem, log. settle.
Qed.

Lemma settles_item_data (hashname : string) :
  settles (item_data B w fuel hashname).
Proof.
  unfold item_data.
  apply settles_bind; [unfold get_nameid; settle | intros id]. cbv zeta.
  apply (settles_bind_where
           (fun resp => forall expr, graph_texts (text resp) expr -> served w expr)).
  - intros m resp m' G expr Hexpr.
    exact (served_graph_texts w _ _ _ _ _ _ G Hexpr).
  - apply settles_get.
  - intros resp Hserved. apply settles_in_scope.
    pose proof (settles_order_graphs (text resp) Hserved) as Hgraphs.
    unfold volume_data, data_setitem, log. settle.
Qed.

Lemma settles_process_item (i total r : nat) :
  settles (process_item B w fuel i total r).
Proof.
  pose proof settles_item_data as Hitem.
  unfold process_item, process_skin, record_error, dump_processed,
    append_processed, skin_of, log.
  settle.
  - intros b. split; [|intros st]; discriminate.
  - destruct (negb a0); settle.
    intros b. apply settles_dump.
  - intros b. split; [|intros st]; discriminate.
  - intros b. apply settles_dump.
Qed.

Lemma settles_process_items (total : nat) (rs : list nat) :
  settles (process_items B w fuel total rs).
Proof.
  induction rs as [|r rs IH]; cbn [process_items].
  - apply settles_ret.
  - apply settles_bind; [apply settles_process_item | intros _; exact IH].
Qed.

Lemma settles_process_all_skins : settles (process_all_skins B w fuel).
Proof.
  pose proof settles_process_items as Hitems.
  unfold process_all_skins, log. settle.
  destruct (exc_cls e); settle.
Qed.

End Settling.



(** Against a marketplace that rejects every request the run ends too: the
    retries of the first request use up the stack, and the item is recorded
    with the overflow as its error. *)
Example rejected_run_ends_with_the_stack :
  let w := mkWorld (fun _ _ => Fail Demo.too_many_requests)
             (fun _ => 0) (fun _ a _ => a) (fun _ => 0)
             (Demo.catalogue [Demo.redline])
             (fun _ => AtCall Demo.overflow_message) in
  let run := process_all_skins Demo.runtime w 2 (initial 1000) in
  fst run = Ret tt
  /\ dispatched (mach (snd run)) = 2%nat
  /\ rate_limit_hits (trace (mach (snd run))) = 2%nat
  /\ output_file (snd run)
     = Document [PDict [("name", PStr "AK-47 | Redline");
                        ("market_data",
                         PDict [("error",
                                 PStr "maximum recursion depth exceeded")])]].
Proof. vm_compute. repeat split. Qed.

(** ** The fetch and its wrappers at the edges *)

Section Wrappers.

Variable B : builtins.
Variable w : world.
Variable fuel : nat.

(** [get_weapon_data] builds the hashname outside its [try]: an exception
    of class [Exception] leaves it exactly when building the hashname raises
    it, and then nothing has been requested.  What the fetch raises of that
    class is returned as an error entry instead; an exception that is not of
    that class leaves [get_weapon_data] as it left the fetch. *)
Theorem get_weapon_data_raises (gun skin : string) (wear stat : pyval)
    (m : machine) (e : exc) :
  (get_hashname B gun skin wear stat = Err e ->
   get_weapon_data B w fuel gun skin wear stat m = (Raise e, m))
  /\ (fst (get_weapon_data B w fuel gun skin wear stat m) = Raise e ->
      get_hashname B gun skin wear stat = Err e)
  /\ (forall hashname m1,
        get_hashname B gun skin wear stat = Ok hashname ->
        (forall e1, item_data B w fuel hashname m = (Raise e1, m1) ->
           get_weapon_data B w fuel gun skin wear stat m
           = (Ret (unavailable e1), m1))
        /\ (forall status, item_data B w fuel hashname m = (Escape status, m1) ->
              get_weapon_data B w fuel gun skin wear stat m
              = (Escape status, m1))).
Proof.
  unfold get_weapon_data, bind, lift, try_except, ret.
  destruct (get_hashname B gun skin wear stat) as [h|e0].
  - split; [discriminate|]. split.
    + destruct (item_data B w fuel h m) as [[d|e1|st|] m1]; discriminate.
    + intros hashname m1 Hh. injection Hh as <-.
      split; [intros e1 H | intros st H]; now rewrite H.
  - split; [|split].
    + intros H. now injection H as ->.
    + intros H. cbn in H. now injection H as ->.
    + intros hashname m1 Hh. discriminate Hh.
Qed.

(** A listing page without the marker of the name id ends the fetch with
    an [IndexError] right after the first request: neither the histogram
    nor the price overview is asked for. *)
Theorem item_data_marker_missing (hashname : string) (m m1 : machine)
    (resp : response) :
  get w fuel (listing_url hashname) m = (Ret resp, m1) ->
  Py.substring_of "Market_LoadOrderSpread( " (text resp) = false ->
  item_data B w fuel hashname m = (Raise index_error, m1).
Proof.
  intros Hget Hsub.
  destruct (split_single _ _ Hsub) as (piece & Hp).
  unfold item_data, get_nameid.
  unfold bind at 1. unfold bind at 1. rewrite Hget.
  cbv zeta. rewrite Hp. reflexivity.
Qed.

(** A histogram without the highest buy order ends the fetch with an
    [IndexError] after the second request; the price overview is not asked
    for and no partial data is returned. *)
Theorem item_data_price_missing (hashname : string) (m m1 m2 : machine)
    (id : Z) (resp : response) :
  get_nameid B w fuel hashname m = (Ret id, m1) ->
  get w fuel (histogram_url (Text.str_of_int id)) m1 = (Ret resp, m2) ->
  Py.substring_of highest_buy_label (text resp) = false ->
  item_data B w fuel hashname m = (Raise index_error, m2).
Proof.
  intros Hid Hget Hsub.
  apply get_Ret_more_room in Hget.
  destruct (split_single _ _ Hsub) as (piece & Hp).
  unfold item_data.
  rewrite (bind_eq _ _ _ _ _ Hid). cbv zeta.
  rewrite (bind_eq _ _ _ _ _ Hget).
  unfold in_scope, bind at 1, price_field, field_after. rewrite Hp. reflexivity.
Qed.

End Wrappers.

Lemma get_weapon_data_raises_example :
  let w := Demo.market "[[1,3]]" "[[2,5]]" Demo.no_input in
  let m := Demo.fresh_machine 1000 in
  get_hashname Demo.runtime "AK-47" "Redline" (PInt 7) (PInt 0)
  = Err (mkExc KeyError "7")
  /\ get_weapon_data Demo.runtime w 1 "AK-47" "Redline" (PInt 7) (PInt 0) m
     = (Raise (mkExc KeyError "7"), m).
Proof.
  intros w m. split; [reflexivity|].
  exact (proj1 (get_weapon_data_raises Demo.runtime w 1 "AK-47" "Redline"
                  (PInt 7) (PInt 0) m (mkExc KeyError "7")) eq_refl).
Defined.

(** A served text that calls [exit] takes [get_weapon_data] with it. *)
Example get_weapon_data_left_by_exit :
  let w := Demo.market Demo.exits "[[2,5]]" Demo.no_input in
  fst (get_weapon_data Demo.interpreter w 1 "AK-47" "Redline" (PInt 0) (PInt 0)
         (Demo.fresh_machine 1000))
  = Escape 3.
Proof. vm_compute. reflexivity. Qed.

(** ** Closing the client *)

Lemma closings_app (a b : list event) :
  closings (a ++ b) = (closings a + closings b)%nat.
Proof.
  induction a as [|ev a IH]; [reflexivity|].
  destruct ev; cbn; rewrite IH; reflexivity.
Qed.

Lemma closings_pacing (p tr : list event) :
  pacing p -> closings (p ++ tr) = closings tr.
Proof. intros [|d]; reflexivity. Qed.

Lemma closed_count_send (w : world) (url : string) (m : machine) :
  closed_count (snd (send w url (wait_if_needed w m))) = closed_count m.
Proof.
  destruct (send_fields w url m) as (_ & _ & p & Hp & Htr).
  unfold closed_count. rewrite Htr. cbn [closings].
  now rewrite closings_pacing.
Qed.

Lemma still_open_get (w : world) (url : string) (fuel : nat) :
  within closed_count 0 (get w fuel url).
Proof.
  apply within_frame.
  induction fuel as [|fuel IH]; intros m.
  - rewrite get_last_frame.
    destruct (stack w (dispatched m)) as [msg|msg]; [reflexivity|]. cbv zeta.
    pose proof (closed_count_send w url m) as Hs.
    set (m2 := snd (send w url (wait_if_needed w m))) in *. clearbody m2.
    destruct (transport w (dispatched m) url) as [r|e]; exact Hs.
  - rewrite get_frame. cbv zeta.
    pose proof (closed_count_send w url m) as Hs.
    set (m2 := snd (send w url (wait_if_needed w m))) in *. clearbody m2.
    destruct (transport w (dispatched m) url) as [r|e]; [exact Hs|].
    destruct (rate_limited e); [|exact Hs].
    rewrite IH. exact Hs.
Qed.

Lemma still_open_log (l : log_entry) : within closed_count 0 (log l).
Proof. apply within_frame. intros m. reflexivity. Qed.

Lemma still_open_on_machine {A} (c : M machine A) :
  within closed_count 0 c -> within run_closed 0 (on_machine c).
Proof.
  intros Hc b. unfold on_machine, run_closed. specialize (Hc (mach b)).
  destruct (c (mach b)) as [o m']. exact Hc.
Qed.

Lemma still_open_dump (value : list pyval) : within run_closed 0 (dump value).
Proof.
  apply within_frame. intros b. unfold dump.
  destruct (Py.unserializable (PList value)); reflexivity.
Qed.

Lemma still_open_skin_setitem (r : nat) (key : string) (value : pyval) :
  within run_closed 0 (skin_setitem r key value).
Proof.
  apply within_frame. intros b. unfold skin_setitem.
  destruct (Py.setitem_key (deref b r) key value); reflexivity.
Qed.

Lemma still_open_modify (f : batch -> batch) :
  (forall b, mach (f b) = mach b) -> within run_closed 0 (modify f).
Proof. intros H. apply within_frame. intros b. unfold run_closed. cbn. now rewrite H. Qed.

Lemma still_open_dump_processed :
  within run_closed 0 (fun b : batch => dump (records b) b).
Proof. intros b. apply still_open_dump. Qed.

Ltac still_open :=
  repeat first
    [ assumption
    | apply still_open_dump_processed
    | match goal with |- within _ _ (if ?c then _ else _) => destruct c end
    | match goal with H : forall _, within _ _ _ |- _ => simple apply H end
    | match goal with H : forall _ _, within _ _ _ |- _ => simple apply H end
    | match goal with H : forall _ _ _, within _ _ _ |- _ => simple apply H end
    | apply within_ret | apply within_lift
    | apply still_open_get | apply still_open_log
    | apply still_open_dump | apply still_open_skin_setitem
    | apply still_open_on_machine
    | apply within_on_client | apply within_data_setitem
    | apply still_open_modify; intros ?; reflexivity
    | apply (within_bind _ 0 0 0); [|intros ?|lia|lia]
    | apply (within_try_except _ 0 0 0); [|intros ?|lia|lia]
    | progress cbv beta zeta ].

Section StillOpen.

Variable B : builtins.
Variable w : world.
Hypothesis Hsp : eval_spares_client B w.
Variable fuel : nat.

Lemma still_open_order_graphs (order_data : string) :
  (forall expr, graph_texts order_data expr -> served w expr) ->
  within (in_client closed_count) 0 (order_graphs B order_data).
Proof.
  intros Hserved.
  pose proof (within_parse_graphs B w Hsp closed_count order_data Hserved)
    as Hparse.
  unfold order_graphs. still_open.
Qed.

Lemma still_open_item_data (hashname : string) :
  within closed_count 0 (item_data B w fuel hashname).
Proof.
  unfold item_data.
  apply (within_bind _ 0 0 0); [unfold get_nameid; still_open | intros id | lia | lia].
  cbv zeta.
  apply (within_bind_where closed_count
           (fun resp => forall expr, graph_texts (text resp) expr -> served w expr)
           0 0 0);
    [ | apply still_open_get | intros resp Hserved | lia | lia].
  - intros m resp m' G expr Hexpr.
    exact (served_graph_texts w _ _ _ _ _ _ G Hexpr).
  - apply within_in_scope.
    pose proof (still_open_order_graphs (text resp) Hserved) as Hgraphs.
    unfold volume_data. still_open.
Qed.

Lemma still_open_process_item (i total r : nat) :
  within run_closed 0 (process_item B w fuel i total r).
Proof.
  pose proof still_open_item_data as Hitem.
  unfold process_item, process_skin, record_error, dump_processed,
    append_processed, skin_of.
  still_open.
Qed.

Lemma still_open_process_items (total : nat) (rs : list nat) :
  within run_closed 0 (process_items B w fuel total rs).
Proof.
  pose proof still_open_process_item as Hitem.
  induction rs as [|r rs IH]; cbn [process_items]; still_open.
Qed.

End StillOpen.




Lemma item_data_marker_missing_example :
  let w := Demo.quiet (fun _ _ => Demo.page "<html></html>") Demo.no_input in
  let m := Demo.fresh_machine 1000 in
  let run := item_data Demo.runtime w 1 "AK-47" m in
  fst run = Raise index_error /\ dispatched (snd run) = 1%nat.
Proof.
  intros w m run.
  assert (H : run = (Raise index_error,
                     snd (get w 1 (listing_url "AK-47") m))).
  { apply (item_data_marker_missing Demo.runtime w 1 "AK-47" m _
             (mkResponse 200 "<html></html>")); reflexivity. }
  rewrite H. split; reflexivity.
Defined.

Lemma item_data_price_missing_example :
  let w := Demo.quiet
             (fun k _ =>
                match k with
                | 0%nat => Demo.page Demo.listing_page
                | _ => Demo.page "{}"
                end) Demo.no_input in
  let m := Demo.fresh_machine 1000 in
  let run := item_data Demo.runtime w 1 "AK-47" m in
  fst run = Raise index_error /\ dispatched (snd run) = 2%nat.
Proof.
  intros w m run.
  pose (r1 := get_nameid Demo.runtime w 1 "AK-47" m).
  assert (H1 : exists id, r1 = (Ret id, snd r1)).
  { eexists. vm_compute. reflexivity. }
  destruct H1 as (id & H1).
  pose (r2 := get w 1 (histogram_url (Text.str_of_int id)) (snd r1)).
  assert (H : run = (Raise index_error, snd r2)).
  { apply (item_data_price_missing Demo.runtime w 1 "AK-47" m (snd r1) (snd r2)
             id (mkResponse 200 "{}")).
    - exact H1.
    - reflexivity.
    - reflexivity. }
  rewrite H. split; reflexivity.
Defined.


(** ** What a run records when every write succeeds *)


(** The marketplace of the examples, with the runtime of the examples,
    only produces JSON values. *)
Lemma market_json_runtime (input : result pyval) :
  json_runtime Demo.runtime (Demo.market "[[1,3]]" "[[2,5]]" input).
Proof.
  split.
  - intros expr sc v sc' (k & url & r & Hr & Hexpr).
    unfold Demo.market, Demo.quiet in Hr. cbn [transport] in Hr.
    assert (Hcases : expr = "[[1,3]]" \/ expr = "[[2,5]]"
                     \/ Demo.eval expr = Py.raise SyntaxError "invalid syntax").
    { destruct (k mod 3)%nat as [|[|n]]; injection Hr as <-;
        destruct Hexpr as [-> | ->]; vm_compute; auto. }
    cbn [py_eval Demo.runtime]. unfold Demo.literal, lift.
    destruct Hcases as [-> | [-> | ->]].
    + intros H. vm_compute in H. injection H as <- _. reflexivity.
    + intros H. vm_compute in H. injection H as <- _. reflexivity.
    + discriminate.
  - apply runtime_spares_data.
  - intros x v. cbn. unfold Demo.float.
    destruct x; try discriminate; intros H; injection H as <-; reflexivity.
  - intros a b v. cbn. unfold Demo.truediv.
    destruct b; try discriminate; intros H; injection H as <-; reflexivity.
Qed.


(** ** The catalogue sanitiser *)

Lemma lookup_dict_del_same (d : dict) (k : string) :
  Py.lookup (dict_del d k) k = None.
Proof.
  induction d as [|[k0 v0] d IH]; cbn; [reflexivity|].
  destruct (String.eqb k0 k) eqn:E; [exact IH|]. cbn. now rewrite E.
Qed.

Lemma lookup_dict_del_other (d : dict) (k k' : string) :
  k <> k' -> Py.lookup (dict_del d k) k' = Py.lookup d k'.
Proof.
  intros Hk. induction d as [|[k0 v0] d IH]; cbn; [reflexivity|].
  destruct (String.eqb k0 k) eqn:E.
  - apply String.eqb_eq in E. subst k0.
    destruct (String.eqb_spec k k'); [contradiction | exact IH].
  - cbn. now rewrite IH.
Qed.

Lemma dict_del_absent (d : dict) (k : string) :
  Py.lookup d k = None -> dict_del d k = d.
Proof.
  induction d as [|[k0 v0] d IH]; cbn; [reflexivity|].
  destruct (String.eqb k0 k); [discriminate|]. intros H. now rewrite IH.
Qed.

Lemma In_dict_del (d : dict) (k k' : string) (x : pyval) :
  In (k', x) (dict_del d k) -> In (k', x) d.
Proof.
  induction d as [|[k0 v0] d IH]; cbn; [tauto|].
  destruct (String.eqb k0 k); cbn; intuition.
Qed.

Lemma dict_set_same (d : dict) (k : string) (v : pyval) :
  Py.lookup d k = Some v -> Py.dict_set d k v = d.
Proof.
  induction d as [|[k0 v0] d IH]; cbn; [discriminate|].
  destruct (String.eqb k0 k).
  - intros H. now injection H as ->.
  - intros H. now rewrite IH.
Qed.

Section SanitizeItem.

Variable B : builtins.

(** On a dictionary the removal loop never raises. *)
Lemma remove_fields_dict (fields : list string) (d : dict) :
  remove_fields B fields (PDict d) = Ok (PDict (fold_left dict_del fields d)).
Proof.
  revert d. induction fields as [|f fields IH]; intros d; cbn; [reflexivity|].
  destruct (Py.lookup d f) eqn:E; cbn.
  - apply IH.
  - rewrite (dict_del_absent d f E). apply IH.
Qed.

(** Anything else comes out of the loop body as it went in, if it comes
    out at all. *)
Lemma remove_fields_other (fields : list string) (item item' : pyval) :
  (forall d, item <> PDict d) ->
  remove_fields B fields item = Ok item' -> item' = item.
Proof.
  intros Hd. induction fields as [|f fields IH]; cbn.
  - intros H. now injection H.
  - destruct (Py.contains item f) as [[|]|e]; cbn; try discriminate.
    + destruct item; cbn; try discriminate. now elim (Hd d).
    + exact IH.
Qed.

Lemma add_wear_ints_other (item item' : pyval) :
  (forall d, item <> PDict d) ->
  add_wear_ints B item = Ok item' -> item' = item.
Proof.
  intros Hd. unfold add_wear_ints.
  destruct (Py.contains item "wears") as [[|]|e]; cbn; try discriminate.
  - destruct item; cbn; try discriminate. now elim (Hd d).
  - intros H. now injection H.
Qed.

Lemma add_rarity_int_other (item item' : pyval) :
  (forall d, item <> PDict d) ->
  add_rarity_int B item = Ok item' -> item' = item.
Proof.
  intros Hd. unfold add_rarity_int.
  destruct (Py.contains item "rarity") as [[|]|e]; cbn; try discriminate.
  - destruct item; cbn; try discriminate. now elim (Hd d).
  - intros H. now injection H.
Qed.

Lemma sanitize_item_other (item item' : pyval) :
  (forall d, item <> PDict d) ->
  sanitize_item B item = Ok item' -> item' = item.
Proof.
  intros Hd. unfold sanitize_item.
  destruct (remove_fields B fields_to_remove item) as [i1|e] eqn:E1;
    cbn; [|discriminate].
  apply (remove_fields_other _ _ _ Hd) in E1. subst i1.
  destruct (add_wear_ints B item) as [i2|e] eqn:E2; cbn; [|discriminate].
  apply (add_wear_ints_other _ _ Hd) in E2. subst i2.
  apply (add_rarity_int_other _ _ Hd).
Qed.

Lemma add_wear_ints_dict (d : dict) :
  add_wear_ints B (PDict d)
  = Ok (PDict match Py.lookup d "wears" with
              | Some (PList l) =>
                  Py.dict_set d "wears" (PList (number_wears 0 l))
              | _ => d
              end).
Proof.
  unfold add_wear_ints. cbn.
  destruct (Py.lookup d "wears") as [[]|]; reflexivity.
Qed.

Lemma add_rarity_int_dict (d : dict) :
  add_rarity_int B (PDict d)
  = match Py.lookup d "rarity" with
    | Some (PDict r) =>
        match Py.lookup r "id" with
        | Some rarity_id =>
            match rarity_mapping_get rarity_id with
            | Ok n => Ok (PDict (Py.dict_set d "rarity"
                                   (PDict (Py.dict_set r "int" n))))
            | Err e => Err e
            end
        | None => Ok (PDict d)
        end
    | _ => Ok (PDict d)
    end.
Proof.
  unfold add_rarity_int. cbn.
  destruct (Py.lookup d "rarity") as [[| | | | | |r|]|]; cbn; try reflexivity.
  destruct (Py.lookup r "id") as [rarity_id|]; cbn; [|reflexivity].
  destruct (rarity_mapping_get rarity_id); reflexivity.
Qed.

End SanitizeItem.

Lemma lookup_fold_del (fields : list string) (d : dict) (k : string) :
  Py.lookup (fold_left dict_del fields d) k
  = if existsb (String.eqb k) fields then None else Py.lookup d k.
Proof.
  revert d. induction fields as [|f fields IH]; intros d; cbn; [reflexivity|].
  rewrite IH. destruct (existsb (String.eqb k) fields).
  - now rewrite orb_true_r.
  - rewrite orb_false_r. destruct (String.eqb_spec k f) as [->|Hk].
    + apply lookup_dict_del_same.
    + apply lookup_dict_del_other. congruence.
Qed.

Lemma number_wears_length (i : nat) (l : list pyval) :
  List.length (number_wears i l) = List.length l.
Proof.
  revert i. induction l as [|x l IH]; intros i; cbn; [reflexivity|].
  now rewrite IH.
Qed.

Lemma number_wears_nth (l : list pyval) :
  forall i k wear,
    nth_error l k = Some wear ->
    nth_error (number_wears i l) k = Some (numbered (i + k) wear).
Proof.
  induction l as [|x l IH]; intros i [|k] wear H; cbn in H; try discriminate.
  - injection H as ->. cbn [number_wears nth_error]. now rewrite Nat.add_0_r.
  - cbn [number_wears nth_error]. rewrite (IH (S i) k wear H).
    now rewrite Nat.add_succ_r.
Qed.

Lemma numbered_twice (i : nat) (wear : pyval) :
  numbered i (numbered i wear) = numbered i wear.
Proof.
  destruct wear; try reflexivity. cbn. now rewrite dict_set_twice.
Qed.

Lemma number_wears_twice (l : list pyval) (i : nat) :
  number_wears i (number_wears i l) = number_wears i l.
Proof.
  revert i. induction l as [|x l IH]; intros i; [reflexivity|].
  cbn [number_wears]. rewrite IH. f_equal.
  change (numbered i (numbered i x) = numbered i x). apply numbered_twice.
Qed.

Lemma rarity_mapping_get_spec (rarity_id n : pyval) :
  rarity_mapping_get rarity_id = Ok n ->
  Py.hashable rarity_id = true /\ n = rarity_int rarity_id.
Proof.
  unfold rarity_mapping_get.
  destruct rarity_id; cbn; try discriminate;
    intros H; injection H as <-; split; reflexivity.
Qed.

Section SanitizeDict.

Variable B : builtins.

(** What the loop body makes of a dictionary. *)
Lemma sanitize_item_dict (d : dict) (item' : pyval) :
  sanitize_item B (PDict d) = Ok item' ->
  exists d',
    item' = PDict d'
    /\ (forall k, k <> "wears" -> k <> "rarity" ->
          Py.lookup d' k = Py.lookup (fold_left dict_del fields_to_remove d) k)
    /\ Py.lookup d' "wears"
       = match Py.lookup d "wears" with
         | Some (PList l) => Some (PList (number_wears 0 l))
         | o => o
         end
    /\ match Py.lookup d "rarity" with
       | Some (PDict r) =>
           match Py.lookup r "id" with
           | Some rarity_id =>
               Py.hashable rarity_id = true
               /\ Py.lookup d' "rarity"
                  = Some (PDict (Py.dict_set r "int" (rarity_int rarity_id)))
           | None => Py.lookup d' "rarity" = Some (PDict r)
           end
       | o => Py.lookup d' "rarity" = o
       end.
Proof.
  unfold sanitize_item. rewrite remove_fields_dict. cbn [rbind].
  rewrite add_wear_ints_dict. cbn [rbind].
  set (d1 := fold_left dict_del fields_to_remove d).
  assert (Hw1 : Py.lookup d1 "wears" = Py.lookup d "wears")
    by (unfold d1; now rewrite lookup_fold_del).
  assert (Hr1 : Py.lookup d1 "rarity" = Py.lookup d "rarity")
    by (unfold d1; now rewrite lookup_fold_del).
  rewrite Hw1.
  match goal with
  | |- context [add_rarity_int B (PDict ?x)] => set (d2 := x)
  end.
  assert (H2 : forall k, k <> "wears" -> Py.lookup d2 k = Py.lookup d1 k).
  { intros k Hk. unfold d2.
    destruct (Py.lookup d "wears") as [[]|]; try reflexivity.
    rewrite lookup_dict_set.
    destruct (String.eqb_spec "wears" k); [congruence | reflexivity]. }
  assert (Hw2 : Py.lookup d2 "wears"
                = match Py.lookup d "wears" with
                  | Some (PList l) => Some (PList (number_wears 0 l))
                  | o => o
                  end).
  { unfold d2. destruct (Py.lookup d "wears") as [[]|] eqn:E;
      try (rewrite Hw1; reflexivity).
    now rewrite lookup_dict_set. }
  rewrite add_rarity_int_dict.
  rewrite (H2 "rarity") by discriminate. rewrite Hr1.
  destruct (Py.lookup d "rarity") as [rarity|] eqn:Er.
  2:{ intros H. injection H as <-. exists d2.
      split; [reflexivity|]. split; [intros k Hk _; now apply H2|].
      split; [exact Hw2|]. rewrite (H2 "rarity") by discriminate.
      now rewrite Hr1. }
  assert (Hsame : Ok (PDict d2) = Ok item' ->
            exists d', item' = PDict d'
              /\ (forall k, k <> "wears" -> k <> "rarity" ->
                    Py.lookup d' k = Py.lookup d1 k)
              /\ Py.lookup d' "wears"
                 = match Py.lookup d "wears" with
                   | Some (PList l) => Some (PList (number_wears 0 l))
                   | o => o
                   end
              /\ Py.lookup d' "rarity" = Some rarity).
  { intros H. injection H as <-. exists d2.
    split; [reflexivity|]. split; [intros k Hk _; now apply H2|].
    split; [exact Hw2|]. rewrite (H2 "rarity") by discriminate.
    now rewrite Hr1. }
  destruct rarity as [| | | | | |r|]; try exact Hsame.
  destruct (Py.lookup r "id") as [rarity_id|] eqn:Eid; [|exact Hsame].
  destruct (rarity_mapping_get rarity_id) as [n|e] eqn:En; [|discriminate].
  apply rarity_mapping_get_spec in En as [Hh ->].
  intros H. injection H as <-. eexists. split; [reflexivity|].
  split; [|split; [|split]].
  - intros k Hk Hk'. rewrite lookup_dict_set.
    destruct (String.eqb_spec "rarity" k); [congruence|]. now apply H2.
  - rewrite lookup_dict_set. exact Hw2.
  - exact Hh.
  - now rewrite lookup_dict_set.
Qed.

End SanitizeDict.

Lemma rarity_mapping_get_hashable (rarity_id : pyval) :
  Py.hashable rarity_id = true ->
  rarity_mapping_get rarity_id = Ok (rarity_int rarity_id).
Proof.
  unfold rarity_mapping_get. destruct rarity_id; cbn; try discriminate; reflexivity.
Qed.

Lemma fold_del_absent (fields : list string) (d : dict) :
  (forall f, In f fields -> Py.lookup d f = None) ->
  fold_left dict_del fields d = d.
Proof.
  induction fields as [|f fields IH]; intros H; cbn; [reflexivity|].
  rewrite (dict_del_absent d f) by (apply H; now left).
  apply IH. intros f' Hf'. apply H. now right.
Qed.

Lemma removed_not_kept (f : string) :
  In f fields_to_remove ->
  f <> "wears" /\ f <> "rarity" /\ existsb (String.eqb f) fields_to_remove = true.
Proof.
  intros [<-|[<-|[<-|[<-|[]]]]]; repeat split; discriminate.
Qed.

Lemma untouched_key (k : string) :
  ~ In k touched ->
  k <> "wears" /\ k <> "rarity" /\ existsb (String.eqb k) fields_to_remove = false.
Proof.
  intros Hk. split; [|split].
  - intros ->. apply Hk. apply in_or_app. right. now left.
  - intros ->. apply Hk. apply in_or_app. right. right. now left.
  - destruct (existsb (String.eqb k) fields_to_remove) eqn:E; [|reflexivity].
    apply existsb_exists in E as (x & Hx & Heq).
    apply String.eqb_eq in Heq. subst x.
    elim Hk. apply in_or_app. now left.
Qed.

Section SanitizeFacts.

Variable B : builtins.

(** The keys the sanitiser does not know are left as they are, and a
    dictionary stays a dictionary. *)
Lemma sanitize_item_frame (item item' : pyval) :
  sanitize_item B item = Ok item' ->
  (forall f, In f fields_to_remove -> field item' f = None)
  /\ (forall k, ~ In k touched -> field item' k = field item k)
  /\ ((forall d, item <> PDict d) -> item' = item)
  /\ ((exists d, item = PDict d) -> exists d', item' = PDict d').
Proof.
  intros H.
  assert (Hother : (forall d, item <> PDict d) -> item' = item)
    by (intros Hd; exact (sanitize_item_other B item item' Hd H)).
  destruct item as [| | | | | |d|];
    try (rewrite Hother by discriminate;
         repeat split; try reflexivity; try (intros _; reflexivity);
         intros (d0 & Hd0); discriminate Hd0).
  destruct (sanitize_item_dict B d item' H) as (d' & -> & Hk & _ & _).
  split; [|split; [|split]].
  - intros f Hf. destruct (removed_not_kept f Hf) as (Hw & Hr & He).
    cbn [field]. rewrite (Hk f Hw Hr), lookup_fold_del. now rewrite He.
  - intros k Hn. destruct (untouched_key k Hn) as (Hw & Hr & He).
    cbn [field]. rewrite (Hk k Hw Hr), lookup_fold_del. now rewrite He.
  - intros Hd. now elim (Hd d).
  - intros _. now exists d'.
Qed.

End SanitizeFacts.

(** Sanitising an item removes the four fields and leaves every field
    other than [wears] and [rarity] as it was. *)
Theorem sanitize_item_fields (B : builtins) (item item' : pyval) :
  sanitize_item B item = Ok item' ->
  (forall f, In f fields_to_remove -> field item' f = None)
  /\ (forall k, ~ In k touched -> field item' k = field item k).
Proof.
  intros H. destruct (sanitize_item_frame B item item' H) as (H1 & H2 & _).
  now split.
Qed.

(** The batch run builds the same hashname for an item before and after
    it has been sanitised. *)
Theorem sanitize_item_hashname (B : builtins) (item item' : pyval) :
  sanitize_item B item = Ok item' ->
  hashname_of B item' = hashname_of B item
  /\ has_name item' = has_name item.
Proof.
  intros H. destruct (sanitize_item_frame B item item' H) as (_ & Hk & Ho & Hd).
  assert (Hname : field item' "name" = field item "name").
  { apply Hk. cbn. intuition discriminate. }
  assert (Hwear : field item' "wear" = field item "wear").
  { apply Hk. cbn. intuition discriminate. }
  assert (Hstat : field item' "stat" = field item "stat").
  { apply Hk. cbn. intuition discriminate. }
  split; [|unfold has_name; now rewrite Hname].
  destruct item as [| | | | | |d|];
    try (rewrite Ho by discriminate; reflexivity).
  destruct Hd as (d' & ->); [now exists d|].
  cbn [field] in *. unfold hashname_of. cbn [Py.getitem_key Py.get].
  now rewrite Hname, Hwear, Hstat.
Qed.

(** Every dictionary of a list of wears gets its position in the list
    under [int]; the other entries, and the length, stay. *)
Theorem sanitize_item_wears (B : builtins) (item item' : pyval)
    (l : list pyval) :
  sanitize_item B item = Ok item' ->
  field item "wears" = Some (PList l) ->
  exists l',
    field item' "wears" = Some (PList l')
    /\ List.length l' = List.length l
    /\ forall i wear, nth_error l i = Some wear ->
         nth_error l' i = Some (numbered i wear).
Proof.
  intros H Hw. destruct item as [| | | | | |d|]; try discriminate Hw.
  cbn [field] in Hw.
  destruct (sanitize_item_dict B d item' H) as (d' & -> & _ & Hw' & _).
  rewrite Hw in Hw'. exists (number_wears 0 l).
  split; [exact Hw'|]. split; [apply number_wears_length|].
  intros i wear Hi. exact (number_wears_nth l 0 i wear Hi).
Qed.

(** A rarity with an id gets the number of the id under [int], or null
    when the id is not one of the six known ones; its other keys stay.  The
    loop body only gets through when the id can be looked up at all. *)
Theorem sanitize_item_rarity (B : builtins) (item item' : pyval)
    (r : dict) (rarity_id : pyval) :
  sanitize_item B item = Ok item' ->
  field item "rarity" = Some (PDict r) ->
  Py.lookup r "id" = Some rarity_id ->
  Py.hashable rarity_id = true
  /\ field item' "rarity"
     = Some (PDict (Py.dict_set r "int" (rarity_int rarity_id)))
  /\ (rarity_int rarity_id = PNone
      \/ exists z, rarity_int rarity_id = PInt z /\ (0 <= z <= 5)%Z).
Proof.
  intros H Hr Hid. destruct item as [| | | | | |d|]; try discriminate Hr.
  cbn [field] in Hr.
  destruct (sanitize_item_dict B d item' H) as (d' & -> & _ & _ & Hr').
  rewrite Hr, Hid in Hr'. destruct Hr' as [Hh Hr'].
  split; [exact Hh|]. split; [exact Hr'|].
  destruct rarity_id; try (left; reflexivity).
  unfold rarity_int, rarity_mapping. cbn [assoc_str].
  repeat match goal with
         | |- context [if ?c then _ else _] =>
             destruct c; [right; eexists; split; [reflexivity|lia]|]
         end.
  now left.
Qed.

Section SanitizeTwice.

Variable B : builtins.

Lemma sanitize_item_twice (item item' : pyval) :
  sanitize_item B item = Ok item' -> sanitize_item B item' = Ok item'.
Proof.
  intros H.
  destruct (sanitize_item_frame B item item' H) as (Hrm & _ & Ho & _).
  destruct item as [| | | | | |d|];
    try (rewrite Ho by discriminate; rewrite Ho in H by discriminate; exact H).
  clear Ho.
  destruct (sanitize_item_dict B d item' H) as (d' & -> & _ & Hw & Hr).
  cbn [field] in Hrm.
  unfold sanitize_item. rewrite remove_fields_dict.
  rewrite (fold_del_absent _ _ Hrm). cbn [rbind].
  rewrite add_wear_ints_dict. cbn [rbind].
  assert (Hw2 : match Py.lookup d' "wears" with
                | Some (PList l) =>
                    Py.dict_set d' "wears" (PList (number_wears 0 l))
                | _ => d'
                end = d').
  { destruct (Py.lookup d "wears") as [[]|]; rewrite Hw; try reflexivity.
    rewrite number_wears_twice. now apply dict_set_same. }
  rewrite Hw2. rewrite add_rarity_int_dict.
  destruct (Py.lookup d "rarity") as [[| | | | | |r|]|];
    try (rewrite Hr; reflexivity).
  destruct (Py.lookup r "id") as [rarity_id|] eqn:Eid.
  - destruct Hr as [Hh Hr]. rewrite Hr.
    rewrite lookup_dict_set. cbn [String.eqb Ascii.eqb Bool.eqb]. rewrite Eid.
    rewrite (rarity_mapping_get_hashable _ Hh).
    rewrite dict_set_twice. now rewrite (dict_set_same _ _ _ Hr).
  - rewrite Hr, Eid. reflexivity.
Qed.

Lemma sanitize_items_twice (items items' : list pyval) :
  map_result (sanitize_item B) items = Ok items' ->
  map_result (sanitize_item B) items' = Ok items'.
Proof.
  revert items'. induction items as [|x items IH]; intros items'; cbn.
  - intros H. now injection H as <-.
  - destruct (sanitize_item B x) as [x'|e] eqn:Ex; cbn; [|discriminate].
    destruct (map_result (sanitize_item B) items) as [rest|e] eqn:Er; cbn;
      [|discriminate].
    intros H. injection H as <-. cbn.
    rewrite (sanitize_item_twice _ _ Ex). cbn.
    now rewrite (IH rest eq_refl).
Qed.

Lemma writable_list (l : list pyval) :
  writable B (PList l) <-> forall x, In x l -> writable B x.
Proof.
  unfold writable. induction l as [|x l IH].
  - split; [intros _ y [] | reflexivity].
  - change (write_failure B (PList (x :: l)))
      with (match write_failure B x with
            | Some e => Some e
            | None => write_failure B (PList l)
            end).
    split.
    + intros H y [<-|Hy].
      * destruct (write_failure B x); [discriminate H | reflexivity].
      * destruct (write_failure B x); [discriminate H|]. now apply IH.
    + intros H. rewrite (H x (or_introl eq_refl)). apply IH.
      intros y Hy. apply H. now right.
Qed.

Lemma writable_dict (d : dict) :
  writable B (PDict d)
  <-> forall k x, In (k, x) d -> has_surrogate k = false /\ writable B x.
Proof.
  unfold writable. induction d as [|[k0 x0] d IH].
  - split; [intros _ k y [] | reflexivity].
  - change (write_failure B (PDict ((k0, x0) :: d)))
      with (if has_surrogate k0
            then Some (mkExc UnicodeEncodeError (py_encode_error B k0))
            else match write_failure B x0 with
                 | Some e => Some e
                 | None => write_failure B (PDict d)
                 end).
    split.
    + intros H k y [E|Hy].
      * injection E as <- <-.
        destruct (has_surrogate k0); [discriminate H|].
        destruct (write_failure B x0); [discriminate H | now split].
      * destruct (has_surrogate k0); [discriminate H|].
        destruct (write_failure B x0); [discriminate H|].
        now apply (proj1 IH H k).
    + intros H. destruct (H k0 x0 (or_introl eq_refl)) as [-> ->].
      apply IH. intros k y Hy. apply (H k). now right.
Qed.

Lemma In_dict_set_key (d : dict) (k k' : string) (v x : pyval) :
  In (k', x) (Py.dict_set d k v) -> (k' = k /\ x = v) \/ In (k', x) d.
Proof.
  induction d as [|[k0 v0] d IH]; cbn.
  - intros [E|[]]. injection E as <- <-. now left.
  - destruct (String.eqb k0 k) eqn:Ek; cbn.
    + apply String.eqb_eq in Ek. subst k0.
      intros [E|H]; [injection E as <- <-; now left | right; now right].
    + intros [E|H]; [right; now left|].
      destruct (IH H) as [Hv|H']; [now left | right; now right].
Qed.

Lemma writable_dict_set (d : dict) (k : string) (v : pyval) :
  writable B (PDict d) -> has_surrogate k = false -> writable B v ->
  writable B (PDict (Py.dict_set d k v)).
Proof.
  intros Hd Hk Hv. apply writable_dict. intros k' x Hin.
  apply In_dict_set_key in Hin as [[-> ->]|Hin]; [now split|].
  exact (proj1 (writable_dict d) Hd k' x Hin).
Qed.

Lemma writable_lookup (d : dict) (k : string) (v : pyval) :
  writable B (PDict d) -> Py.lookup d k = Some v -> writable B v.
Proof.
  intros Hd. induction d as [|[k0 v0] d IH]; cbn; [discriminate|].
  pose proof (proj1 (writable_dict _) Hd) as Hall.
  destruct (String.eqb k0 k).
  - intros E. injection E as <-. apply (Hall k0). now left.
  - apply IH. apply writable_dict. intros k' x Hin.
    apply (Hall k'). now right.
Qed.

(** Sanitising an item that can be written out gives one that can. *)
Lemma sanitize_item_writable (item item' : pyval) :
  writable B item -> sanitize_item B item = Ok item' -> writable B item'.
Proof.
  intros Hs H.
  destruct (sanitize_item_frame B item item' H) as (_ & _ & Ho & _).
  destruct item as [| | | | | |d|];
    try (rewrite Ho by discriminate; exact Hs).
  clear Ho. revert H. unfold sanitize_item.
  rewrite remove_fields_dict. cbn [rbind].
  rewrite add_wear_ints_dict. cbn [rbind].
  set (d1 := fold_left dict_del fields_to_remove d).
  assert (H1 : writable B (PDict d1)).
  { unfold d1. clear d1. revert d Hs.
    induction fields_to_remove as [|f fields IH]; intros d Hs; cbn; [exact Hs|].
    apply IH. apply writable_dict. intros k x Hin.
    apply In_dict_del in Hin.
    exact (proj1 (writable_dict d) Hs k x Hin). }
  match goal with
  | |- context [add_rarity_int B (PDict ?x)] => set (d2 := x)
  end.
  assert (H2 : writable B (PDict d2)).
  { unfold d2. destruct (Py.lookup d1 "wears") as [[| | | | |l| |]|] eqn:E;
      try exact H1.
    apply writable_dict_set; [exact H1 | reflexivity |].
    pose proof (writable_lookup _ _ _ H1 E) as Hl.
    apply writable_list. intros x Hx.
    pose proof (proj1 (writable_list l) Hl) as Hall.
    clear E Hl. revert x Hx. generalize 0%nat.
    induction l as [|y l IH]; intros i x Hx; [contradiction|].
    cbn [number_wears] in Hx. destruct Hx as [<-|Hx].
    - pose proof (Hall y (or_introl eq_refl)) as Hy.
      destruct y; try exact Hy.
      apply writable_dict_set; [exact Hy | reflexivity | reflexivity].
    - apply (IH (fun z Hz => Hall z (or_intror Hz)) (S i) x Hx). }
  rewrite add_rarity_int_dict.
  destruct (Py.lookup d2 "rarity") as [[| | | | | |r|]|] eqn:Er;
    try (intros H; injection H as <-; exact H2).
  destruct (Py.lookup r "id") as [rarity_id|];
    [|intros H; injection H as <-; exact H2].
  destruct (rarity_mapping_get rarity_id) as [n|e] eqn:En; [|discriminate].
  apply rarity_mapping_get_spec in En as [_ ->].
  intros H. injection H as <-.
  apply writable_dict_set; [exact H2 | reflexivity |].
  apply writable_dict_set; [exact (writable_lookup _ _ _ H2 Er) | reflexivity |].
  destruct rarity_id; try reflexivity.
  unfold rarity_int. destruct (assoc_str rarity_mapping s); reflexivity.
Qed.

Lemma sanitize_items_writable (items items' : list pyval) :
  (forall x, In x items -> writable B x) ->
  map_result (sanitize_item B) items = Ok items' ->
  forall x, In x items' -> writable B x.
Proof.
  revert items'. induction items as [|y items IH]; intros items' Hs; cbn.
  - intros H. injection H as <-. intros x [].
  - destruct (sanitize_item B y) as [y'|e] eqn:Ey; cbn; [|discriminate].
    destruct (map_result (sanitize_item B) items) as [rest|e] eqn:Er; cbn;
      [|discriminate].
    intros H. injection H as <-. intros x [<-|Hx].
    + apply (sanitize_item_writable y); [apply Hs; now left | exact Ey].
    + apply (IH rest (fun z Hz => Hs z (or_intror Hz)) eq_refl x Hx).
Qed.

Lemma sanitize_data_writable (data data' : pyval) :
  writable B data -> sanitize_data B data = Ok data' -> writable B data'.
Proof.
  intros Hs. unfold sanitize_data.
  destruct (Py.iter data) as [items|e] eqn:Ei; cbn; [|discriminate].
  destruct (map_result (sanitize_item B) items) as [items'|e] eqn:Em; cbn;
    [|discriminate].
  intros H. injection H as <-.
  destruct data; try exact Hs.
  cbn in Ei. injection Ei as <-.
  apply writable_list.
  apply (sanitize_items_writable l items'); [|exact Em].
  exact (proj1 (writable_list l) Hs).
Qed.

End SanitizeTwice.

(** Sanitising is idempotent: data that came out of the loop goes through
    it again unchanged. *)
Theorem sanitize_data_idempotent (B : builtins) (data data' : pyval) :
  sanitize_data B data = Ok data' -> sanitize_data B data' = Ok data'.
Proof.
  unfold sanitize_data.
  destruct (Py.iter data) as [items|e] eqn:Ei; cbn [rbind]; [|discriminate].
  destruct (map_result (sanitize_item B) items) as [items'|e] eqn:Em;
    cbn [rbind]; [|discriminate].
  intros H. injection H as <-.
  destruct data; try discriminate Ei.
  - rewrite Ei. cbn [rbind]. now rewrite Em.
  - cbn [Py.iter rbind].
    now rewrite (sanitize_items_twice B items items' Em).
  - rewrite Ei. cbn [rbind]. now rewrite Em.
Qed.

(** On data that could be written out as it was loaded, a JSON value no
    text of which holds a lone surrogate, the script writes all or nothing:
    either every item went through the loop and the whole sanitised data is
    saved, or an item raised and the output file is left as it was; it is
    never left half-written. *)
Theorem sanitize_skin_data_all_or_nothing (B : builtins) (data : pyval) :
  writable B data ->
  match sanitize_data B data with
  | Ok data' =>
      sanitize_skin_data B (Ok data) = ([Sanitized; SavedTo], Saved data')
  | Err e =>
      snd (sanitize_skin_data B (Ok data)) = NotWritten
      /\ exists n, fst (sanitize_skin_data B (Ok data)) = [n]
                   /\ n <> Sanitized /\ n <> SavedTo
  end.
Proof.
  intros Hs. unfold sanitize_skin_data. cbn [rbind].
  destruct (sanitize_data B data) as [data'|e] eqn:E.
  - pose proof (sanitize_data_writable B data data' Hs E) as Hs'.
    unfold writable in Hs'. now rewrite Hs'.
  - split; [reflexivity|]. cbn [fst].
    destruct (exc_cls e); eexists; (split; [reflexivity|split; discriminate]).
Qed.

(** A text with a lone surrogate, which [json.load] reads from its escape,
    cannot be encoded when it is written back: the output file has been
    opened and is left broken, and neither of the two lines is printed. *)
Example lone_surrogate_breaks_the_file :
  let high := String (ascii_of_nat 237)
                (String (ascii_of_nat 160) (String (ascii_of_nat 128) "")) in
  let data := PList [PDict [("name", PStr high)]] in
  serializable data
  /\ sanitize_data Demo.runtime data = Ok data
  /\ sanitize_skin_data Demo.runtime (Ok data)
     = ([UnexpectedError
           "'utf-8' codec can't encode character: surrogates not allowed"],
        Broken).
Proof. vm_compute. repeat split. Qed.

Lemma sanitize_item_fields_example :
  sanitize_item Demo.runtime raw_redline = Ok sanitized_redline
  /\ (forall f, In f fields_to_remove -> field sanitized_redline f = None)
  /\ (forall k, ~ In k touched ->
        field sanitized_redline k = field raw_redline k).
Proof.
  assert (H : sanitize_item Demo.runtime raw_redline = Ok sanitized_redline)
    by reflexivity.
  split; [exact H|].
  exact (sanitize_item_fields Demo.runtime raw_redline sanitized_redline H).
Defined.

Lemma sanitize_item_hashname_example :
  sanitize_item Demo.runtime raw_redline = Ok sanitized_redline
  /\ hashname_of Demo.runtime raw_redline
     = Ok "AK-47%20%7C%20Redline%20%28Factory%20New%29"
  /\ hashname_of Demo.runtime sanitized_redline
     = hashname_of Demo.runtime raw_redline
  /\ has_name sanitized_redline = has_name raw_redline.
Proof.
  assert (H : sanitize_item Demo.runtime raw_redline = Ok sanitized_redline)
    by reflexivity.
  split; [exact H|]. split; [reflexivity|].
  exact (sanitize_item_hashname Demo.runtime raw_redline sanitized_redline H).
Defined.

Lemma sanitize_item_wears_example :
  let l := [PDict [("name", PStr "Factory New")]; PStr "Minimal Wear"] in
  sanitize_item Demo.runtime raw_redline = Ok sanitized_redline
  /\ field raw_redline "wears" = Some (PList l)
  /\ exists l',
       field sanitized_redline "wears" = Some (PList l')
       /\ List.length l' = List.length l
       /\ forall i wear, nth_error l i = Some wear ->
            nth_error l' i = Some (numbered i wear).
Proof.
  intros l.
  assert (H : sanitize_item Demo.runtime raw_redline = Ok sanitized_redline)
    by reflexivity.
  split; [exact H|]. split; [reflexivity|].
  exact (sanitize_item_wears Demo.runtime raw_redline sanitized_redline l
           H eq_refl).
Defined.

Lemma sanitize_item_rarity_example :
  let r := [("id", PStr "rarity_legendary_weapon");
            ("name", PStr "Classified")] in
  let rarity_id := PStr "rarity_legendary_weapon" in
  sanitize_item Demo.runtime raw_redline = Ok sanitized_redline
  /\ rarity_int rarity_id = PInt 1
  /\ Py.hashable rarity_id = true
  /\ field sanitized_redline "rarity"
     = Some (PDict (Py.dict_set r "int" (rarity_int rarity_id)))
  /\ (rarity_int rarity_id = PNone
      \/ exists z, rarity_int rarity_id = PInt z /\ (0 <= z <= 5)%Z).
Proof.
  intros r rarity_id.
  assert (H : sanitize_item Demo.runtime raw_redline = Ok sanitized_redline)
    by reflexivity.
  split; [exact H|]. split; [reflexivity|].
  exact (sanitize_item_rarity Demo.runtime raw_redline sanitized_redline r
           rarity_id H eq_refl eq_refl).
Defined.

Lemma sanitize_data_idempotent_example :
  let data := PList [raw_redline; PStr "note"] in
  let data' := PList [sanitized_redline; PStr "note"] in
  sanitize_data Demo.runtime data = Ok data'
  /\ sanitize_data Demo.runtime data' = Ok data'.
Proof.
  intros data data'.
  assert (H : sanitize_data Demo.runtime data = Ok data') by reflexivity.
  split; [exact H|].
  exact (sanitize_data_idempotent Demo.runtime data data' H).
Defined.

Lemma sanitize_skin_data_all_or_nothing_example :
  let data := PList [raw_redline; PInt 7] in
  writable Demo.runtime data
  /\ sanitize_data Demo.runtime (PList [raw_redline])
     = Ok (PList [sanitized_redline])
  /\ match sanitize_data Demo.runtime data with
     | Ok data' =>
         sanitize_skin_data Demo.runtime (Ok data)
         = ([Sanitized; SavedTo], Saved data')
     | Err e =>
         snd (sanitize_skin_data Demo.runtime (Ok data)) = NotWritten
         /\ exists n, fst (sanitize_skin_data Demo.runtime (Ok data)) = [n]
                      /\ n <> Sanitized /\ n <> SavedTo
     end.
Proof.
  intros data. split; [reflexivity|]. split; [reflexivity|].
  exact (sanitize_skin_data_all_or_nothing Demo.runtime data eq_refl).
Defined.

(** ** Reading the responses

    [split] and [find] in terms of first occurrences. *)

Lemma rev_string_app (s acc : string) :
  Text.rev_string acc s = (Text.rev_string EmptyString s ++ acc)%string.
Proof.
  revert acc. induction s as [|c s IH]; intros acc; cbn; [reflexivity|].
  rewrite IH. rewrite (IH (String c EmptyString)).
  now rewrite append_assoc.
Qed.

Lemma split_from_skip (sep : string) (k : nat) (cur s : string) :
  Text.split_from sep k cur s = Text.split_from sep 0 cur (drop k s).
Proof.
  revert s. induction k as [|k IH]; intros s.
  - destruct s; reflexivity.
  - destruct s as [|c s]; [reflexivity|]. cbn [Text.split_from drop]. apply IH.
Qed.

Lemma substring_of_cons (sep : string) (c : ascii) (s : string) :
  Py.substring_of sep (String c s)
  = prefix sep (String c s) || Py.substring_of sep s.
Proof.
  unfold Py.substring_of. cbn [index].
  destruct (prefix sep (String c s)); [reflexivity|].
  destruct (index 0 sep s); reflexivity.
Qed.

Lemma split_from_first (sep : string) :
  sep <> EmptyString ->
  forall s cur,
    Text.split_from sep 0 cur s
    = (Text.rev_string EmptyString cur ++ before sep s)%string
      :: (if Py.substring_of sep s
          then Text.split_from sep 0 EmptyString (after sep s)
          else []).
Proof.
  intros Hne. induction s as [|c s IH]; intros cur.
  - cbn. rewrite append_empty_r.
    destruct sep; [now elim Hne | reflexivity].
  - rewrite substring_of_cons. cbn [Text.split_from before after].
    destruct (prefix sep (String c s)) eqn:E.
    + cbn [orb]. rewrite append_empty_r. f_equal.
      rewrite split_from_skip. f_equal.
      destruct sep as [|a sep]; [now elim Hne|].
      cbn [String.length drop].
      replace (S (String.length sep) - 1)%nat with (String.length sep) by lia.
      reflexivity.
    + cbn [orb]. rewrite IH. f_equal.
      cbn [Text.rev_string]. rewrite (rev_string_app cur).
      now rewrite append_assoc.
Qed.

Lemma split_second (sep s : string) :
  sep <> EmptyString ->
  Py.list_index (Text.split sep s) 1
  = if Py.substring_of sep s then Ok (before sep (after sep s))
    else Err index_error.
Proof.
  intros Hne. unfold Text.split. rewrite (split_from_first sep Hne).
  destruct (Py.substring_of sep s); [|reflexivity].
  rewrite (split_from_first sep Hne). reflexivity.
Qed.

Lemma split_head (sep s : string) :
  sep <> EmptyString ->
  Py.list_index (Text.split sep s) 0 = Ok (before sep s).
Proof.
  intros Hne. unfold Text.split. rewrite (split_from_first sep Hne). reflexivity.
Qed.

Section Reading.

Variable B : builtins.
Variable w : world.
Variable fuel : nat.

(** A price is read from the text between the first occurrence of its
    label and the first double quote after it; without the label the
    indexing fails. *)
Theorem price_field_between (label order_data : string) :
  label <> EmptyString ->
  price_field B label order_data
  = if Py.substring_of label order_data
    then (cents <- py_int B (between label Text.dq order_data) ;;
          py_truediv B cents 100)%result
    else Err index_error.
Proof.
  intros Hne. unfold price_field, field_after, between.
  rewrite (split_second _ _ Hne).
  destruct (Py.substring_of label order_data); [|reflexivity].
  cbn [rbind]. rewrite split_head by discriminate. reflexivity.
Qed.

(** When the listing page holds the marker, the name id is read from the
    text between its first occurrence and the first space after it, and
    nothing but the listing page has been requested. *)
Theorem get_nameid_between (hashname : string) (m m1 : machine)
    (resp : response) :
  get w fuel (listing_url hashname) m = (Ret resp, m1) ->
  Py.substring_of "Market_LoadOrderSpread( " (text resp) = true ->
  get_nameid B w fuel hashname m
  = lift (py_int B (between "Market_LoadOrderSpread( " " " (text resp))) m1.
Proof.
  intros Hget Hocc. unfold get_nameid.
  rewrite (bind_eq _ _ _ _ _ Hget). cbv zeta.
  rewrite split_second by discriminate. rewrite Hocc.
  unfold bind, lift, between. rewrite split_head by discriminate.
  destruct (py_int B _); reflexivity.
Qed.

End Reading.

Lemma price_field_between_example :
  let order_data := Demo.histogram_page "[[1,3]]" "[[2,5]]" in
  highest_buy_label <> EmptyString
  /\ between highest_buy_label Text.dq order_data = "150"
  /\ price_field Demo.runtime highest_buy_label order_data
     = if Py.substring_of highest_buy_label order_data
       then (cents <- py_int Demo.runtime
                        (between highest_buy_label Text.dq order_data) ;;
             py_truediv Demo.runtime cents 100)%result
       else Err index_error.
Proof.
  intros order_data.
  assert (Hne : highest_buy_label <> EmptyString) by discriminate.
  split; [exact Hne|]. split; [reflexivity|].
  exact (price_field_between Demo.runtime highest_buy_label order_data Hne).
Defined.

Lemma get_nameid_between_example :
  let w := Demo.market "[[1,3]]" "[[2,5]]" Demo.no_input in
  let m := Demo.fresh_machine 1000 in
  let run := get w 1 (listing_url "AK-47") m in
  between "Market_LoadOrderSpread( " " " Demo.listing_page = "176042493"
  /\ get_nameid Demo.runtime w 1 "AK-47" m
     = lift (py_int Demo.runtime
               (between "Market_LoadOrderSpread( " " " Demo.listing_page))
         (snd run).
Proof.
  intros w m run. split; [reflexivity|].
  exact (get_nameid_between Demo.runtime w 1 "AK-47" m (snd run)
           (mkResponse 200 Demo.listing_page) eq_refl eq_refl).
Defined.

Lemma index_drop (sub : string) :
  sub <> EmptyString ->
  forall n s,
    index n sub s = option_map (Nat.add n) (index 0 sub (drop n s)).
Proof.
  intros Hne. induction n as [|n IH]; intros s.
  - cbn [drop]. destruct s; cbn [drop]; destruct (index 0 sub _); reflexivity.
  - destruct s as [|c s].
    + cbn. destruct sub; [now elim Hne | reflexivity].
    + cbn [index drop]. rewrite IH.
      destruct (index 0 sub (drop n s)); reflexivity.
Qed.

Lemma index_after (label : string) :
  forall data i,
    index 0 label data = Some i ->
    after label data = drop (i + String.length label) data.
Proof.
  induction data as [|c data IH]; intros i H.
  - cbn in H. destruct label; [|discriminate]. injection H as <-. reflexivity.
  - cbn [index] in H. cbn [after].
    destruct (prefix label (String c data)).
    + injection H as <-. reflexivity.
    + destruct (index 0 label data) as [k|]; [|discriminate].
      injection H as <-. cbn [Nat.add drop]. now apply IH.
Qed.

Lemma substring_drop (n l : nat) (s : string) :
  substring n l s = substring 0 l (drop n s).
Proof.
  revert s. induction n as [|n IH]; intros s.
  - destruct s; reflexivity.
  - destruct s as [|c s]; [destruct l; reflexivity|]. cbn [substring drop]. apply IH.
Qed.

Lemma drop_drop (a b : nat) (s : string) : drop a (drop b s) = drop (b + a) s.
Proof.
  revert s. induction b as [|b IH]; intros s; [reflexivity|].
  destruct s as [|c s]; [destruct a; reflexivity|]. cbn [drop Nat.add]. apply IH.
Qed.

Lemma prefix_substring (sub : string) :
  forall t, prefix sub t = true -> substring 0 (String.length sub) t = sub.
Proof.
  induction sub as [|a sub IH]; intros t H.
  - destruct t; reflexivity.
  - destruct t as [|c t]; [discriminate|]. cbn in H.
    destruct (ascii_dec a c) as [->|]; [|discriminate].
    cbn. now rewrite IH.
Qed.

Lemma prefix_split (a b : string) :
  forall t, prefix (a ++ b)%string t = true ->
            substring 0 (String.length a) t = a.
Proof.
  induction a as [|x a IH]; intros t H.
  - destruct t; reflexivity.
  - destruct t as [|c t]; [discriminate|]. cbn in H.
    destruct (ascii_dec x c) as [->|]; [|discriminate].
    cbn. now rewrite IH.
Qed.

(** The text up to the first occurrence of [stop], and [keep] more
    characters, which are the beginning of [stop]. *)
Lemma substring_before (keep rest : string) :
  forall t k,
    index 0 (keep ++ rest)%string t = Some k ->
    (keep ++ rest)%string <> EmptyString ->
    substring 0 (k + String.length keep) t
    = (before (keep ++ rest) t ++ keep)%string.
Proof.
  induction t as [|c t IH]; intros k H Hne.
  - cbn in H. destruct (keep ++ rest)%string; [now elim Hne | discriminate].
  - cbn [index] in H. cbn [before].
    destruct (prefix (keep ++ rest) (String c t)) eqn:E.
    + injection H as <-. cbn [Nat.add append].
      exact (prefix_split keep rest _ E).
    + destruct (index 0 (keep ++ rest) t) as [j|] eqn:Ej; [|discriminate].
      injection H as <-. cbn [Nat.add substring append]. f_equal.
      now apply IH.
Qed.

(** The text of a graph runs from the end of the first occurrence of its
    label to the first [ ]], ] after it, brackets included, wherever that
    is; it is empty when there is none. *)
Theorem graph_text_between (label order_data : string) :
  label <> EmptyString ->
  Py.substring_of label order_data = true ->
  graph_text label order_data
  = if Py.substring_of "]]," (after label order_data)
    then (before "]]," (after label order_data) ++ "]]")%string
    else EmptyString.
Proof.
  intros Hne Hocc. unfold graph_text, Text.find, Text.slice, Text.len.
  unfold Py.substring_of in *. change (Z.to_nat 0) with 0%nat.
  destruct (index 0 label order_data) as [i|] eqn:Ei; [|discriminate].
  rewrite (index_after label order_data i Ei).
  set (start := (i + String.length label)%nat).
  replace (Z.to_nat (Z.of_nat i + Z.of_nat (String.length label))) with start
    by (unfold start; lia).
  rewrite (index_drop "]],") by discriminate.
  destruct (index 0 "]]," (drop start order_data)) as [k|] eqn:Ek;
    cbn [option_map].
  - replace (Z.to_nat (Z.of_nat (start + k) + 2) - start)%nat
      with (k + String.length "]]")%nat by (cbn; lia).
    rewrite substring_drop.
    exact (substring_before "]]" "," (drop start order_data) k Ek
             ltac:(discriminate)).
  - assert (Hs : (1 <= start)%nat).
    { unfold start. destruct label; [now elim Hne | cbn; lia]. }
    replace (Z.to_nat (-1 + 2) - start)%nat with 0%nat by lia.
    rewrite substring_drop. destruct (drop start order_data); reflexivity.
Qed.

Lemma graph_text_between_example :
  let order_data := Demo.histogram_page "[]" "[[2,5]]" in
  buy_graph_label <> EmptyString
  /\ Py.substring_of buy_graph_label order_data = true
  /\ graph_text buy_graph_label order_data
     = ("[]," ++ sell_graph_label ++ "[[2,5]]")%string
  /\ graph_text buy_graph_label order_data
     = if Py.substring_of "]]," (after buy_graph_label order_data)
       then (before "]]," (after buy_graph_label order_data) ++ "]]")%string
       else EmptyString.
Proof.
  intros order_data.
  assert (Hne : buy_graph_label <> EmptyString) by discriminate.
  split; [exact Hne|]. split; [reflexivity|]. split; [reflexivity|].
  exact (graph_text_between buy_graph_label order_data Hne eq_refl).
Defined.
